(** * Stay Contented: the job orchestrator of [server.js]

    A shallow embedding of the mode allocation ([applyMixedMode]), the
    generation client ([callOpenAIJson], [generateEditorialImage]), the job
    runner ([runJob]) and the two job routes of [src/server.js], followed by
    the properties the design document states about them. A last part adds
    the slugs and the prompt compilers of the server, the download route,
    and the pages that submit and follow a job ([src/public/app.js] and
    the later [src/unnamed/part_000]), with further properties of the code.

    JavaScript values are modelled as follows.
    - A string is a [string]; one [ascii] stands for one UTF-16 code unit, and
      [toLowerCase] acts on the ASCII letters.
    - An object read with [?.] or [||] is a record whose optional fields are
      [option]s: [None] is [undefined] (the field is absent). A parsed
      document is read at the shape its prompt asks for: a field may be
      absent, but one that is present has the type of the schema (a post is
      an object, its topic a string).
    - [jobs] (a [Map]) is a [gmap string Job]; the output directory is a
      [gmap] from path to the value that was stringified into the file.
    - The remote endpoints, [JSON.parse] and the file system are the [World]:
      every theorem below is stated for every world. Every remote call
      settles, by resolving or by rejecting.
    - A run is followed from its start to its end in one piece; the points
      where it yields to the event loop are recorded, with the job table a
      status request would read there. A call that never settled would
      leave the run at one of these points. *)

From Stdlib Require Import ZArith Lia Ascii String.
From stdpp Require Import base option list strings gmap.

Local Open Scope Z_scope.

(** ** Strings *)

Module Js.

(** [String.prototype.toLowerCase], on the ASCII letters. *)
Definition lower_ascii (c : ascii) : ascii :=
  let n := nat_of_ascii c in
  if ((65 <=? n)%nat && (n <=? 90)%nat)%bool then ascii_of_nat (n + 32) else c.

Fixpoint toLowerCase (s : string) : string :=
  match s with
  | EmptyString => EmptyString
  | String c s' => String (lower_ascii c) (toLowerCase s')
  end.

(** [s.includes(t)]: [t] occurs in [s] as a substring. *)
Fixpoint includes (s t : string) : bool :=
  String.prefix t s ||
  match s with
  | EmptyString => false
  | String _ s' => includes s' t
  end.

(** [s.slice(0, n)] for [0 <= n]. *)
Fixpoint slice0 (n : nat) (s : string) : string :=
  match n, s with
  | O, _ => EmptyString
  | S _, EmptyString => EmptyString
  | S n', String c s' => String c (slice0 n' s')
  end.

(** A value spliced into a string: [undefined] prints as its name. *)
Definition str (o : option string) : string := default "undefined" o.

(** [o || d] for a string or [undefined]: the empty string is falsy too. *)
Definition or_else (o : option string) (d : string) : string :=
  match o with
  | None | Some EmptyString => d
  | Some s => s
  end.

(** Optional chaining [o?.f]. *)
Definition chain {A B} (o : option A) (f : A -> option B) : option B :=
  match o with
  | Some a => f a
  | None => None
  end.

End Js.

Notation "o ?. f" := (Js.chain o f) (at level 40, left associativity).

(** ** The content plan *)

(** A post of the plan. The fields the server never reads (hook, value
    points, call to action, format) are carried along untouched and are left
    out. *)
Record Post := mkPost {
  id : option string;
  post_type : option string;
  topic : option string;
  angle : option string;
  visual_mode : option string
}.

Record Plan := mkPlan {
  month : option string;
  posts_count : option Z;
  posts : option (list Post)
}.

(** The parsed plan document: [{ plan: ... }]. The document itself may be
    [null], which is the [None] of [option PlanJson]. *)
Record PlanJson := mkPlanJson { plan : option Plan }.

#[global] Instance Post_eq_dec : EqDecision Post.
Proof. solve_decision. Defined.
#[global] Instance Plan_eq_dec : EqDecision Plan.
Proof. solve_decision. Defined.
#[global] Instance PlanJson_eq_dec : EqDecision PlanJson.
Proof. solve_decision. Defined.

Definition set_visual_mode (m : string) (p : Post) : Post :=
  mkPost (id p) (post_type p) (topic p) (angle p) (Some m).

(** [planJson?.plan?.posts || []] *)
Definition posts_of (planJson : option PlanJson) : list Post :=
  default [] (planJson ?. plan ?. posts).

(** The plan document with its posts array replaced: the posts are mutated
    in place, the document around them stays. *)
Definition with_posts (planJson : option PlanJson) (ps : list Post)
  : option PlanJson :=
  match planJson with
  | Some (mkPlanJson (Some (mkPlan m c (Some _)))) =>
      Some (mkPlanJson (Some (mkPlan m c (Some ps))))
  | _ => planJson
  end.

Module MixedMode.

Definition is_promotional (p : Post) : bool :=
  bool_decide (post_type p = Some "promotional").

(** The callback of the [productish] filter. *)
Definition is_productish (p : Post) : bool :=
  let t := Js.toLowerCase (Js.str (topic p) +:+ " " +:+ Js.or_else (angle p) "") in
  Js.includes t "product" ||
  Js.includes t "offer" ||
  Js.includes t "pricing" ||
  Js.includes t "launch" ||
  Js.includes t "features".

(** [for (const p of src) if (chosen.length < 4) chosen.push(p);] *)
Definition push_below_4 (chosen src : list Post) : list Post :=
  fold_left (fun ch p => if (length ch <? 4)%nat then ch ++ [p] else ch) src chosen.

(** [for (const p of src) chosen.push(p);] *)
Definition push_all (chosen src : list Post) : list Post :=
  fold_left (fun ch p => ch ++ [p]) src chosen.

(** The list [chosen] when the three loops are over. *)
Definition chosen (posts : list Post) : list Post :=
  let promo := List.filter is_promotional posts in
  let remaining := List.filter (fun p => negb (is_promotional p)) posts in
  let productish := List.filter is_productish remaining in
  let chosen := push_all [] promo in
  let chosen := push_below_4 chosen productish in
  push_below_4 chosen remaining.

(** [new Set(chosen.slice(0, 4).map((p) => p.id))] *)
Definition chosenIds (posts : list Post) : gset (option string) :=
  list_to_set (map id (take 4 (chosen posts))).

Definition tag (ids : gset (option string)) (p : Post) : Post :=
  set_visual_mode (if bool_decide (id p ∈ ids) then "product_model" else "editorial") p.

Definition applyMixedMode (planJson : option PlanJson) : option PlanJson :=
  let posts := posts_of planJson in
  if (length posts =? 0)%nat then planJson
  else with_posts planJson (map (tag (chosenIds posts)) posts).

(** How many posts carry a given visual mode. *)
Definition count_mode (m : string) (ps : list Post) : nat :=
  length (List.filter (fun p => bool_decide (visual_mode p = Some m)) ps).

End MixedMode.

Import MixedMode.

(** The product set as the design document words it: promotional posts
    first, then the posts with a keyword, then the posts left over, each
    class in list order, the first four of them. Used only to compare with
    [chosenIds]. *)
Definition spec_priority_order (posts : list Post) : list Post :=
  let promo := List.filter is_promotional posts in
  let keyword :=
    List.filter (fun p => negb (is_promotional p) && is_productish p) posts in
  let others :=
    List.filter (fun p => negb (is_promotional p) && negb (is_productish p)) posts in
  promo ++ keyword ++ others.

Definition spec_product_ids (posts : list Post) : gset (option string) :=
  list_to_set (map id (take 4 (spec_priority_order posts))).

(** ** Campaign context *)

Record BrandVoice := mkBrandVoice { tone : option string }.

Record Brand := mkBrand {
  name : option string;
  offer_summary : option string;
  brand_voice : option BrandVoice
}.

Record Campaign := mkCampaign {
  campaign_posts_count : option Z;
  campaign_month : option string
}.

Record ProductMode := mkProductMode { product_names : option (list string) }.

(** [job.input], the parsed [input_json]. The document may be [null]
    ([None] of [option Context]); a document that is not an object reads as
    an object without fields. *)
Record Context := mkContext {
  brand : option Brand;
  campaign : option Campaign;
  product_mode : option ProductMode
}.

(** ** Brand style and prompt compilers *)

Module Style.

Definition is_slug_char (c : ascii) : bool :=
  let n := nat_of_ascii c in
  ((97 <=? n)%nat && (n <=? 122)%nat) || ((48 <=? n)%nat && (n <=? 57)%nat).

(** [.replace(/[^a-z0-9]+/g, "-")] *)
Fixpoint dash_runs (in_run : bool) (s : string) : string :=
  match s with
  | EmptyString => EmptyString
  | String c s' =>
      if is_slug_char c then String c (dash_runs false s')
      else if in_run then dash_runs true s'
      else String "-" (dash_runs true s')
  end.

Fixpoint drop_last_dash (s : string) : string :=
  match s with
  | EmptyString => EmptyString
  | String "-" EmptyString => EmptyString
  | String c s' => String c (drop_last_dash s')
  end.

(** [.replace(/(^-|-$)/g, "")] *)
Definition trim_dashes (s : string) : string :=
  match s with
  | String "-" s' => drop_last_dash s'
  | _ => drop_last_dash s
  end.

Definition slugify (s : option string) : string :=
  trim_dashes (dash_runs false (Js.toLowerCase (Js.or_else s "brand"))).

(** The fields of the style the compilers read, with the palette and the
    brand id; the constant fields (typography, composition, templates) are
    left out. *)
Record BrandStyle := mkBrandStyle {
  brand_id : string;
  palette : list string;
  background : string;
  mood : string;
  style_preset : string;
  lighting : string;
  product_background : string;
  camera : string
}.

Definition makeDefaultBrandStyle (input : option Context) : BrandStyle :=
  let tone := Js.or_else (input ?. brand ?. brand_voice ?. tone) "professional" in
  let brandName := Js.or_else (input ?. brand ?. name) "brand" in
  {| brand_id := slugify (Some brandName);
     palette :=
       if bool_decide (tone = "bold")
       then ["#111111"; "#FFFFFF"; "#E6E6E6"]
       else ["#111111"; "#F5F2ED"; "#D7D7D7"];
     background := "warm off-white";
     mood :=
       if bool_decide (tone = "friendly")
       then "clean, friendly, confident"
       else "clean, calm, premium";
     style_preset := "lifestyle_clean";
     lighting := "soft natural";
     product_background := "neutral";
     camera := "editorial product photography" |}.

End Style.

Import Style.

(** ** Visual briefs *)

Record VisualBrief := mkVisualBrief {
  v_id : option string;
  headline : option string;
  subtext : option string;
  icon_hint : option string;
  layout : option string;
  image_prompt : option string;
  negative_prompt : option string
}.

(** The parsed visual-brief document: [{ editorial_visuals: [...] }]. *)
Record VisualsJson := mkVisualsJson { editorial_visuals : option (list VisualBrief) }.

Record Caption := mkCaption { caption_id : option string; caption : option string }.

(** The parsed captions document; the server only stringifies it again. *)
Record CaptionsJson := mkCaptionsJson { captions : option (list Caption) }.

Record Variant := mkVariant {
  variant : string;
  prompt : string;
  variant_negative_prompt : string
}.

Record ProductBrief := mkProductBrief {
  brief_id : option string;
  product_focus : string;
  brief_style_preset : string;
  variants : list Variant
}.

Module Compile.

Definition dquote : string := String (ascii_of_nat 34) EmptyString.

Definition compileEditorialPrompt (brandStyle : BrandStyle) (v : VisualBrief)
  : string * string :=
  let bg := background brandStyle in
  let mood := mood brandStyle in
  let icon := Js.or_else (icon_hint v) "simple icon" in
  let image_prompt :=
    "Minimal editorial Instagram post design. " +:+
    "Background: " +:+ bg +:+ ". Mood: " +:+ mood +:+ ". " +:+
    "Modern sans-serif typography, high legibility, lots of whitespace. " +:+
    "Headline: " +:+ dquote +:+ Js.str (headline v) +:+ dquote +:+ ". " +:+
    match subtext v with
    | None | Some EmptyString => ""
    | Some s => "Subtext: " +:+ dquote +:+ s +:+ dquote +:+ ". "
    end +:+
    "One monochrome line icon: " +:+ icon +:+ ". " +:+
    "Layout: " +:+ Js.str (layout v) +:+ ". No photos, no people." in
  let negative_prompt :=
    "photorealistic people, faces, clutter, gradients, decorative fonts, " +:+
    "busy patterns, neon colors, low contrast text, illegible text, watermark, blurry" in
  (image_prompt, negative_prompt).

(** [{ ...v, ...compiled }] *)
Definition compiled_visual (brandStyle : BrandStyle) (v : VisualBrief) : VisualBrief :=
  let compiled := compileEditorialPrompt brandStyle v in
  mkVisualBrief (v_id v) (headline v) (subtext v) (icon_hint v) (layout v)
    (Some (fst compiled)) (Some (snd compiled)).

Definition compileProductModelBrief
    (brandStyle : BrandStyle) (post : Post) (brandContext : option Context)
  : ProductBrief :=
  let preset := Js.or_else (Some (style_preset brandStyle)) "lifestyle_clean" in
  let productName :=
    Js.or_else (brandContext ?. product_mode ?. product_names ?. head)
      (Js.or_else (brandContext ?. brand ?. offer_summary) "the product") in
  let base :=
    "Commercial product imagery. Style preset: " +:+ preset +:+ ". " +:+
    "Lighting: " +:+ lighting brandStyle +:+
    ". Background: " +:+ product_background brandStyle +:+ ". " +:+
    "Camera: " +:+ camera brandStyle +:+
    ". Brand mood: " +:+ mood brandStyle +:+ "." in
  let variants :=
    [ mkVariant "A"
        (base +:+ " Feature " +:+ productName +:+
         " in a clean lifestyle scene. Minimal props. Natural premium feel.")
        "blurry, clutter, weird hands, extra fingers, distorted text, low quality, watermark";
      mkVariant "B"
        (base +:+ " Studio-clean shot of " +:+ productName +:+
         ". Neutral background. Crisp premium product focus.")
        "blurry, clutter, warped label, distorted logo, low quality, watermark" ] in
  mkProductBrief (id post) productName preset variants.

End Compile.

Import Compile.

(** ** Jobs, errors and the outside world *)

Inductive Status := Queued | Running | Done | Error.

Definition status_name (s : Status) : string :=
  match s with
  | Queued => "queued"
  | Running => "running"
  | Done => "done"
  | Error => "error"
  end.

Record Job := mkJob {
  job_id : string;
  status : Status;
  progress : Z;
  input : option Context;
  createdAt : Z;
  error : option string;
  downloadUrl : option string
}.

(** A thrown value, seen through [err?.message]. *)
Record thrown := Thrown { message : option string }.

(** [new Error(m)] and the errors the runtime raises itself. *)
Definition mkError (m : string) : thrown := Thrown (Some m).

(** [err?.message || "Unknown error"] *)
Definition captured_message (err : thrown) : string :=
  Js.or_else (message err) "Unknown error".

Inductive stage := PlanStage | CaptionsStage | VisualsStage.

(** The outcome of awaiting a remote call. *)
Inductive reply (A : Type) :=
  | Rejected (e : thrown)
  | Resolved (a : A).
Arguments Rejected {A} e.
Arguments Resolved {A} a.

(** Everything the server does not decide itself. [JSON.parse] returns
    [None] where it throws a [SyntaxError]; a parsed document that is [null]
    is the inner [None]. The chat endpoint is asked once per stage and the
    image endpoint once per rendered post, so their replies are indexed by
    the stage and by the position in the rendering loop. The file system
    is asked by path: [mkdirSync_error dir] is what [ensureDir(dir)] throws
    when [dir] is not there and cannot be made, [writeFileSync_error p]
    what writing the file [p] throws. *)
Record World := mkWorld {
  JSON_parse_input : string -> option (option Context);
  JSON_parse_plan : string -> option (option PlanJson);
  JSON_parse_captions : string -> option (option CaptionsJson);
  JSON_parse_visuals : string -> option (option VisualsJson);
  chat_completions : stage -> reply (option string);
  images_generate : nat -> reply (option string);
  mkdirSync_error : string -> option thrown;
  writeFileSync_error : string -> option thrown
}.

(** What a file holds: the value that [JSON.stringify] rendered into it, or
    the image decoded from base64. *)
Inductive content :=
  | FilePlan (planJson : option PlanJson)
  | FileCaptions (captionsJson : option CaptionsJson)
  | FileVisuals (visualsJson : option VisualsJson)
  | FileBrandStyle (brandStyle : BrandStyle)
  | FileCompiled (editorial_visuals : list VisualBrief)
  | FileProductBriefs (product_visuals : list ProductBrief)
  | FileImage (b64 : string).

(** What the run does to the outside, in the order it does it. *)
Inductive event :=
  | EvChat (s : stage)
  | EvImage (n : nat)
  | EvWrite (path : string).

#[global] Instance Status_eq_dec : EqDecision Status.
Proof. solve_decision. Defined.
#[global] Instance stage_eq_dec : EqDecision stage.
Proof. solve_decision. Defined.
#[global] Instance event_eq_dec : EqDecision event.
Proof. solve_decision. Defined.
#[global] Instance thrown_eq_dec : EqDecision thrown.
Proof. solve_decision. Defined.

(** The process state. [jobs] and [disk] are the server's; the three logs
    record what happened: [events] the remote calls and file writes,
    [history] the job record after each assignment to one of its fields,
    [seen] the job table at each point where the run yields to the event
    loop (an [await], or the end of [runJob]), which are the only tables a
    status request can read. *)
Record state := mkState {
  jobs : gmap string Job;
  disk : gmap string content;
  events : list event;
  history : list Job;
  seen : list (gmap string Job)
}.

Definition initial_state : state := mkState ∅ ∅ [] [] [].

(** ** Effects: state that survives an exception *)

Module Run.

(** A computation changes the state and either throws or returns. The
    state reached is kept in both cases: nothing is undone on a throw. *)
Definition M (A : Type) : Type := state -> state * (thrown + A).

Definition ret {A} (a : A) : M A := fun st => (st, inr a).
Definition throw {A} (e : thrown) : M A := fun st => (st, inl e).

Definition bind {A B} (m : M A) (k : A -> M B) : M B :=
  fun st =>
    match m st with
    | (st', inl e) => (st', inl e)
    | (st', inr a) => k a st'
    end.

(** [try { m } catch (err) { h err }] *)
Definition try_catch (m : M unit) (h : thrown -> M unit) : M unit :=
  fun st =>
    match m st with
    | (st', inl e) => h e st'
    | (st', inr a) => (st', inr a)
    end.

(** [try { m } finally { f }], for an [f] that does not throw. *)
Definition finally (m : M unit) (f : state -> state) : M unit :=
  fun st => let '(st', r) := m st in (f st', r).

(** A synchronous step that may throw. *)
Definition lift {A} (r : thrown + A) : M A := fun st => (st, r).

Definition emit (e : event) : M unit :=
  fun st =>
    (mkState (jobs st) (disk st) (events st ++ [e]) (history st) (seen st), inr tt).

(** The run yields: a status request served now reads this table. *)
Definition suspend : M unit :=
  fun st =>
    (mkState (jobs st) (disk st) (events st) (history st) (seen st ++ [jobs st]),
     inr tt).

(** [job.field = value]: [job] is the object stored in the table, so the
    assignment is an update of the table entry. *)
Definition assign (jobId : string) (f : Job -> Job) : M unit :=
  fun st =>
    let jobs' := alter f jobId (jobs st) in
    (mkState jobs' (disk st) (events st)
       (history st ++ option_list (jobs' !! jobId)) (seen st),
     inr tt).

End Run.

Import Run.

Declare Scope run_scope.
Delimit Scope run_scope with run.
Notation "x <- m ;; k" := (bind m (fun x => k))
  (at level 100, m at next level, right associativity) : run_scope.
Notation "m ;; k" := (bind m (fun _ => k))
  (at level 100, right associativity) : run_scope.

Definition set_status (s : Status) (j : Job) : Job :=
  mkJob (job_id j) s (progress j) (input j) (createdAt j) (error j) (downloadUrl j).
Definition set_progress (n : Z) (j : Job) : Job :=
  mkJob (job_id j) (status j) n (input j) (createdAt j) (error j) (downloadUrl j).
Definition set_error (m : string) (j : Job) : Job :=
  mkJob (job_id j) (status j) (progress j) (input j) (createdAt j) (Some m) (downloadUrl j).
Definition set_downloadUrl (u : string) (j : Job) : Job :=
  mkJob (job_id j) (status j) (progress j) (input j) (createdAt j) (error j) (Some u).

(** ** Generation client and artifact store *)

Section Server.

Variable w : World.

Local Open Scope run_scope.

(** [ensureDir]. The directories themselves are not part of the state: a
    file is its path. What is kept of [fs.existsSync] and [fs.mkdirSync] is
    that the call throws when the directory is missing and cannot be made,
    and changes nothing that the server reads otherwise. *)
Definition ensureDir (dir : string) : M unit :=
  lift (match mkdirSync_error w dir with
        | Some e => inl e
        | None => inr tt
        end).

(** [path.join(a, b)], for segments that need no normalising. *)
Definition path_join (a b : string) : string := a +:+ "/" +:+ b.

(** [path.dirname(p)], for a relative path with a directory part: [p] up
    to its last ["/"]. *)
Fixpoint dirname (p : string) : string :=
  match p with
  | EmptyString => EmptyString
  | String c p' => if Js.includes p' "/" then String c (dirname p') else EmptyString
  end.
#[global] Arguments dirname : simpl never.

Definition writeFileSync (filePath : string) (c : content) : M unit :=
  fun st =>
    match writeFileSync_error w filePath with
    | Some e => (st, inl e)
    | None =>
        (mkState (jobs st) (<[filePath := c]> (disk st))
           (events st ++ [EvWrite filePath]) (history st) (seen st),
         inr tt)
    end.

Definition writeFileSafe (filePath : string) (c : content) : M unit :=
  ensureDir (dirname filePath) ;;
  writeFileSync filePath c.

Definition newline : string := String (ascii_of_nat 10) EmptyString.

(** The error [callOpenAIJson] throws when the reply is not JSON. *)
Definition parse_failed (text : string) : thrown :=
  mkError ("JSON parse failed. First 200 chars:" +:+ newline +:+ Js.slice0 200 text).

(** [callOpenAIJson], asked for the document of stage [s]; [parse] is
    [JSON.parse] read at the type of that document. *)
Definition callOpenAIJson {A} (s : stage) (parse : string -> option A) : M A :=
  emit (EvChat s) ;;
  suspend ;;
  match chat_completions w s with
  | Rejected e => throw e
  | Resolved content =>
      let text := default "" content in
      match parse text with
      | Some v => ret v
      | None => throw (parse_failed text)
      end
  end.

(** [generateEditorialImage], the [n]-th call of the rendering loop. *)
Definition generateEditorialImage (n : nat) (outPath : string) : M unit :=
  emit (EvImage n) ;;
  suspend ;;
  match images_generate w n with
  | Rejected e => throw e
  | Resolved (None | Some EmptyString) =>
      throw (mkError "No image returned from image API")
  | Resolved (Some b64) =>
      ensureDir (dirname outPath) ;;
      writeFileSync outPath (FileImage b64)
  end.

(** ** Prompts

    The prompt texts are configuration and are not modelled; what is kept
    of [promptPlan] is where building it fails: it reads
    [brandContext.campaign.posts_count] without guarding either step. The
    messages are those of V8. The other two prompts only stringify and
    cannot fail. *)
Definition promptPlan (brandContext : option Context) : thrown + unit :=
  match brandContext with
  | None => inl (mkError "Cannot read properties of null (reading 'campaign')")
  | Some c =>
      match campaign c with
      | None =>
          inl (mkError "Cannot read properties of undefined (reading 'posts_count')")
      | Some _ => inr tt
      end
  end.

(** [visualsJson.editorial_visuals || []], which fails on [null]. *)
Definition editorial_visuals_or_empty (visualsJson : option VisualsJson)
  : thrown + list VisualBrief :=
  match visualsJson with
  | None =>
      inl (mkError "Cannot read properties of null (reading 'editorial_visuals')")
  | Some v => inr (default [] (editorial_visuals v))
  end.

(** ** Job runner *)

(** [for (const v of editorialOnly) { await generateEditorialImage(...) }] *)
Fixpoint render_all (editorialDir : string) (n : nat) (vs : list VisualBrief)
  : M unit :=
  match vs with
  | [] => ret tt
  | v :: vs' =>
      let outPath := path_join editorialDir (Js.str (v_id v) +:+ ".png") in
      generateEditorialImage n outPath ;;
      render_all editorialDir (S n) vs'
  end.

Definition output_dir (jobId : string) : string := path_join "outputs" jobId.

(** The [try] block of [runJob]. *)
Definition runJob_try (jobId : string) (job : Job) : M unit :=
  assign jobId (set_status Running) ;;
  assign jobId (set_progress 10) ;;
  let brandContext := input job in
  (* 1) Plan *)
  lift (promptPlan brandContext) ;;
  planJson <- callOpenAIJson PlanStage (JSON_parse_plan w) ;;
  let planJson := applyMixedMode planJson in
  assign jobId (set_progress 35) ;;
  (* 2) Captions *)
  captionsJson <- callOpenAIJson CaptionsStage (JSON_parse_captions w) ;;
  assign jobId (set_progress 55) ;;
  (* 3) Editorial briefs *)
  visualsJson <- callOpenAIJson VisualsStage (JSON_parse_visuals w) ;;
  assign jobId (set_progress 65) ;;
  let brandStyle := makeDefaultBrandStyle brandContext in
  visuals <- lift (editorial_visuals_or_empty visualsJson) ;;
  let editorialVisualsCompiled := map (compiled_visual brandStyle) visuals in
  let posts := posts_of planJson in
  let productPosts :=
    List.filter (fun p => bool_decide (visual_mode p = Some "product_model")) posts in
  let productBriefs :=
    map (fun p => compileProductModelBrief brandStyle p brandContext) productPosts in
  (* 4) Save outputs *)
  let outDir := output_dir jobId in
  ensureDir outDir ;;
  writeFileSafe (path_join outDir "content_plan.json") (FilePlan planJson) ;;
  writeFileSafe (path_join outDir "captions.json") (FileCaptions captionsJson) ;;
  writeFileSafe (path_join outDir "editorial_visuals.json") (FileVisuals visualsJson) ;;
  writeFileSafe (path_join outDir "brand_style.json") (FileBrandStyle brandStyle) ;;
  writeFileSafe (path_join outDir "editorial_visuals_compiled.json")
    (FileCompiled editorialVisualsCompiled) ;;
  writeFileSafe (path_join outDir "product_model_briefs.json")
    (FileProductBriefs productBriefs) ;;
  (* 5) Generate the editorial images *)
  let editorialDir := path_join outDir "Editorial_Posts" in
  ensureDir editorialDir ;;
  let editorialIds : gset (option string) :=
    list_to_set
      (map id (List.filter (fun p => bool_decide (visual_mode p = Some "editorial")) posts)) in
  let editorialOnly :=
    List.filter (fun v => bool_decide (v_id v ∈ editorialIds)) editorialVisualsCompiled in
  assign jobId (set_progress 75) ;;
  render_all editorialDir 0 editorialOnly ;;
  (* Done *)
  assign jobId (set_progress 100) ;;
  assign jobId (set_status Done) ;;
  assign jobId (set_downloadUrl ("/downloads/" +:+ jobId +:+ "/content_plan.json")).

(** The [catch] block. *)
Definition runJob_catch (jobId : string) (err : thrown) : M unit :=
  assign jobId (set_status Error) ;;
  assign jobId (set_error (captured_message err)).

(** The [finally] block: [jobs.set(jobId, job)] stores the object the
    table already holds under that key. *)
Definition runJob_finally (jobId : string) (st : state) : state :=
  match jobs st !! jobId with
  | Some job =>
      mkState (<[jobId := job]> (jobs st)) (disk st) (events st) (history st) (seen st)
  | None => st
  end.

(** [runJob]. The second component is how the promise it returns settles:
    [inr tt] when it fulfils, [inl e] when it rejects with [e]. *)
Definition runJob (jobId : string) : M unit :=
  fun st =>
    match jobs st !! jobId with
    | None => (st, inr tt)
    | Some job =>
        (finally (try_catch (runJob_try jobId job) (runJob_catch jobId))
           (runJob_finally jobId) ;;
         suspend) st
    end.

(** ** Routes *)

Inductive body :=
  | BodyJobId (jobId : string)
  | BodyJob (job : Job)
  | BodyError (error : string).

(** What a route does: its handler answers, or the handler throws, or a
    middleware before it fails, and the answer is left to the framework. *)
Inductive outcome :=
  | Respond (code : nat) (b : body)
  | Uncaught.

(** The status line the client receives: express answers an error that
    the application does not handle with 500. *)
Definition status_code (o : outcome) : nat :=
  match o with
  | Respond code _ => code
  | Uncaught => 500
  end.

(** What reaches [POST /api/jobs] of a request that the middleware of the
    application ([cors], [express.json], the static files) has passed on;
    a JSON body that [express.json] refuses is answered there and never
    gets to the route. [req_files] are the field names of the files of a
    multipart form, one per file, in the order of the form. [req_body] is
    [req.body] as the body parsers leave it: [None] when it is [undefined]
    (no parser took the request), else the [input_json] of that object,
    which is [None] when the object has none. *)
Record Request := mkRequest {
  req_files : list string;
  req_body : option (option string)
}.

(** [upload.array(fieldname, maxCount)]: the files pass when each of them
    is in the field [fieldname] and they are at most [maxCount]. When they
    do not pass, multer hands its error to the framework and the handler
    does not run. Where the files are stored is not modelled. *)
Definition upload_array (fieldname : string) (maxCount : nat) (req : Request) : bool :=
  forallb (fun f => bool_decide (f = fieldname)) (req_files req) &&
  (length (req_files req) <=? maxCount)%nat.

(** [POST /api/jobs]. [jobId] is what [uuidv4()] returns and [now] what
    [Date.now()] returns. Reading [req.body.input_json] throws when
    [req.body] is [undefined]. The run is carried through to its end here;
    the response leaves at its first [await]. *)
Definition submit (jobId : string) (now : Z) (req : Request)
    (st : state) : state * outcome :=
  if negb (upload_array "product_images" 3 req) then (st, Uncaught)
  else
    match req_body req with
    | None => (st, Uncaught)
    | Some input_json =>
        match JSON_parse_input w (Js.or_else input_json "{}") with
        | None => (st, Uncaught)
        | Some input =>
            let job := mkJob jobId Queued 0 input now None None in
            let st1 :=
              mkState (<[jobId := job]> (jobs st)) (disk st) (events st)
                (history st ++ [job]) (seen st) in
            ((runJob jobId st1).1, Respond 200 (BodyJobId jobId))
        end
    end.

(** [GET /api/jobs/:id], read against a job table. *)
Definition getStatus (table : gmap string Job) (id : string) : outcome :=
  match table !! id with
  | None => Respond 404 (BodyError "Not found")
  | Some job => Respond 200 (BodyJob job)
  end.

End Server.

(** ** Concrete plans, worlds and runs *)

Module Examples.

Definition post (i ty tp : string) : Post :=
  mkPost (Some i) (Some ty) (Some tp) (Some "") None.

(** Six posts with distinct identifiers: two promotional ones and one
    educational post with a keyword in its topic. *)
Definition six_posts : list Post :=
  [ post "P01" "educational" "Product basics";
    post "P02" "educational" "Morning routines";
    post "P03" "authority" "Why we source locally";
    post "P04" "relatable" "A slow Sunday";
    post "P05" "promotional" "Spring bundle";
    post "P06" "promotional" "Gift cards" ].

Definition six_plan : option PlanJson :=
  Some (mkPlanJson (Some (mkPlan (Some "2026-03") (Some 6) (Some six_posts)))).

Definition empty_plan : option PlanJson :=
  Some (mkPlanJson (Some (mkPlan (Some "2026-03") (Some 0) (Some [])))).

Definition brief (i : string) : VisualBrief :=
  mkVisualBrief (Some i) (Some "Small steps") None (Some "leaf")
    (Some "headline_top") None None.

Definition six_briefs : option VisualsJson :=
  Some (mkVisualsJson (Some (map brief ["P01"; "P02"; "P03"; "P04"; "P05"; "P06"]))).

Definition good_context : Context :=
  mkContext
    (Some (mkBrand (Some "Stay Contented") (Some "herbal teas")
             (Some (mkBrandVoice (Some "friendly")))))
    (Some (mkCampaign (Some 6) (Some "2026-03")))
    None.

(** A context without any field, as [{}] parses. *)
Definition empty_context : Context := mkContext None None None.

(** [JSON.parse] on the few texts the examples use, as a table. The
    upper-case keys stand for the JSON text of the value beside them;
    ["{}"] is the text itself, and any other text does not parse. *)
Definition parse_table {A} (table : list (string * A)) (s : string) : option A :=
  snd <$> List.find (fun e => bool_decide (fst e = s)) table.

(** Every call succeeds. *)
Definition good_world : World :=
  mkWorld
    (parse_table [("{}", Some empty_context); ("CONTEXT", Some good_context)])
    (parse_table [("PLAN", six_plan)])
    (parse_table [("CAPTIONS", Some (mkCaptionsJson (Some [])))])
    (parse_table [("BRIEFS", six_briefs)])
    (fun s =>
       match s with
       | PlanStage => Resolved (Some "PLAN")
       | CaptionsStage => Resolved (Some "CAPTIONS")
       | VisualsStage => Resolved (Some "BRIEFS")
       end)
    (fun _ => Resolved (Some "aW1hZ2U="))
    (fun _ => None)
    (fun _ => None).

(** As [good_world], but the captions reply is prose instead of JSON. *)
Definition prose_world : World :=
  mkWorld (JSON_parse_input good_world) (JSON_parse_plan good_world)
    (JSON_parse_captions good_world) (JSON_parse_visuals good_world)
    (fun s =>
       match s with
       | CaptionsStage => Resolved (Some "Sure! Here are your captions.")
       | _ => chat_completions good_world s
       end)
    (images_generate good_world) (mkdirSync_error good_world)
    (writeFileSync_error good_world).

(** As [good_world], but the image endpoint fails on its second call. *)
Definition flaky_world : World :=
  mkWorld (JSON_parse_input good_world) (JSON_parse_plan good_world)
    (JSON_parse_captions good_world) (JSON_parse_visuals good_world)
    (chat_completions good_world)
    (fun n =>
       match n with
       | 1%nat => Rejected (mkError "Connection error.")
       | _ => Resolved (Some "aW1hZ2U=")
       end)
    (mkdirSync_error good_world) (writeFileSync_error good_world).

(** A request as the page sends it: a form without files. *)
Definition request (input_json : option string) : Request :=
  mkRequest [] (Some input_json).

Definition good_run : state :=
  (submit good_world "j1" 1700000000000 (request (Some "CONTEXT")) initial_state).1.

Definition flaky_run : state :=
  (submit flaky_world "j1" 1700000000000 (request (Some "CONTEXT")) initial_state).1.

End Examples.

Import Examples.

(** ** Assertions about runs *)

(** The request gets through to the handler, which reads [input] from it:
    its files pass the upload filter, it has a body, and the [input_json]
    of the body (["{}"] when there is none) parses to [input]. *)
Definition admits (w : World) (req : Request) (input : option Context) : Prop :=
  upload_array "product_images" 3 req = true /\
  exists input_json,
    req_body req = Some input_json /\
    JSON_parse_input w (Js.or_else input_json "{}") = Some input.

(** The state in which [runJob] starts for a job that was just stored. *)
Definition stored (jobId : string) (now : Z) (input : option Context) (st : state)
  : state :=
  let job := mkJob jobId Queued 0 input now None None in
  mkState (<[jobId := job]> (jobs st)) (disk st) (events st)
    (history st ++ [job]) (seen st).

(** [triple P m Q E]: from a state in [P], [m] ends in a state in [Q a]
    when it returns [a] and in a state in [E e] when it throws [e]. *)
Definition triple {A} (P : state -> Prop) (m : M A)
    (Q : A -> state -> Prop) (E : thrown -> state -> Prop) : Prop :=
  forall st, P st ->
    match m st with
    | (st', inr a) => Q a st'
    | (st', inl e) => E e st'
    end.

(** An assignment to one field of a job leaves its identifier, its input
    and its creation time as they are. *)
Definition field_setter (f : Job -> Job) : Prop :=
  forall j, job_id (f j) = job_id j /\ input (f j) = input j /\
            createdAt (f j) = createdAt j.

(** [preserves R m]: the state [m] ends in, thrown or not, is related by
    [R] to the state it started from. *)
Definition preserves {A} (R : state -> state -> Prop) (m : M A) : Prop :=
  forall st, R st (m st).1.

(** Files are only added, every file written is there, no job other than
    the one being run is touched, and that one keeps its identifier, its
    input and its creation time. *)
Definition keeps_artifacts (jobId : string) (st st' : state) : Prop :=
  dom (disk st) ⊆ dom (disk st') /\
  (exists ev, events st' = events st ++ ev /\
              forall p, EvWrite p ∈ ev -> p ∈ dom (disk st')) /\
  dom (jobs st') = dom (jobs st) /\
  (forall i, i <> jobId -> jobs st' !! i = jobs st !! i) /\
  (forall j, jobs st !! jobId = Some j ->
     exists j', jobs st' !! jobId = Some j' /\ job_id j' = job_id j /\
                input j' = input j /\ createdAt j' = createdAt j).

(** The steps that are not assignments: the job table and the history stay,
    and the tables seen in between are copies of the table as it is. *)
Definition quiet (st st' : state) : Prop :=
  jobs st' = jobs st /\ history st' = history st /\
  exists n, seen st' = seen st ++ repeat (jobs st) n.

Definition same_events (st st' : state) : Prop := events st' = events st.

(** A sequence of numbers that never goes down. *)
Definition non_decreasing (l : list Z) : Prop :=
  forall i k a b, (i <= k)%nat -> l !! i = Some a -> l !! k = Some b -> a <= b.

Section Assertions.

Variable jobId : string.
(** The logs as they were before the job was created. *)
Variable hprev : list Job.
Variable sprev : list (gmap string Job).

(** The records [js] are what a status request finds in the tables [s]. *)
Definition polled (s : list (gmap string Job)) (js : list Job) : Prop :=
  Forall2 (fun t j => t !! jobId = Some j) s js.

(** What status requests may find while the job runs with progress [c]. *)
Definition seen_running (c : Z) (js : list Job) : Prop :=
  Forall (fun x => status x = Running /\ 0 <= progress x <= c /\ progress x < 100) js /\
  non_decreasing (map progress js).

(** The job has just been created. *)
Definition Created (st : state) : Prop :=
  exists j, jobs st !! jobId = Some j /\ status j = Queued /\ progress j = 0 /\
            history st = hprev ++ [j] /\ seen st = sprev.

(** The job is running with progress [c]; up to here its record went
    from [queued] to [running] and its progress never went down. *)
Definition Running_at (c : Z) (st : state) : Prop :=
  exists j hJ s js n,
    jobs st !! jobId = Some j /\ status j = Running /\ progress j = c /\
    history st = hprev ++ hJ /\
    map status hJ = Queued :: repeat Running (S n) /\
    Forall (fun x => 0 <= progress x <= c) hJ /\
    non_decreasing (map progress hJ) /\
    seen st = sprev ++ s /\ polled s js /\ seen_running c js.

(** The [try] and [catch] blocks are over, with status [t]. *)
Definition Ended (t : Status) (st : state) : Prop :=
  exists j hJ s js n,
    jobs st !! jobId = Some j /\ status j = t /\
    0 <= progress j <= 100 /\ (progress j = 100 <-> t = Done) /\
    history st = hprev ++ hJ /\
    map status hJ = Queued :: repeat Running (S n) ++ [t; t] /\
    Forall (fun x => 0 <= progress x <= progress j) hJ /\
    non_decreasing (map progress hJ) /\
    seen st = sprev ++ s /\ polled s js /\ seen_running (progress j) js.

Definition Failing (e : thrown) (st : state) : Prop :=
  exists c, c <= 75 /\ Running_at c st.

End Assertions.

(** The state when the promise of [runJob] settles: the table is seen once
    more. *)
Definition settle (st : state) : state :=
  mkState (jobs st) (disk st) (events st) (history st) (seen st ++ [jobs st]).

(** The state after a structured call, however it ends. *)
Definition called (s : stage) (st : state) : state :=
  mkState (jobs st) (disk st) (events st ++ [EvChat s]) (history st)
    (seen st ++ [jobs st]).

Section Outcome.

Variable jobId : string.

(** The run of a job is over with status [t]: [hJ] are the records the
    job went through, one per assignment, and [js] the records status
    requests could read, the last of which is the final one. *)
Definition Settled (hprev : list Job) (sprev : list (gmap string Job))
    (t : Status) (st : state) : Prop :=
  exists j hJ s js n,
    jobs st !! jobId = Some j /\ status j = t /\
    history st = hprev ++ hJ /\
    map status hJ = Queued :: repeat Running (S n) ++ [t; t] /\
    Forall (fun x => 0 <= progress x <= 100) hJ /\
    non_decreasing (map progress hJ) /\
    seen st = sprev ++ s /\ polled jobId s js /\
    Forall (fun x => 0 <= progress x <= 100 /\
                     (progress x = 100 <-> status x = Done)) js /\
    non_decreasing (map progress js) /\
    last js = Some j.

End Outcome.

(** The three structured calls, in the order [runJob] makes them. *)
Definition stages : list stage := [PlanStage; CaptionsStage; VisualsStage].

Definition chats : list event := map EvChat stages.

(** The six JSON artifacts, in the order [runJob] writes them. *)
Definition artifact_paths (jobId : string) : list string :=
  map (path_join (output_dir jobId))
    [ "content_plan.json"; "captions.json"; "editorial_visuals.json";
      "brand_style.json"; "editorial_visuals_compiled.json";
      "product_model_briefs.json" ].

(** An event of the rendering loop: an image call, or the write of an image
    into the [Editorial_Posts] directory of the job. *)
Definition rendering_event (jobId : string) (e : event) : Prop :=
  (exists n, e = EvImage n) \/
  (exists name,
     e = EvWrite (path_join (path_join (output_dir jobId) "Editorial_Posts") name)).

Definition defined {A} (o : option A) : bool :=
  match o with Some _ => true | None => false end.

(** The text [callOpenAIJson] reads from the reply of stage [s]. *)
Definition reply_text (w : World) (s : stage) : option string :=
  match chat_completions w s with
  | Resolved content => Some (default "" content)
  | Rejected _ => None
  end.

(** [JSON.parse] at the type of the document of stage [s], as far as its
    success goes. *)
Definition parses (w : World) (s : stage) (text : string) : bool :=
  match s with
  | PlanStage => defined (JSON_parse_plan w text)
  | CaptionsStage => defined (JSON_parse_captions w text)
  | VisualsStage => defined (JSON_parse_visuals w text)
  end.

(** The call of stage [s] returns a document. *)
Definition stage_succeeds (w : World) (s : stage) : Prop :=
  exists text, reply_text w s = Some text /\ parses w s text = true.

(** The first [n] structured calls return a document each. *)
Definition succeeded (w : World) (n : nat) : Prop :=
  Forall (stage_succeeds w) (take n stages).

(** The events of a run so far: [k] structured calls, then [m] artifacts,
    then the rendering events [imgs]. *)
Definition Trace (jobId : string) (e0 : list event) (k m : nat) (imgs : list event)
    (st : state) : Prop :=
  events st =
    e0 ++ take k chats ++ take m (map EvWrite (artifact_paths jobId)) ++ imgs /\
  Forall (rendering_event jobId) imgs.

(** The [k] calls made so far have all returned a document. *)
Definition Traced (w : World) (jobId : string) (e0 : list event) (k m : nat)
    (imgs : list event) (st : state) : Prop :=
  Trace jobId e0 k m imgs st /\ succeeded w k.

(** Every call but the last one made has returned a document; no artifact
    before the third call has, no image before the sixth artifact. *)
Definition Ordered (w : World) (jobId : string) (e0 : list event) (st : state) : Prop :=
  exists k m imgs,
    Trace jobId e0 k m imgs st /\
    (k <= 3)%nat /\ (m <= 6)%nat /\
    succeeded w (k - 1) /\
    ((0 < m)%nat -> succeeded w 3) /\
    ((k < 3)%nat -> m = 0%nat) /\ ((m < 6)%nat -> imgs = []).

Section Progress.

Variable w : World.
Variable jobId : string.
Variable e0 : list event.

(** The artifacts are written; the rendering loop has run for a while. *)
Definition Rendering (st : state) : Prop :=
  exists imgs, Traced w jobId e0 3 6 imgs st.

End Progress.

(** The claim about the stages, on the events of a run: a call of stage
    [s] is made only after [path] has been written. *)
Definition begins_after_write (s : stage) (path : string) (evs : list event) : Prop :=
  forall i, evs !! i = Some (EvChat s) ->
  exists k, (k < i)%nat /\ evs !! k = Some (EvWrite path).

(** The reply of stage [s] arrives with the text [text], which is not JSON. *)
Definition malformed (w : World) (s : stage) (text : string) : Prop :=
  reply_text w s = Some text /\ parses w s text = false.

Definition earlier (s : stage) : list stage :=
  match s with
  | PlanStage => []
  | CaptionsStage => [PlanStage]
  | VisualsStage => [PlanStage; CaptionsStage]
  end.

(** The run gets as far as the call of stage [s]. *)
Definition reaches (w : World) (brandContext : option Context) (s : stage) : Prop :=
  promptPlan brandContext = inr tt /\ Forall (stage_succeeds w) (earlier s).

Definition parse_failed_message (text : string) : string :=
  "JSON parse failed. First 200 chars:" +:+ newline +:+ Js.slice0 200 text.

(** ** More of the server, for the properties beyond the design document *)

(** What mode allocation reads of a post. *)
Definition post_key (p : Post) : option string * option string * option string * option string :=
  (id p, post_type p, topic p, angle p).

(** A string of lowercase letters, digits and dashes in which no dash
    follows a dash ([after_dash] says whether one has just been read). *)
Fixpoint runs_ok (after_dash : bool) (s : string) : bool :=
  match s with
  | EmptyString => true
  | String c s' =>
      if is_slug_char c then runs_ok false s'
      else if Ascii.eqb c "-" then negb after_dash && runs_ok true s'
      else false
  end.

(** The same, and the string does not end on a dash. *)
Fixpoint slug_from (after_dash : bool) (s : string) : bool :=
  match s with
  | EmptyString => negb after_dash
  | String c s' =>
      if is_slug_char c then slug_from false s'
      else if Ascii.eqb c "-" then negb after_dash && slug_from true s'
      else false
  end.

(** A slug: empty, or groups of lowercase letters and digits separated by
    single dashes, as [/^[a-z0-9]+(-[a-z0-9]+)*$/] accepts. *)
Definition is_slug (s : string) : bool :=
  match s with
  | EmptyString => true
  | _ => slug_from true s
  end.

(** ** The run of a job, step by step *)

(** [files], written onto [d] one after the other. *)
Definition write_all (files : list (string * content)) (d : gmap string content)
  : gmap string content :=
  foldl (fun d f => <[f.1 := f.2]> d) d files.

(** [path.join(editorialDir, `${v.id}.png`)] *)
Definition image_path (jobId : string) (v : VisualBrief) : string :=
  path_join (path_join (output_dir jobId) "Editorial_Posts") (Js.str (v_id v) +:+ ".png").

(** The image the [n]-th call of the rendering loop returns, [""] when it
    returns none. *)
Definition returned_image (w : World) (n : nat) : string :=
  match images_generate w n with
  | Resolved (Some b64) => b64
  | _ => ""
  end.

(** The files and the events of a rendering loop that runs to its end. *)
Fixpoint image_files (w : World) (jobId : string) (n : nat) (vs : list VisualBrief)
  : list (string * content) :=
  match vs with
  | [] => []
  | v :: vs' =>
      (image_path jobId v, FileImage (returned_image w n)) :: image_files w jobId (S n) vs'
  end.

Fixpoint render_events (jobId : string) (n : nat) (vs : list VisualBrief) : list event :=
  match vs with
  | [] => []
  | v :: vs' => EvImage n :: EvWrite (image_path jobId v) :: render_events jobId (S n) vs'
  end.

(** What [runJob] computes from the documents, under the names it gives
    them. [planJson] is the plan after mode allocation, [visuals] is
    [visualsJson.editorial_visuals || []]. *)
Definition editorialVisualsCompiled (brandContext : option Context)
    (visuals : list VisualBrief) : list VisualBrief :=
  map (compiled_visual (makeDefaultBrandStyle brandContext)) visuals.

Definition productPosts (planJson : option PlanJson) : list Post :=
  List.filter (fun p => bool_decide (visual_mode p = Some "product_model"))
    (posts_of planJson).

Definition productBriefs (brandContext : option Context) (planJson : option PlanJson)
  : list ProductBrief :=
  map (fun p => compileProductModelBrief (makeDefaultBrandStyle brandContext) p brandContext)
    (productPosts planJson).

Definition editorialIds (planJson : option PlanJson) : gset (option string) :=
  list_to_set
    (map id (List.filter (fun p => bool_decide (visual_mode p = Some "editorial"))
               (posts_of planJson))).

Definition editorialOnly (brandContext : option Context) (planJson : option PlanJson)
    (visuals : list VisualBrief) : list VisualBrief :=
  List.filter (fun v => bool_decide (v_id v ∈ editorialIds planJson))
    (editorialVisualsCompiled brandContext visuals).

(** The six JSON artifacts with what they hold, in the order of the writes. *)
Definition artifact_files (jobId : string) (brandContext : option Context)
    (planJson : option PlanJson) (captionsJson : option CaptionsJson)
    (visualsJson : option VisualsJson) (visuals : list VisualBrief)
  : list (string * content) :=
  let outDir := output_dir jobId in
  [ (path_join outDir "content_plan.json", FilePlan planJson);
    (path_join outDir "captions.json", FileCaptions captionsJson);
    (path_join outDir "editorial_visuals.json", FileVisuals visualsJson);
    (path_join outDir "brand_style.json", FileBrandStyle (makeDefaultBrandStyle brandContext));
    (path_join outDir "editorial_visuals_compiled.json",
     FileCompiled (editorialVisualsCompiled brandContext visuals));
    (path_join outDir "product_model_briefs.json",
     FileProductBriefs (productBriefs brandContext planJson)) ].

(** The call of stage [s] returns the document [v]. *)
Definition returns {A} (w : World) (s : stage) (parse : string -> option A) (v : A) : Prop :=
  exists text, reply_text w s = Some text /\ parse text = Some v.

(** The record of a job that runs, at progress [c], and of one that is done. *)
Definition running_with (c : Z) (job : Job) : Job :=
  set_progress c (set_status Running job).

Definition done_job (jobId : string) (job : Job) : Job :=
  mkJob (job_id job) Done 100 (input job) (createdAt job) (error job)
    (Some ("/downloads/" +:+ jobId +:+ "/content_plan.json")).

(** Since the state [st0] the run has brought the record of the job to
    [j], written [files] and caused the events [ev]. *)
Definition Checkpoint (jobId : string) (st0 : state) (j : Job)
    (files : list (string * content)) (ev : list event) (st : state) : Prop :=
  jobs st !! jobId = Some j /\
  disk st = write_all files (disk st0) /\
  events st = events st0 ++ ev.

(** The call of stage [s] throws [e]: the request is rejected with [e], or
    the reply is not JSON and [e] is the parse error. *)
Definition call_fails (w : World) (s : stage) (e : thrown) : Prop :=
  chat_completions w s = Rejected e \/
  exists text, malformed w s text /\ e = parse_failed text.

(** The progress of the job while the call of stage [s] is awaited. *)
Definition stage_progress (s : stage) : Z :=
  match s with
  | PlanStage => 10
  | CaptionsStage => 35
  | VisualsStage => 55
  end.

(** The record of a job that failed at progress [c] with the message [m]. *)
Definition failed_job (c : Z) (m : string) (job : Job) : Job :=
  mkJob (job_id job) Error c (input job) (createdAt job) (Some m) (downloadUrl job).

(** What [writeFileSafe(filePath, _)] throws, if anything: the directory of
    the file cannot be made, or the file cannot be written. *)
Definition write_error (w : World) (filePath : string) : option thrown :=
  match mkdirSync_error w (dirname filePath) with
  | Some e => Some e
  | None => writeFileSync_error w filePath
  end.

(** What makes the [n]-th step of the rendering loop throw, if anything:
    the image call is rejected, it returns no image, or the image cannot
    be written to [outPath]. *)
Definition image_failure (w : World) (n : nat) (outPath : string) : option thrown :=
  match images_generate w n with
  | Rejected e => Some e
  | Resolved (None | Some EmptyString) => Some (mkError "No image returned from image API")
  | Resolved (Some _) => write_error w outPath
  end.

(** The three calls return documents and the briefs can be read: the run
    gets as far as saving, [files] are the six artifacts it is about to
    write and [rendered] the briefs it is about to render. *)
Definition compiles (w : World) (jobId : string) (job : Job)
    (files : list (string * content)) (rendered : list VisualBrief) : Prop :=
  exists planJson captionsJson visualsJson visuals,
    promptPlan (input job) = inr tt /\
    returns w PlanStage (JSON_parse_plan w) planJson /\
    returns w CaptionsStage (JSON_parse_captions w) captionsJson /\
    returns w VisualsStage (JSON_parse_visuals w) visualsJson /\
    editorial_visuals_or_empty visualsJson = inr visuals /\
    files = artifact_files jobId (input job) (applyMixedMode planJson) captionsJson
              visualsJson visuals /\
    rendered = editorialOnly (input job) (applyMixedMode planJson) visuals.

(** The output directory can be made and every one of [files] written. *)
Definition saves (w : World) (jobId : string) (files : list (string * content)) : Prop :=
  mkdirSync_error w (output_dir jobId) = None /\
  Forall (fun f => write_error w f.1 = None) files.

(** The ways a run fails, told by the world it runs in:
    [stops w jobId job e c ev files] when the first step that throws
    throws [e], with the job at progress [c], after the events [ev] and
    the writes of [files]. *)
Inductive stops (w : World) (jobId : string) (job : Job)
  : thrown -> Z -> list event -> list (string * content) -> Prop :=
  | stops_at_prompt e :
      promptPlan (input job) = inl e ->
      stops w jobId job e 10 [] []
  | stops_at_call s e :
      reaches w (input job) s ->
      call_fails w s e ->
      stops w jobId job e (stage_progress s) (map EvChat (earlier s ++ [s])) []
  | stops_at_briefs visualsJson e :
      reaches w (input job) VisualsStage ->
      returns w VisualsStage (JSON_parse_visuals w) visualsJson ->
      editorial_visuals_or_empty visualsJson = inl e ->
      stops w jobId job e 65 chats []
  | stops_at_output_dir files rendered e :
      compiles w jobId job files rendered ->
      mkdirSync_error w (output_dir jobId) = Some e ->
      stops w jobId job e 65 chats []
  | stops_at_write files rendered i f e :
      compiles w jobId job files rendered ->
      saves w jobId (take i files) ->
      files !! i = Some f ->
      write_error w f.1 = Some e ->
      stops w jobId job e 65
        (chats ++ take i (map EvWrite (artifact_paths jobId))) (take i files)
  | stops_at_editorial_dir files rendered e :
      compiles w jobId job files rendered ->
      saves w jobId files ->
      mkdirSync_error w (path_join (output_dir jobId) "Editorial_Posts") = Some e ->
      stops w jobId job e 65 (chats ++ map EvWrite (artifact_paths jobId)) files
  | stops_at_image files rendered i v e :
      compiles w jobId job files rendered ->
      saves w jobId files ->
      mkdirSync_error w (path_join (output_dir jobId) "Editorial_Posts") = None ->
      rendered !! i = Some v ->
      (forall k u, (k < i)%nat -> rendered !! k = Some u ->
         image_failure w k (image_path jobId u) = None) ->
      image_failure w i (image_path jobId v) = Some e ->
      stops w jobId job e 75
        (chats ++ map EvWrite (artifact_paths jobId) ++
         render_events jobId 0 (take i rendered) ++ [EvImage i])
        (files ++ image_files w jobId 0 (take i rendered)).

(** Where a run that stops at progress [c] has got to: [k] structured
    calls made, [m] artifacts written. *)
Definition checkpoint_of (c : Z) (k m : nat) : Prop :=
  (c = 10 /\ (k <= 1)%nat /\ m = 0%nat) \/
  (c = 35 /\ k = 2%nat /\ m = 0%nat) \/
  (c = 55 /\ k = 3%nat /\ m = 0%nat) \/
  (c = 65 /\ k = 3%nat /\ (m <= 6)%nat) \/
  (c = 75 /\ k = 3%nat /\ m = 6%nat).

(** The [try] block has thrown [e]. *)
Definition Stopped (w : World) (jobId : string) (st0 : state) (job : Job)
    (e : thrown) (st : state) : Prop :=
  exists c ev files,
    stops w jobId job e c ev files /\
    Checkpoint jobId st0 (running_with c job) files ev st.

(** The [try] block has run to its end. *)
Definition Delivered (w : World) (jobId : string) (st0 : state) (job : Job)
    (st : state) : Prop :=
  exists files rendered,
    compiles w jobId job files rendered /\
    saves w jobId files /\
    mkdirSync_error w (path_join (output_dir jobId) "Editorial_Posts") = None /\
    (forall i v, rendered !! i = Some v ->
       image_failure w i (image_path jobId v) = None) /\
    Checkpoint jobId st0 (done_job jobId job)
      (files ++ image_files w jobId 0 rendered)
      (chats ++ map EvWrite (artifact_paths jobId) ++ render_events jobId 0 rendered) st.

(** [s] without the prefix [p], when it starts with it. *)
Fixpoint strip_prefix (p s : string) : option string :=
  match p, s with
  | EmptyString, _ => Some s
  | String a p', String b s' => if Ascii.eqb a b then strip_prefix p' s' else None
  | String _ _, EmptyString => None
  end.

(** [app.use("/downloads", express.static("outputs"))]: the file a
    download URL is served from, for a URL that needs no decoding and no
    normalising. *)
Definition served_file (url : string) : option string :=
  path_join "outputs" <$> strip_prefix "/downloads/" url.

(** As [good_world], but the document of the briefs is [null]. *)
Definition null_briefs_world : World :=
  mkWorld (JSON_parse_input good_world) (JSON_parse_plan good_world)
    (JSON_parse_captions good_world) (parse_table [("null", None)])
    (fun s =>
       match s with
       | VisualsStage => Resolved (Some "null")
       | _ => chat_completions good_world s
       end)
    (images_generate good_world) (mkdirSync_error good_world)
    (writeFileSync_error good_world).

(** As [good_world], but the directory of the images of job [j1] cannot
    be made. *)
Definition closed_dir_world : World :=
  mkWorld (JSON_parse_input good_world) (JSON_parse_plan good_world)
    (JSON_parse_captions good_world) (JSON_parse_visuals good_world)
    (chat_completions good_world) (images_generate good_world)
    (fun dir =>
       if bool_decide (dir = "outputs/j1/Editorial_Posts")
       then Some (mkError "EACCES: permission denied, mkdir 'outputs/j1/Editorial_Posts'")
       else None)
    (writeFileSync_error good_world).

(** As [good_world], but the captions of job [j1] cannot be written. *)
Definition full_disk_world : World :=
  mkWorld (JSON_parse_input good_world) (JSON_parse_plan good_world)
    (JSON_parse_captions good_world) (JSON_parse_visuals good_world)
    (chat_completions good_world) (images_generate good_world)
    (mkdirSync_error good_world)
    (fun p =>
       if bool_decide (p = "outputs/j1/captions.json")
       then Some (mkError "ENOSPC: no space left on device, write")
       else None).

(** ** The page that follows a job *)

(** What a request of the page comes back with: the answer of the server,
    or no answer at all ([fetch] rejects). *)
Inductive answer :=
  | Unreachable
  | Answer (o : outcome).

(** What [showStatus] puts on the page, the wording apart. *)
Inductive shown :=
  | ShownStatus (status : string) (progress : option Z)
  | ShownError (error : string)
  | ShownDone (links : list string)
  | ShownLookupFailed (code : nat)
  | ShownNetworkError.

(** How far [pollJob] is after the answers it was given: it has returned,
    its promise is rejected, or it is waiting to ask again. *)
Inductive poll_end := Returned | Threw | Polling.

(** The fields the page reads of a parsed body. *)
Definition body_job (b : body) : option Job :=
  match b with
  | BodyJob job => Some job
  | _ => None
  end.

Definition read_status (b : body) : option string :=
  (fun job => status_name (status job)) <$> body_job b.

Definition read_progress (b : body) : option Z := progress <$> body_job b.

Definition read_error (b : body) : option string :=
  match b with
  | BodyJob job => error job
  | BodyError e => Some e
  | BodyJobId _ => None
  end.

Definition read_downloadUrl (b : body) : option string :=
  match b with
  | BodyJob job => downloadUrl job
  | _ => None
  end.

(** The three branches of the loop body that both pages share; [links]
    are the links shown for a job that is done. *)
Definition show_job (links : list string) (b : body) : shown * bool :=
  if bool_decide (read_status b = Some "error")
  then (ShownError (Js.str (read_error b)), true)
  else if bool_decide (read_status b = Some "done")
  then (ShownDone links, true)
  else (ShownStatus (Js.str (read_status b)) (read_progress b), false).

(** [public/app.js] *)
Module Public.

(** [pollJob], run on the answers to its successive requests. An answer
    that is not JSON (the error page of the framework) makes [res.json()]
    reject, and with it [pollJob]. *)
Fixpoint pollJob (answers : list answer) : list shown * poll_end :=
  match answers with
  | [] => ([], Polling)
  | Unreachable :: _ => ([], Threw)
  | Answer Uncaught :: _ => ([], Threw)
  | Answer (Respond _ b) :: rest =>
      let '(s, stop) := show_job [Js.str (read_downloadUrl b)] b in
      if stop then ([s], Returned)
      else let '(later, e) := pollJob rest in (s :: later, e)
  end.

End Public.

(** The later page, [unnamed/part_000]. *)
Module Unnamed.

(** [res.ok] *)
Definition ok (o : outcome) : bool :=
  (200 <=? status_code o)%nat && (status_code o <=? 299)%nat.

(** The links of the page for a job that is done. *)
Definition done_links (jobId : string) : list string :=
  [ "/downloads/" +:+ jobId +:+ ".zip";
    "/downloads/" +:+ jobId +:+ "/content_plan.json";
    "/downloads/" +:+ jobId +:+ "/captions.json";
    "/downloads/" +:+ jobId +:+ "/editorial_visuals.json";
    "/downloads/" +:+ jobId +:+ "/editorial_visuals_compiled.json";
    "/downloads/" +:+ jobId +:+ "/product_model_briefs.json";
    "/downloads/" +:+ jobId +:+ "/Editorial_Posts/" ].

Fixpoint pollJob (jobId : string) (answers : list answer) : list shown * poll_end :=
  match answers with
  | [] => ([], Polling)
  | Unreachable :: _ => ([ShownNetworkError], Returned)
  | Answer o :: rest =>
      if negb (ok o) then ([ShownLookupFailed (status_code o)], Returned)
      else
        match o with
        | Uncaught => ([], Threw)
        | Respond _ b =>
            let '(s, stop) := show_job (done_links jobId) b in
            if stop then ([s], Returned)
            else let '(later, e) := pollJob jobId rest in (s :: later, e)
        end
  end.

End Unnamed.

(** The answers to status requests for [jobId] served from [tables]. *)
Definition status_answers (jobId : string) (tables : list (gmap string Job))
  : list answer :=
  map (fun table => Answer (getStatus table jobId)) tables.

(** What the pages show for a job that is on its way, and for one that
    has ended. *)
Definition shown_running (job : Job) : shown :=
  ShownStatus (status_name (status job)) (Some (progress job)).

Definition shown_ended (links : list string) (job : Job) : shown :=
  match status job with
  | Error => ShownError (Js.str (error job))
  | _ => ShownDone links
  end.

(** ** The form of the page *)

(** The fields of the form that reach the server's model of the campaign
    context, as [data.get] returns them: [None] is the [null] of a field
    that is not there. *)
Record FormData := mkFormData {
  get_brandName : option string;
  get_offerSummary : option string;
  get_tone : option string;
  get_month : option string;
  get_postsCount : option string
}.

(** The [input] object the submit handler builds, as the server reads it
    after [JSON.stringify] and [JSON.parse]. [Number] is the conversion of
    the posts count, which is not modelled. *)
Definition form_input (Number : option string -> option Z) (data : FormData) : Context :=
  mkContext
    (Some (mkBrand (get_brandName data) (get_offerSummary data)
             (Some (mkBrandVoice (get_tone data)))))
    (Some (mkCampaign (Number (get_postsCount data)) (get_month data)))
    (Some (mkProductMode (Some []))).

(** * Properties *)

(** ** The embedding on small inputs *)

Example toLowerCase_ascii : Js.toLowerCase "PRoduCT-1" = "product-1".
Proof. reflexivity. Qed.

Example includes_substring :
  Js.includes "new product launch" "launch" = true /\
  Js.includes "abc" "" = true /\ Js.includes "" "a" = false.
Proof. repeat split; reflexivity. Qed.

Example keyword_in_upper_case :
  is_productish (post "P01" "educational" "Our OFFER") = true /\
  is_productish (mkPost (Some "P02") None None None None) = false.
Proof. split; reflexivity. Qed.

Example slugify_brand :
  slugify (Some "Stay Contented!") = "stay-contented" /\
  slugify (Some "--A  b--") = "a-b" /\
  slugify None = "brand".
Proof. repeat split; reflexivity. Qed.

Example friendly_style :
  mood (makeDefaultBrandStyle (Some good_context)) = "clean, friendly, confident" /\
  mood (makeDefaultBrandStyle None) = "clean, calm, premium".
Proof. split; reflexivity. Qed.

Example product_focus_falls_back :
  product_focus
    (compileProductModelBrief (makeDefaultBrandStyle (Some good_context))
       (post "P05" "promotional" "Spring bundle") (Some good_context)) = "herbal teas" /\
  product_focus
    (compileProductModelBrief (makeDefaultBrandStyle None)
       (post "P05" "promotional" "Spring bundle") None) = "the product".
Proof. split; reflexivity. Qed.

(** A run where every call succeeds renders the three posts tagged
    [editorial] and ends [done]. *)
Example good_run_events :
  events good_run =
    [ EvChat PlanStage; EvChat CaptionsStage; EvChat VisualsStage;
      EvWrite "outputs/j1/content_plan.json";
      EvWrite "outputs/j1/captions.json";
      EvWrite "outputs/j1/editorial_visuals.json";
      EvWrite "outputs/j1/brand_style.json";
      EvWrite "outputs/j1/editorial_visuals_compiled.json";
      EvWrite "outputs/j1/product_model_briefs.json";
      EvImage 0; EvWrite "outputs/j1/Editorial_Posts/P02.png";
      EvImage 1; EvWrite "outputs/j1/Editorial_Posts/P03.png";
      EvImage 2; EvWrite "outputs/j1/Editorial_Posts/P04.png" ] /\
  (fun j => (status j, progress j, downloadUrl j)) <$> jobs good_run !! "j1" =
    Some (Done, 100, Some "/downloads/j1/content_plan.json").
Proof. split; vm_compute; reflexivity. Qed.

(** A run whose second image call is rejected keeps what it wrote. *)
Example flaky_run_events :
  drop 9 (events flaky_run) =
    [ EvImage 0; EvWrite "outputs/j1/Editorial_Posts/P02.png"; EvImage 1 ] /\
  size (disk flaky_run) = 7%nat /\
  (fun j => (status j, progress j, error j)) <$> jobs flaky_run !! "j1" =
    Some (Error, 75, Some "Connection error.").
Proof. repeat split; vm_compute; reflexivity. Qed.


(** ** Mode allocation *)

Section MixedModeFacts.

Implicit Types (ps src ch : list Post) (ids : gset (option string)).

Lemma filter_map_keeps {A} (f : A -> bool) (g : A -> A) (l : list A) :
  (forall x, f (g x) = f x) ->
  List.filter f (map g l) = map g (List.filter f l).
Proof.
  intros Hfg. induction l as [|x l IH]; simpl; [reflexivity|].
  rewrite Hfg, IH. destruct (f x); reflexivity.
Qed.

Lemma push_all_app ch src : push_all ch src = ch ++ src.
Proof.
  unfold push_all. revert ch.
  induction src as [|p src IH]; intros ch; simpl.
  - symmetry. apply app_nil_r.
  - rewrite IH, <- app_assoc. reflexivity.
Qed.

(** The guarded loop pushes a prefix of its source: as many posts as
    [chosen] lacks to reach four. *)
Lemma push_below_4_take ch src :
  push_below_4 ch src = ch ++ take (4 - length ch) src.
Proof.
  unfold push_below_4. revert ch.
  induction src as [|p src IH]; intros ch; simpl.
  - rewrite take_nil. symmetry. apply app_nil_r.
  - destruct (Nat.ltb_spec (length ch) 4) as [Hlt|Hge].
    + rewrite IH, length_app, <- app_assoc. simpl.
      replace (4 - length ch)%nat with (S (4 - (length ch + 1)))%nat by lia.
      reflexivity.
    + rewrite IH. replace (4 - length ch)%nat with 0%nat by lia. reflexivity.
Qed.

Lemma take_take_app {A} (n : nat) (l2 l3 : list A) :
  take n (take n l2 ++ l3) = take n (l2 ++ l3).
Proof.
  revert n. induction l2 as [|x l2 IH]; intros n; simpl.
  - rewrite take_nil. reflexivity.
  - destruct n as [|n]; simpl; [reflexivity|]. rewrite IH. reflexivity.
Qed.

Lemma take_app_take {A} (n : nat) (l1 l2 l3 : list A) :
  take n (l1 ++ take (n - length l1) l2 ++ l3) = take n (l1 ++ l2 ++ l3).
Proof.
  revert n. induction l1 as [|x l1 IH]; intros n; simpl.
  - rewrite Nat.sub_0_r. apply take_take_app.
  - destruct n as [|n]; simpl; [reflexivity|]. rewrite IH. reflexivity.
Qed.

(** What the three loops and the slice amount to: the first four entries
    of the promotional posts, then the keyword posts, then all
    non-promotional posts, the keyword posts among them a second time. *)
Lemma chosen_take_4 ps :
  take 4 (chosen ps) =
  take 4 (List.filter is_promotional ps ++
          List.filter is_productish
            (List.filter (fun p => negb (is_promotional p)) ps) ++
          List.filter (fun p => negb (is_promotional p)) ps).
Proof.
  unfold chosen. rewrite push_all_app. simpl.
  rewrite !push_below_4_take.
  set (promo := List.filter is_promotional ps).
  set (remaining := List.filter (fun p => negb (is_promotional p)) ps).
  set (productish := List.filter is_productish remaining).
  set (c1 := promo ++ take (4 - length promo) productish).
  pose proof (take_app_take 4 c1 remaining []) as H.
  rewrite !app_nil_r in H. rewrite H. unfold c1.
  rewrite <- app_assoc. apply take_app_take.
Qed.

Lemma tag_id ids p : id (tag ids p) = id p.
Proof. reflexivity. Qed.

Lemma tag_is_promotional ids p : is_promotional (tag ids p) = is_promotional p.
Proof. reflexivity. Qed.

Lemma tag_is_productish ids p : is_productish (tag ids p) = is_productish p.
Proof. reflexivity. Qed.

Lemma tag_tag ids p : tag ids (tag ids p) = tag ids p.
Proof. reflexivity. Qed.

Lemma push_below_4_map (g : Post -> Post) ch src :
  push_below_4 (map g ch) (map g src) = map g (push_below_4 ch src).
Proof.
  rewrite !push_below_4_take, length_map, map_app, firstn_map. reflexivity.
Qed.

(** Tagging changes nothing the allocation reads. *)
Lemma chosen_tagged ids ps : chosen (map (tag ids) ps) = map (tag ids) (chosen ps).
Proof.
  unfold chosen.
  rewrite !(filter_map_keeps _ (tag ids)) by reflexivity.
  rewrite !push_all_app. simpl.
  rewrite !push_below_4_map. reflexivity.
Qed.

Lemma chosenIds_tagged ids ps : chosenIds (map (tag ids) ps) = chosenIds ps.
Proof.
  unfold chosenIds. rewrite chosen_tagged, <- firstn_map, map_map.
  rewrite firstn_map. reflexivity.
Qed.

Lemma posts_of_with_posts planJson ps :
  posts_of planJson <> [] -> posts_of (with_posts planJson ps) = ps.
Proof.
  destruct planJson as [[[[m c [qs|]]|]]|]; cbn; congruence.
Qed.

Lemma with_posts_with_posts planJson ps qs :
  with_posts (with_posts planJson ps) qs = with_posts planJson qs.
Proof.
  destruct planJson as [[[[m c [rs|]]|]]|]; reflexivity.
Qed.

(** On a plan with posts, the posts of the result are the tagged posts. *)
Lemma posts_of_applyMixedMode planJson :
  posts_of (applyMixedMode planJson) =
  map (tag (chosenIds (posts_of planJson))) (posts_of planJson).
Proof.
  unfold applyMixedMode.
  destruct (posts_of planJson) as [|p ps] eqn:E; simpl.
  - exact E.
  - apply posts_of_with_posts. rewrite E. discriminate.
Qed.

(** Every post of a tagged plan carries one of the two modes. *)
Lemma applyMixedMode_tags_every_post planJson p :
  p ∈ posts_of (applyMixedMode planJson) ->
  posts_of planJson <> [] ->
  visual_mode p = Some "product_model" \/ visual_mode p = Some "editorial".
Proof.
  rewrite posts_of_applyMixedMode. intros Hin _.
  apply list_elem_of_In, in_map_iff in Hin as (q & <- & _).
  unfold tag. simpl. case_bool_decide; auto.
Qed.

Lemma count_mode_product_tagged ids ps :
  count_mode "product_model" (map (tag ids) ps) =
  length (List.filter (fun p => bool_decide (id p ∈ ids)) ps).
Proof.
  unfold count_mode.
  induction ps as [|p ps IH]; simpl; [reflexivity|].
  destruct (bool_decide (id p ∈ ids)); simpl; rewrite <- IH; reflexivity.
Qed.

Lemma length_filter_in_set ids (l : list (option string)) :
  NoDup l -> Forall (fun x => x ∈ ids) l -> (length l <= size ids)%nat.
Proof.
  intros Hnd Hall.
  rewrite <- (size_list_to_set (C := gset (option string)) l Hnd).
  apply subseteq_size. intros x Hx. apply elem_of_list_to_set in Hx.
  rewrite Forall_forall in Hall. auto.
Qed.

Lemma size_list_to_set_le (l : list (option string)) :
  (size (list_to_set (C := gset (option string)) l) <= length l)%nat.
Proof.
  induction l as [|x l IH].
  - rewrite list_to_set_nil, size_empty. simpl. lia.
  - rewrite list_to_set_cons, size_union_alt, size_singleton. simpl.
    assert (list_to_set l ∖ {[x]} ⊆ (list_to_set l : gset (option string)))
      as Hsub by (intros y [Hy _]%elem_of_difference; exact Hy).
    apply subseteq_size in Hsub. lia.
Qed.

(** With distinct identifiers the product set never exceeds four posts. *)
Lemma at_most_four_product_posts planJson :
  NoDup (map id (posts_of planJson)) ->
  (count_mode "product_model" (posts_of (applyMixedMode planJson)) <= 4)%nat.
Proof.
  intros Hnd. rewrite posts_of_applyMixedMode, count_mode_product_tagged.
  set (ps := posts_of planJson) in *.
  set (ids := chosenIds ps).
  rewrite <- (length_map id).
  etransitivity.
  - apply (length_filter_in_set ids).
    + clearbody ids. clear -Hnd.
      induction ps as [|p ps IH]; simpl in *; [constructor|].
      apply NoDup_cons in Hnd as [Hp Hnd].
      destruct (bool_decide (id p ∈ ids)); simpl; [|auto].
      apply NoDup_cons. split; [|auto].
      intros Hin. apply Hp.
      apply list_elem_of_In, in_map_iff in Hin as (q & Hq & Hin).
      apply filter_In in Hin as [Hin _].
      apply list_elem_of_In, in_map_iff. eauto.
    + apply Forall_forall. intros x Hx.
      apply list_elem_of_In, in_map_iff in Hx as (q & <- & Hin).
      apply filter_In in Hin as [_ Hin]. apply bool_decide_eq_true in Hin. exact Hin.
  - unfold ids, chosenIds.
    etransitivity; [apply size_list_to_set_le|].
    rewrite length_map, length_take. lia.
Qed.

Lemma filter_filter_andb {A} (f g : A -> bool) (l : list A) :
  List.filter f (List.filter g l) = List.filter (fun x => g x && f x) l.
Proof.
  induction l as [|x l IH]; simpl; [reflexivity|].
  destruct (g x); simpl; [destruct (f x)|]; rewrite IH; reflexivity.
Qed.

Lemma filter_none_filter_negb {A} (f g : A -> bool) (l : list A) :
  List.filter (fun x => g x && f x) l = [] ->
  List.filter (fun x => g x && negb (f x)) l = List.filter g l.
Proof.
  induction l as [|x l IH]; simpl; [reflexivity|].
  destruct (g x), (f x); simpl; intros H; try discriminate;
    rewrite IH by exact H; reflexivity.
Qed.

Lemma take_app_long {A} (n : nat) (l1 l2 l3 : list A) :
  (n <= length l1)%nat -> take n (l1 ++ l2) = take n (l1 ++ l3).
Proof. intros H. rewrite !take_app_le by exact H. reflexivity. Qed.

(** Where the code and the worded order agree: when no non-promotional
    post has a keyword, and when promotional and keyword posts already
    fill the four places. *)
Lemma chosenIds_without_keywords ps :
  List.filter is_productish (List.filter (fun p => negb (is_promotional p)) ps) = [] ->
  chosenIds ps = spec_product_ids ps.
Proof.
  intros Hnone. unfold chosenIds, spec_product_ids, spec_priority_order.
  rewrite chosen_take_4, Hnone.
  rewrite filter_filter_andb in Hnone. rewrite Hnone.
  rewrite (filter_none_filter_negb is_productish _ ps Hnone). reflexivity.
Qed.

Lemma chosenIds_four_by_priority ps :
  (4 <= length (List.filter is_promotional ps) +
        length (List.filter is_productish
                  (List.filter (fun p => negb (is_promotional p)) ps)))%nat ->
  chosenIds ps = spec_product_ids ps.
Proof.
  intros Hlen. unfold chosenIds, spec_product_ids, spec_priority_order.
  rewrite chosen_take_4, <- filter_filter_andb.
  rewrite !(app_assoc (List.filter is_promotional ps)).
  f_equal. f_equal. apply take_app_long. rewrite length_app. exact Hlen.
Qed.

(** C3. Mode allocation is idempotent: applying [applyMixedMode] to a plan
    it has already tagged returns the same plan, so every post keeps the
    visual mode the first application gave it. *)
Theorem applyMixedMode_idempotent planJson :
  applyMixedMode (applyMixedMode planJson) = applyMixedMode planJson.
Proof.
  unfold applyMixedMode at 1.
  rewrite posts_of_applyMixedMode.
  destruct (posts_of planJson) as [|p ps] eqn:E; [reflexivity|].
  set (ids := chosenIds (p :: ps)).
  rewrite chosenIds_tagged. fold ids.
  unfold applyMixedMode. rewrite E. fold ids. simpl length. simpl Nat.eqb.
  cbv iota.
  rewrite with_posts_with_posts, map_map. f_equal.
Qed.

(** C10. A plan whose posts list is empty or absent ([posts_of] is then
    the empty list) is returned exactly as it came: nothing is tagged. *)
Theorem applyMixedMode_no_posts planJson :
  posts_of planJson = [] -> applyMixedMode planJson = planJson.
Proof. intros E. unfold applyMixedMode. rewrite E. reflexivity. Qed.

Lemma applyMixedMode_no_posts_witness :
  posts_of empty_plan = [] /\ applyMixedMode empty_plan = empty_plan.
Proof. split; [reflexivity | apply applyMixedMode_no_posts; reflexivity]. Defined.

(** The plans without posts: the document is [null], or it has no [plan],
    or the plan has no [posts], or the list is empty. *)
Lemma posts_of_nil planJson :
  posts_of planJson = [] <->
  planJson = None \/ planJson = Some (mkPlanJson None) \/
  (exists m c, planJson = Some (mkPlanJson (Some (mkPlan m c None)))) \/
  (exists m c, planJson = Some (mkPlanJson (Some (mkPlan m c (Some []))))).
Proof.
  destruct planJson as [[[[m c [qs|]]|]]|]; cbn; split; intros H;
    try (destruct H as [H|[H|[(?&?&H)|(?&?&H)]]]; congruence);
    eauto 6.
  subst. do 3 right. eauto.
Qed.

(** C1. On six posts with distinct identifiers, two of them promotional
    and one with a keyword, [applyMixedMode] tags three posts
    [product_model] and three [editorial]: not four and two. *)
Example applyMixedMode_three_of_six :
  let tagged := posts_of (applyMixedMode six_plan) in
  NoDup (map id six_posts) /\
  length tagged = 6%nat /\
  count_mode "product_model" tagged = 3%nat /\
  count_mode "editorial" tagged = 3%nat.
Proof.
  split; [apply (bool_decide_unpack _); vm_compute; exact I|].
  repeat split; vm_compute; reflexivity.
Qed.

(** C2. On the same six posts the worded priority order selects P05, P06,
    P01 and P02, while the loops select P05, P06, P01 and P01 again: P02 is
    in the worded product set and is tagged [editorial] by the code. *)
Example applyMixedMode_repeats_keyword_post :
  map id (take 4 (spec_priority_order six_posts)) =
    [Some "P05"; Some "P06"; Some "P01"; Some "P02"] /\
  map id (take 4 (chosen six_posts)) =
    [Some "P05"; Some "P06"; Some "P01"; Some "P01"] /\
  Some "P02" ∈ spec_product_ids six_posts /\
  (Some "P02" ∉ chosenIds six_posts) /\
  map visual_mode (posts_of (applyMixedMode six_plan)) =
    [Some "product_model"; Some "editorial"; Some "editorial";
     Some "editorial"; Some "product_model"; Some "product_model"].
Proof.
  split; [vm_compute; reflexivity|].
  split; [vm_compute; reflexivity|].
  split; [apply (bool_decide_unpack _); vm_compute; exact I|].
  split; [apply (bool_decide_unpack _); vm_compute; exact I|].
  vm_compute; reflexivity.
Qed.

End MixedModeFacts.

(** ** Reasoning about runs *)

Section Triples.

Lemma triple_ret {A} (P : state -> Prop) (a : A) Q E :
  (forall st, P st -> Q a st) -> triple P (ret a) Q E.
Proof. intros H st HP. simpl. auto. Qed.

Lemma triple_lift {A} (P : state -> Prop) (r : thrown + A) Q E :
  (forall st a, P st -> r = inr a -> Q a st) ->
  (forall st e, P st -> r = inl e -> E e st) ->
  triple P (lift r) Q E.
Proof. intros HQ HE st HP. unfold lift. destruct r; eauto. Qed.

Lemma triple_bind {A B} (P : state -> Prop) (m : M A) (k : A -> M B) R Q E :
  triple P m R E ->
  (forall a, triple (R a) (k a) Q E) ->
  triple P (bind m k) Q E.
Proof.
  intros Hm Hk st HP. unfold bind. specialize (Hm st HP).
  destruct (m st) as [st' [e|a]]; [exact Hm|]. apply (Hk a st' Hm).
Qed.

Lemma triple_weaken {A} (P P' : state -> Prop) (m : M A)
    (Q Q' : A -> state -> Prop) (E E' : thrown -> state -> Prop) :
  triple P' m Q' E' ->
  (forall st, P st -> P' st) ->
  (forall a st, Q' a st -> Q a st) ->
  (forall e st, E' e st -> E e st) ->
  triple P m Q E.
Proof.
  intros Hm HP HQ HE st Hst. specialize (Hm st (HP st Hst)).
  destruct (m st) as [st' [e|a]]; auto.
Qed.

End Triples.

Section Preserves.

Context (R : state -> state -> Prop) `{!Reflexive R} `{!Transitive R}.

Lemma preserves_ret {A} (a : A) : preserves R (ret a).
Proof. intros st. simpl. reflexivity. Qed.

Lemma preserves_throw {A} (e : thrown) : preserves R (@throw A e).
Proof. intros st. simpl. reflexivity. Qed.

Lemma preserves_lift {A} (r : thrown + A) : preserves R (lift r).
Proof. intros st. simpl. reflexivity. Qed.

Lemma preserves_bind {A B} (m : M A) (k : A -> M B) :
  preserves R m -> (forall a, preserves R (k a)) -> preserves R (bind m k).
Proof.
  intros Hm Hk st. unfold bind. specialize (Hm st).
  destruct (m st) as [st' [e|a]]; simpl in *; [exact Hm|].
  etransitivity; [exact Hm | apply Hk].
Qed.

Lemma preserves_try_catch (m : M unit) (h : thrown -> M unit) :
  preserves R m -> (forall e, preserves R (h e)) -> preserves R (try_catch m h).
Proof.
  intros Hm Hh st. unfold try_catch. specialize (Hm st).
  destruct (m st) as [st' [e|a]]; simpl in *; [|exact Hm].
  etransitivity; [exact Hm | apply Hh].
Qed.

(** A relation kept by the steps of the generation client and of the
    artifact store is kept by the client and the store. *)
Section Client.

Variable w : World.
Hypothesis keeps_chat : forall s, preserves R (emit (EvChat s)).
Hypothesis keeps_image : forall n, preserves R (emit (EvImage n)).
Hypothesis keeps_suspend : preserves R suspend.
Hypothesis keeps_write : forall p c, preserves R (writeFileSync w p c).

Lemma preserves_ensureDir dir : preserves R (ensureDir w dir).
Proof. apply preserves_lift. Qed.

Lemma preserves_writeFileSafe p c : preserves R (writeFileSafe w p c).
Proof.
  unfold writeFileSafe. apply preserves_bind; [apply preserves_ensureDir|].
  intros _. apply keeps_write.
Qed.

Lemma preserves_callOpenAIJson {A} s (parse : string -> option A) :
  preserves R (callOpenAIJson w s parse).
Proof.
  unfold callOpenAIJson.
  apply preserves_bind; [apply keeps_chat|]. intros _.
  apply preserves_bind; [apply keeps_suspend|]. intros _.
  destruct (chat_completions w s) as [e|c]; [apply preserves_throw|].
  destruct (parse (default "" c)); [apply preserves_ret | apply preserves_throw].
Qed.

Lemma preserves_generateEditorialImage n outPath :
  preserves R (generateEditorialImage w n outPath).
Proof.
  unfold generateEditorialImage.
  apply preserves_bind; [apply keeps_image|]. intros _.
  apply preserves_bind; [apply keeps_suspend|]. intros _.
  destruct (images_generate w n) as [e|[[|c b64]|]];
    try apply preserves_throw.
  apply preserves_bind; [apply preserves_ensureDir|]. intros _.
  apply keeps_write.
Qed.

Lemma preserves_render_all dir n vs : preserves R (render_all w dir n vs).
Proof.
  revert n. induction vs as [|v vs IH]; intros n; simpl.
  - apply preserves_ret.
  - apply preserves_bind; [apply preserves_generateEditorialImage|].
    intros _. apply IH.
Qed.

Lemma preserves_runJob_try jobId job :
  (forall f, field_setter f -> preserves R (assign jobId f)) ->
  preserves R (runJob_try w jobId job).
Proof.
  intros keeps_assign. unfold runJob_try.
  repeat
    lazymatch goal with
    | |- preserves _ (bind _ _) => apply preserves_bind; [|intros ?]
    | |- preserves _ (assign _ _) =>
        apply keeps_assign; intros ?; repeat split; reflexivity
    | |- preserves _ (lift _) => apply preserves_lift
    | |- preserves _ (callOpenAIJson _ _ _) => apply preserves_callOpenAIJson
    | |- preserves _ (writeFileSafe _ _ _) => apply preserves_writeFileSafe
    | |- preserves _ (ensureDir _ _) => apply preserves_ensureDir
    | |- preserves _ (render_all _ _ _ _) => apply preserves_render_all
    | |- preserves _ (let _ := _ in _) => cbv zeta
    end.
Qed.

Lemma preserves_runJob_catch jobId e :
  (forall f, field_setter f -> preserves R (assign jobId f)) ->
  preserves R (runJob_catch jobId e).
Proof.
  intros keeps_assign. unfold runJob_catch.
  apply preserves_bind; [|intros _];
    apply keeps_assign; intros ?; repeat split; reflexivity.
Qed.

End Client.

End Preserves.

(** ** What a run keeps *)

Section Kept.

Variable w : World.

Lemma keeps_artifacts_same jobId st st' :
  jobs st' = jobs st -> disk st' = disk st -> events st' = events st ->
  keeps_artifacts jobId st st'.
Proof.
  intros Hj Hd He. unfold keeps_artifacts. rewrite Hj, Hd, He.
  repeat split; try reflexivity.
  - exists []. split; [symmetry; apply app_nil_r|].
    intros p Hp. apply elem_of_nil in Hp. destruct Hp.
  - intros j Hjob. eauto.
Qed.

#[global] Instance keeps_artifacts_refl jobId : Reflexive (keeps_artifacts jobId).
Proof. intros st. apply keeps_artifacts_same; reflexivity. Qed.

#[global] Instance keeps_artifacts_trans jobId : Transitive (keeps_artifacts jobId).
Proof.
  intros s1 s2 s3 (Hd1 & (ev1 & He1 & Hw1) & Hj1 & Ho1 & Hi1)
                  (Hd2 & (ev2 & He2 & Hw2) & Hj2 & Ho2 & Hi2).
  repeat split.
  - etransitivity; eassumption.
  - exists (ev1 ++ ev2). split.
    + rewrite He2, He1, app_assoc. reflexivity.
    + intros p [Hp|Hp]%elem_of_app; auto.
  - congruence.
  - intros i Hi. rewrite Ho2, Ho1 by exact Hi. reflexivity.
  - intros j Hj. destruct (Hi1 j Hj) as (j1 & Hj1' & ? & ? & ?).
    destruct (Hi2 j1 Hj1') as (j2 & Hj2' & ? & ? & ?).
    exists j2. repeat split; congruence.
Qed.

#[global] Instance quiet_refl : Reflexive quiet.
Proof.
  intros st. repeat split. exists 0%nat. simpl. symmetry. apply app_nil_r.
Qed.

#[global] Instance quiet_trans : Transitive quiet.
Proof.
  intros s1 s2 s3 (Hj1 & Hh1 & n1 & Hs1) (Hj2 & Hh2 & n2 & Hs2).
  repeat split; try congruence.
  exists (n1 + n2)%nat.
  rewrite Hs2, Hs1, Hj1, repeat_app, app_assoc. reflexivity.
Qed.

Lemma keeps_artifacts_call jobId e :
  (forall p, e <> EvWrite p) -> preserves (keeps_artifacts jobId) (emit e).
Proof.
  intros Hne st. simpl. repeat split; try reflexivity.
  - exists [e]. split; [reflexivity|].
    intros p Hp. apply list_elem_of_singleton in Hp. symmetry in Hp.
    destruct (Hne p Hp).
  - intros j Hj. simpl. eauto.
Qed.

Lemma keeps_artifacts_suspend jobId : preserves (keeps_artifacts jobId) suspend.
Proof. intros st. apply keeps_artifacts_same; reflexivity. Qed.

Lemma keeps_artifacts_write jobId p c :
  preserves (keeps_artifacts jobId) (writeFileSync w p c).
Proof.
  intros st. unfold writeFileSync.
  destruct (writeFileSync_error w p); simpl; [reflexivity|].
  unfold keeps_artifacts; simpl.
  split; [|split; [|split; [reflexivity|split; [reflexivity|eauto]]]].
  - rewrite dom_insert_L. apply union_subseteq_r.
  - exists [EvWrite p]. split; [reflexivity|].
    intros q Hq. apply list_elem_of_singleton in Hq. inversion Hq; subst.
    rewrite dom_insert_L. apply elem_of_union_l, elem_of_singleton. reflexivity.
Qed.

Lemma keeps_artifacts_assign jobId f :
  field_setter f -> preserves (keeps_artifacts jobId) (assign jobId f).
Proof.
  intros Hf st. simpl. repeat split; try reflexivity.
  - exists []. split; [symmetry; apply app_nil_r|].
    intros p Hp. apply elem_of_nil in Hp. destruct Hp.
  - apply dom_alter_L.
  - intros i Hi. apply lookup_alter_ne. congruence.
  - intros j Hj. exists (f j). simpl. rewrite lookup_alter_eq, Hj.
    split; [reflexivity | apply Hf].
Qed.

Lemma keeps_artifacts_runJob_try jobId job :
  preserves (keeps_artifacts jobId) (runJob_try w jobId job).
Proof.
  apply preserves_runJob_try; try typeclasses eauto.
  - intros s. apply keeps_artifacts_call. discriminate.
  - intros n. apply keeps_artifacts_call. discriminate.
  - apply keeps_artifacts_suspend.
  - apply keeps_artifacts_write.
  - apply keeps_artifacts_assign.
Qed.

Lemma quiet_emit e : preserves quiet (emit e).
Proof.
  intros st. repeat split. exists 0%nat. simpl. symmetry. apply app_nil_r.
Qed.

Lemma quiet_suspend : preserves quiet suspend.
Proof. intros st. repeat split. exists 1%nat. reflexivity. Qed.

Lemma quiet_write p c : preserves quiet (writeFileSync w p c).
Proof.
  intros st. unfold writeFileSync.
  destruct (writeFileSync_error w p); simpl; [apply quiet_refl|].
  repeat split. exists 0%nat. simpl. symmetry. apply app_nil_r.
Qed.

Lemma quiet_callOpenAIJson {A} s (parse : string -> option A) :
  preserves quiet (callOpenAIJson w s parse).
Proof.
  apply preserves_callOpenAIJson; try typeclasses eauto;
    auto using quiet_emit, quiet_suspend.
Qed.

Lemma quiet_writeFileSafe p c : preserves quiet (writeFileSafe w p c).
Proof.
  apply preserves_writeFileSafe; try typeclasses eauto. apply quiet_write.
Qed.

Lemma quiet_render_all dir n vs : preserves quiet (render_all w dir n vs).
Proof.
  apply preserves_render_all; try typeclasses eauto;
    auto using quiet_emit, quiet_suspend, quiet_write.
Qed.

End Kept.

(** ** The life of a job record *)

(** An assignment to a field of a job that is in the table. *)
Lemma assign_present jobId f st j :
  jobs st !! jobId = Some j ->
  assign jobId f st =
    (mkState (<[jobId := f j]> (jobs st)) (disk st) (events st)
       (history st ++ [f j]) (seen st), inr tt).
Proof.
  intros Hj. unfold assign.
  rewrite lookup_alter_eq, Hj. simpl.
  f_equal. f_equal. apply map_eq. intros i.
  destruct (decide (i = jobId)) as [->|Hne].
  - rewrite lookup_alter_eq, lookup_insert_eq, Hj. reflexivity.
  - rewrite lookup_alter_ne, lookup_insert_ne by congruence. reflexivity.
Qed.

Lemma non_decreasing_snoc (l : list Z) (x : Z) :
  non_decreasing l -> Forall (fun a => a <= x) l -> non_decreasing (l ++ [x]).
Proof.
  intros Hl Hall i k a b Hik Hi Hk.
  destruct (lookup_lt_is_Some_2 (l ++ [x]) k) as [_ _]; [|].
  - apply lookup_lt_Some in Hk. exact Hk.
  - destruct (decide (k < length l)%nat) as [Hlt|Hge].
    + rewrite lookup_app_l in Hi, Hk by lia. eauto.
    + assert (b = x) as ->.
      { rewrite lookup_app_r in Hk by lia.
        destruct (k - length l)%nat; simpl in Hk; [congruence|].
        rewrite lookup_nil in Hk. discriminate. }
      destruct (decide (i < length l)%nat) as [Hi'|Hi'].
      * rewrite lookup_app_l in Hi by lia.
        rewrite Forall_forall in Hall. apply Hall.
        apply list_elem_of_lookup. eauto.
      * rewrite lookup_app_r in Hi by lia.
        destruct (i - length l)%nat; simpl in Hi; [injection Hi as <-; lia|].
        rewrite lookup_nil in Hi. discriminate.
Qed.

Lemma repeat_snoc {A} (x : A) (n : nat) : repeat x n ++ [x] = repeat x (S n).
Proof. symmetry. apply repeat_cons. Qed.

Lemma non_decreasing_repeat (l : list Z) (x : Z) (k : nat) :
  non_decreasing l -> Forall (fun a => a <= x) l -> non_decreasing (l ++ repeat x k).
Proof.
  intros Hl Hall. induction k as [|k IH]; simpl.
  - rewrite app_nil_r. exact Hl.
  - rewrite repeat_cons, app_assoc. apply non_decreasing_snoc; [exact IH|].
    apply Forall_app. split; [exact Hall|].
    apply Forall_forall. intros a Ha.
    apply list_elem_of_In, repeat_spec in Ha. lia.
Qed.

Section Lifecycle.

Variable w : World.
Variable jobId : string.
Variable hprev : list Job.
Variable sprev : list (gmap string Job).

Local Abbreviation polled := (polled jobId).
Local Abbreviation Created := (Created jobId hprev sprev).
Local Abbreviation Running_at := (Running_at jobId hprev sprev).
Local Abbreviation Ended := (Ended jobId hprev sprev).
Local Abbreviation Failing := (Failing jobId hprev sprev).

Lemma triple_start E :
  triple Created (assign jobId (set_status Running)) (fun _ => Running_at 0) E.
Proof.
  intros st (j & Hj & Hs & Hp & Hh & Hseen).
  rewrite (assign_present _ _ _ _ Hj).
  exists (set_status Running j), [j; set_status Running j], [], [], 0%nat.
  simpl. rewrite lookup_insert_eq, Hh, <- app_assoc, Hs, Hp, Hseen, app_nil_r.
  repeat split; auto.
  - repeat constructor; simpl; lia.
  - intros i k a b Hik Hi Hk.
    destruct i as [|[|i]], k as [|[|k]]; simplify_eq/=; lia.
  - apply Forall2_nil_2.
  - intros i k a b _ Hi. simpl in Hi. rewrite lookup_nil in Hi. discriminate.
Qed.

Lemma triple_progress c c' E :
  c <= c' <= 100 ->
  triple (Running_at c) (assign jobId (set_progress c')) (fun _ => Running_at c') E.
Proof.
  intros Hc st (j & hJ & s & js & n & Hj & Hs & Hp & Hh & Hst & Hall & Hnd
                & Hseen & Hpoll & Hjs & Hjs').
  rewrite (assign_present _ _ _ _ Hj).
  exists (set_progress c' j), (hJ ++ [set_progress c' j]), s, js, (S n).
  simpl. rewrite lookup_insert_eq, Hh, <- app_assoc.
  assert (0 <= c) as Hc0.
  { destruct hJ as [|x hJ]; [discriminate|].
    apply Forall_cons in Hall as [Hx _]. lia. }
  repeat split; auto.
  - rewrite map_app, Hst. simpl. rewrite Hs.
    f_equal. f_equal. apply (repeat_snoc Running n).
  - apply Forall_app. split.
    + eapply Forall_impl; [exact Hall|]. simpl. intros; lia.
    + repeat constructor; simpl; lia.
  - rewrite map_app. simpl. apply non_decreasing_snoc; [exact Hnd|].
    apply Forall_map.
    eapply Forall_impl; [exact Hall|]. simpl. intros; lia.
  - eapply Forall_impl; [exact Hjs|]. simpl. intros x (? & ? & ?).
    repeat split; auto; lia.
Qed.

Lemma polled_repeat t j k : t !! jobId = Some j -> polled (repeat t k) (repeat j k).
Proof. intros Ht. unfold polled. induction k; simpl; constructor; auto. Qed.

Lemma triple_quiet {A} (m : M A) c :
  c <= 75 -> preserves quiet m ->
  triple (Running_at c) m (fun _ => Running_at c) Failing.
Proof.
  intros Hc Hm st HR.
  assert (Running_at c (m st).1) as HR'.
  { destruct (Hm st) as (Hj & Hh & k & Hseen).
    destruct HR as (j & hJ & s & js & n & Hj0 & Hs & Hp & Hh0 & Hst & Hall & Hnd
                    & Hseen0 & Hpoll & Hjs & Hjs').
    assert (0 <= c) as Hc0.
    { destruct hJ as [|x hJ]; [discriminate|].
      apply Forall_cons in Hall as [Hx _]. lia. }
    exists j, hJ, (s ++ repeat (jobs st) k), (js ++ repeat j k), n.
    rewrite Hj, Hh, Hseen, Hseen0, <- app_assoc.
    repeat split; auto.
    - apply Forall2_app; [exact Hpoll | apply polled_repeat; exact Hj0].
    - apply Forall_app. split; [exact Hjs|].
      apply Forall_forall. intros x Hx.
      apply list_elem_of_In, repeat_spec in Hx. subst x. repeat split; auto; lia.
    - rewrite map_app, map_repeat. apply non_decreasing_repeat; [exact Hjs'|].
      apply Forall_map. eapply Forall_impl; [exact Hjs|].
      simpl. intros x (? & ? & ?). lia. }
  destruct (m st) as [st' [e|a]]; simpl in HR'; [|exact HR'].
  exists c. split; [lia | exact HR'].
Qed.

(** The two assignments that end a run: the status, then one more field. *)
Lemma triple_settle t (g : Job -> Job) c E :
  (forall j, status (g j) = status j /\ progress (g j) = progress j) ->
  t <> Running -> t <> Queued -> (c = 100 <-> t = Done) -> c <= 100 ->
  triple (Running_at c)
    (bind (assign jobId (set_status t)) (fun _ => assign jobId g))
    (fun _ => Ended t) E.
Proof.
  intros Hg Ht1 Ht2 Hct Hc st
    (j & hJ & s & js & n & Hj & Hs & Hp & Hh & Hst & Hall & Hnd
     & Hseen & Hpoll & Hjs & Hjs').
  unfold bind. rewrite (assign_present _ _ _ _ Hj).
  rewrite (assign_present _ _ _ (set_status t j)) by (simpl; apply lookup_insert_eq).
  destruct (Hg (set_status t j)) as [Hg1 Hg2]. simpl in Hg1, Hg2.
  assert (0 <= c) as Hc0.
  { destruct hJ as [|x hJ]; [discriminate|].
    apply Forall_cons in Hall as [Hx _]. lia. }
  exists (g (set_status t j)), (hJ ++ [set_status t j; g (set_status t j)]), s, js, n.
  simpl. rewrite lookup_insert_eq, Hh, <- !app_assoc, Hg1, Hg2, Hp. simpl.
  repeat split; auto; try tauto.
  - rewrite map_app, Hst. simpl. rewrite Hg1. reflexivity.
  - apply Forall_app. split; [exact Hall|].
    repeat (apply Forall_cons; split; [simpl; lia|]). apply Forall_nil_2.
  - rewrite map_app. simpl. rewrite Hg2, Hp.
    change [c; c] with (repeat c 2).
    apply non_decreasing_repeat; [exact Hnd|].
    apply Forall_map. eapply Forall_impl; [exact Hall|]. simpl. intros; lia.
Qed.

Lemma runJob_try_lifecycle job :
  triple Created (runJob_try w jobId job) (fun _ => Ended Done) Failing.
Proof.
  unfold runJob_try.
  repeat
    lazymatch goal with
    | |- triple _ (bind (assign _ (set_status Running)) _) _ _ =>
        eapply triple_bind; [apply triple_start | intros ?]
    | |- triple _ (bind (assign _ (set_progress 100)) _) _ _ =>
        eapply triple_bind; [apply triple_progress; lia | intros ?];
        apply triple_settle; [intros; split; reflexivity | discriminate..| tauto | lia]
    | |- triple _ (bind (assign _ (set_progress _)) _) _ _ =>
        eapply triple_bind; [apply triple_progress; lia | intros ?]
    | |- triple _ (bind (lift _) _) _ _ =>
        eapply triple_bind;
        [apply triple_quiet; [lia | apply preserves_lift; typeclasses eauto] | intros ?]
    | |- triple _ (bind (ensureDir _ _) _) _ _ =>
        eapply triple_bind;
        [apply triple_quiet; [lia | apply preserves_ensureDir; typeclasses eauto] | intros ?]
    | |- triple _ (bind (callOpenAIJson _ _ _) _) _ _ =>
        eapply triple_bind;
        [apply triple_quiet; [lia | apply quiet_callOpenAIJson] | intros ?]
    | |- triple _ (bind (writeFileSafe _ _ _) _) _ _ =>
        eapply triple_bind;
        [apply triple_quiet; [lia | apply quiet_writeFileSafe] | intros ?]
    | |- triple _ (bind (render_all _ _ _ _) _) _ _ =>
        eapply triple_bind;
        [apply triple_quiet; [lia | apply quiet_render_all] | intros ?]
    | |- triple _ (let _ := _ in _) _ _ => cbv zeta
    end.
Qed.

End Lifecycle.

(** ** [runJob] as a whole *)

Section RunJob.

Variable w : World.

Lemma runJob_finally_id jobId st : runJob_finally jobId st = st.
Proof.
  unfold runJob_finally. destruct (jobs st !! jobId) as [j|] eqn:Hj; [|reflexivity].
  rewrite insert_id by exact Hj. destruct st; reflexivity.
Qed.

Lemma runJob_catch_returns jobId e st : (runJob_catch jobId e st).2 = inr tt.
Proof. reflexivity. Qed.

(** [runJob] on a job of the table: the [try] block, the [catch] block
    when it threw, and the promise fulfils either way. *)
Lemma runJob_present jobId st job :
  jobs st !! jobId = Some job ->
  runJob w jobId st =
    match runJob_try w jobId job st with
    | (st1, inr _) => (settle st1, inr tt)
    | (st1, inl e) => (settle (runJob_catch jobId e st1).1, inr tt)
    end.
Proof.
  intros Hj. unfold runJob. rewrite Hj.
  unfold bind, finally, try_catch.
  destruct (runJob_try w jobId job st) as [st1 [e|[]]].
  - pose proof (runJob_catch_returns jobId e st1) as Hr.
    destruct (runJob_catch jobId e st1) as [st2 r]. simpl in Hr. subst r.
    rewrite runJob_finally_id. reflexivity.
  - rewrite runJob_finally_id. reflexivity.
Qed.

Lemma runJob_absent jobId st :
  jobs st !! jobId = None -> runJob w jobId st = (st, inr tt).
Proof. intros Hj. unfold runJob. rewrite Hj. reflexivity. Qed.

(** [runJob] never rejects. *)
Lemma runJob_fulfils jobId st : (runJob w jobId st).2 = inr tt.
Proof.
  destruct (jobs st !! jobId) as [job|] eqn:Hj.
  - rewrite (runJob_present _ _ _ Hj).
    destruct (runJob_try w jobId job st) as [st1 [e|[]]]; reflexivity.
  - rewrite (runJob_absent _ _ Hj). reflexivity.
Qed.

Lemma keeps_artifacts_settle jobId st : keeps_artifacts jobId st (settle st).
Proof. apply keeps_artifacts_same; reflexivity. Qed.

Lemma keeps_artifacts_runJob jobId : preserves (keeps_artifacts jobId) (runJob w jobId).
Proof.
  intros st. destruct (jobs st !! jobId) as [job|] eqn:Hj.
  - rewrite (runJob_present _ _ _ Hj).
    pose proof (keeps_artifacts_runJob_try w jobId job st) as Htry.
    destruct (runJob_try w jobId job st) as [st1 [e|[]]]; simpl in *.
    + etransitivity; [exact Htry|].
      etransitivity; [|apply keeps_artifacts_settle].
      apply (preserves_runJob_catch (keeps_artifacts jobId)).
      apply keeps_artifacts_assign.
    + etransitivity; [exact Htry | apply keeps_artifacts_settle].
  - rewrite (runJob_absent _ _ Hj). simpl. reflexivity.
Qed.

(** A request that gets through is stored and run, and answered with the
    identifier. *)
Lemma submit_admitted jobId now req input st :
  admits w req input ->
  submit w jobId now req st =
    ((runJob w jobId (stored jobId now input st)).1, Respond 200 (BodyJobId jobId)).
Proof.
  intros (Hup & input_json & Hbody & Hparse).
  unfold submit. rewrite Hup, Hbody, Hparse. reflexivity.
Qed.

(** Every other request leaves the state as it is and is answered by the
    framework. *)
Lemma submit_cases jobId now req st :
  (exists input, admits w req input) \/ submit w jobId now req st = (st, Uncaught).
Proof.
  unfold admits, submit.
  destruct (upload_array "product_images" 3 req); [|right; reflexivity].
  destruct (req_body req) as [input_json|]; [|right; reflexivity].
  destruct (JSON_parse_input w (Js.or_else input_json "{}")) as [input|] eqn:Hparse;
    [left; eauto | right; reflexivity].
Qed.

(** A submission leaves the other jobs of the table as they are. *)
Lemma submit_other jobId now req st i :
  i <> jobId ->
  jobs (submit w jobId now req st).1 !! i = jobs st !! i.
Proof.
  intros Hi.
  destruct (submit_cases jobId now req st) as [[input Hadm]| ->]; [|reflexivity].
  rewrite (submit_admitted _ _ _ _ _ Hadm). cbn [fst].
  destruct (keeps_artifacts_runJob jobId (stored jobId now input st))
    as (_ & _ & _ & Ho & _).
  rewrite Ho by exact Hi. simpl. apply lookup_insert_ne. congruence.
Qed.

End RunJob.

(** ** A submitted job from creation to its end *)

Section Submitted.

Variable w : World.
Variable jobId : string.

Local Abbreviation Settled := (Settled jobId).

Lemma Ended_settle hprev sprev t st :
  Ended jobId hprev sprev t st -> Settled hprev sprev t (settle st).
Proof.
  intros (j & hJ & s & js & n & Hj & Hs & Hp & Hpt & Hh & Hst & Hall & Hnd
          & Hseen & Hpoll & Hjs & Hjs').
  exists j, hJ, (s ++ [jobs st]), (js ++ [j]), n. simpl.
  rewrite Hseen, <- app_assoc.
  repeat split; auto.
  - eapply Forall_impl; [exact Hall|]. simpl. intros; lia.
  - apply Forall2_app; [exact Hpoll|]. repeat constructor. exact Hj.
  - apply Forall_app. split.
    + eapply Forall_impl; [exact Hjs|]. simpl. intros x (Hx & ? & ?).
      split; [lia|]. split; [lia | rewrite Hx; discriminate].
    + apply Forall_cons. split; [|apply Forall_nil_2].
      split; [lia|]. rewrite Hs. exact Hpt.
  - rewrite map_app. simpl. apply non_decreasing_snoc; [exact Hjs'|].
    apply Forall_map. eapply Forall_impl; [exact Hjs|].
    simpl. intros x (? & ? & ?). lia.
  - apply last_snoc.
Qed.

Lemma runJob_created_settles hprev sprev st :
  Created jobId hprev sprev st ->
  exists t, (t = Done \/ t = Error) /\
            Settled hprev sprev t (runJob w jobId st).1.
Proof.
  intros HC. pose proof HC as (j & Hj & _).
  rewrite (runJob_present w _ _ _ Hj).
  pose proof (runJob_try_lifecycle w jobId hprev sprev j st HC) as Htry.
  destruct (runJob_try w jobId j st) as [st1 [e|[]]].
  - destruct Htry as (c & Hc & HR).
    exists Error. split; [auto|].
    change (Settled hprev sprev Error (settle (runJob_catch jobId e st1).1)).
    apply Ended_settle.
    assert (triple (Running_at jobId hprev sprev c) (runJob_catch jobId e)
              (fun _ => Ended jobId hprev sprev Error) (fun _ _ => False)) as Hcatch.
    { apply triple_settle; try discriminate; [intros; split; reflexivity| |lia].
      split; [lia | discriminate]. }
    specialize (Hcatch st1 HR).
    destruct (runJob_catch jobId e st1) as [st2 [e'|[]]]; [destruct Hcatch|].
    exact Hcatch.
  - exists Done. split; [auto|]. simpl. apply Ended_settle. exact Htry.
Qed.

Lemma submit_creates now input st :
  Created jobId (history st) (seen st) (stored jobId now input st).
Proof.
  eexists. simpl. rewrite lookup_insert_eq. repeat split; reflexivity.
Qed.

(** A submission that gets through ends settled, in [done] or in [error]. *)
Lemma submit_settles now req input st :
  admits w req input ->
  exists t, (t = Done \/ t = Error) /\
            Settled (history st) (seen st) t (submit w jobId now req st).1.
Proof.
  intros Hadm. rewrite (submit_admitted w _ _ _ _ _ Hadm). cbn [fst].
  apply runJob_created_settles, submit_creates.
Qed.

Lemma polled_getStatus s js :
  polled jobId s js ->
  Forall2 (fun t x => getStatus t jobId = Respond 200 (BodyJob x)) s js.
Proof.
  intros H. eapply Forall2_impl; [exact H|].
  simpl. intros t x Ht. unfold getStatus. rewrite Ht. reflexivity.
Qed.

End Submitted.

(** C7, amended. Over the records a job goes through, one per assignment,
    [progress] stays within 0..100 and never goes down; the same holds for
    the records the status requests can read, and among those [progress] is
    100 exactly when [status] is [done]. *)
Theorem progress_of_a_job w jobId now req st :
  let st' := (submit w jobId now req st).1 in
  exists hJ s js,
    history st' = history st ++ hJ /\
    Forall (fun x => 0 <= progress x <= 100) hJ /\
    non_decreasing (map progress hJ) /\
    seen st' = seen st ++ s /\
    Forall2 (fun t x => getStatus t jobId = Respond 200 (BodyJob x)) s js /\
    Forall (fun x => 0 <= progress x <= 100 /\
                     (progress x = 100 <-> status x = Done)) js /\
    non_decreasing (map progress js).
Proof.
  intros st'. subst st'.
  destruct (submit_cases w jobId now req st) as [[input Hadm]|Hrefused].
  - destruct (submit_settles w jobId now req input st Hadm)
      as (t & _ & j & hJ & s & js & n & _ & _ & Hh & _ & Hall & Hnd & Hseen
          & Hpoll & Hjs & Hjs' & _).
    exists hJ, s, js. repeat split; auto using polled_getStatus.
  - rewrite Hrefused. simpl.
    exists [], [], []. rewrite !app_nil_r.
    repeat split; auto using Forall2_nil_2;
      intros i k a b _ Hi; simpl in Hi; rewrite lookup_nil in Hi; discriminate.
Qed.

(** C7 as stated fails on the records themselves: in a run where every
    call succeeds, the assignment of 100 comes one step before the
    assignment of [done], and the record in between has progress 100 with
    status [running]. *)
Lemma progress_100_while_running :
  map (fun x => (status x, progress x)) (history good_run) =
    [ (Queued, 0); (Running, 0); (Running, 10); (Running, 35); (Running, 55);
      (Running, 65); (Running, 75); (Running, 100); (Done, 100); (Done, 100) ] /\
  ~ Forall (fun x => progress x = 100 -> status x = Done) (history good_run).
Proof.
  split; [vm_compute; reflexivity|].
  intros H. rewrite Forall_forall in H.
  assert (exists x, history good_run !! 7%nat = Some x /\
                    progress x = 100 /\ status x = Running) as (x & Hx & Hp & Hs).
  { eexists. split; [vm_compute; reflexivity|]. split; reflexivity. }
  specialize (H x (list_elem_of_lookup_2 _ _ _ Hx) Hp). congruence.
Qed.

(** C8. A job is created [queued], becomes [running] when [runJob] starts
    and stays so until it becomes [done] or [error], one of the two; the
    record then keeps that status, through the last assignment of the run
    and through every later submission. This holds of every job that is
    created: of every request that gets through to the job table. *)
Theorem job_lifecycle w jobId now req input st :
  admits w req input ->
  let st' := (submit w jobId now req st).1 in
  exists hJ n t j,
    history st' = history st ++ hJ /\
    map status hJ = Queued :: repeat Running (S n) ++ [t; t] /\
    (t = Done \/ t = Error) /\
    jobs st' !! jobId = Some j /\ status j = t /\
    forall w' jobId' now' req',
      jobId' <> jobId ->
      jobs (submit w' jobId' now' req' st').1 !! jobId = Some j.
Proof.
  intros Hadm st'. subst st'.
  destruct (submit_settles w jobId now req input st Hadm)
    as (t & Ht & j & hJ & s & js & n & Hj & Hs & Hh & Hst & _).
  exists hJ, n, t, j. repeat split; auto.
  intros w' jobId' now' req' Hne.
  rewrite submit_other by congruence. exact Hj.
Qed.

Lemma job_lifecycle_witness :
  admits good_world (request (Some "CONTEXT")) (Some good_context) /\
  exists hJ n t j,
    history good_run = history initial_state ++ hJ /\
    map status hJ = Queued :: repeat Running (S n) ++ [t; t] /\
    (t = Done \/ t = Error) /\
    jobs good_run !! "j1" = Some j /\ status j = t /\
    forall w' jobId' now' req',
      jobId' <> "j1" ->
      jobs (submit w' jobId' now' req' good_run).1 !! "j1" = Some j.
Proof.
  assert (admits good_world (request (Some "CONTEXT")) (Some good_context)) as Hadm
    by (split; [reflexivity | exists (Some "CONTEXT"); split; reflexivity]).
  split; [exact Hadm|].
  apply (job_lifecycle good_world "j1" 1700000000000 (request (Some "CONTEXT"))
           (Some good_context) initial_state Hadm).
Defined.

(** ** Failure *)

Section Failure.

Variable w : World.

(** After a throw in the [try] block: the [catch] block records it on the
    job and nothing else changes. *)
Lemma runJob_after_throw jobId job st st1 e :
  jobs st !! jobId = Some job ->
  runJob_try w jobId job st = (st1, inl e) ->
  exists job1,
    jobs st1 !! jobId = Some job1 /\
    runJob w jobId st =
      (mkState
         (<[jobId := set_error (captured_message e) (set_status Error job1)]> (jobs st1))
         (disk st1) (events st1)
         (history st1 ++ [set_status Error job1;
                          set_error (captured_message e) (set_status Error job1)])
         (seen st1 ++
            [<[jobId := set_error (captured_message e) (set_status Error job1)]> (jobs st1)]),
       inr tt).
Proof.
  intros Hj Htry.
  pose proof (keeps_artifacts_runJob_try w jobId job st) as (_ & _ & Hdom & _).
  rewrite Htry in Hdom. simpl in Hdom.
  assert (is_Some (jobs st1 !! jobId)) as [job1 Hj1].
  { apply elem_of_dom. rewrite Hdom. apply elem_of_dom. eauto. }
  exists job1. split; [exact Hj1|].
  rewrite (runJob_present w _ _ _ Hj), Htry.
  unfold runJob_catch, bind.
  rewrite (assign_present _ _ _ _ Hj1).
  rewrite (assign_present _ _ _ (set_status Error job1))
    by (simpl; apply lookup_insert_eq).
  unfold settle. simpl. rewrite insert_insert_eq, <- app_assoc. reflexivity.
Qed.

End Failure.

(** ** The order of the remote calls and the writes *)

Section Order.

Variable w : World.
Variable jobId : string.
Variable e0 : list event.

Local Abbreviation Rendering := (Rendering w jobId e0).
Local Abbreviation Traced := (Traced w jobId e0).
Local Abbreviation Ordered := (Ordered w jobId e0).

#[global] Instance same_events_refl : Reflexive same_events.
Proof. intros st. reflexivity. Qed.

#[global] Instance same_events_trans : Transitive same_events.
Proof. intros s1 s2 s3 H1 H2. unfold same_events in *. congruence. Qed.

Lemma same_events_assign i f : preserves same_events (assign i f).
Proof. intros st. reflexivity. Qed.

Lemma succeeded_le n k : (n <= k)%nat -> succeeded w k -> succeeded w n.
Proof.
  intros Hle H. unfold succeeded in *.
  replace n with (Nat.min n k) by lia. rewrite <- take_take.
  apply Forall_take. exact H.
Qed.

Lemma succeeded_S k s :
  stages !! k = Some s -> succeeded w k -> stage_succeeds w s -> succeeded w (S k).
Proof.
  intros Hk H Hs. unfold succeeded in *.
  erewrite take_S_r by exact Hk. apply Forall_app. split; [exact H|].
  constructor; [exact Hs | constructor].
Qed.

Lemma Traced_Ordered k m st :
  (k <= 3)%nat -> (m <= 6)%nat -> ((k < 3)%nat -> m = 0%nat) ->
  Traced k m [] st -> Ordered st.
Proof.
  intros Hk Hm Hkm [HT HS]. exists k, m, [].
  repeat split; auto; try apply HT.
  - apply (succeeded_le _ k); [lia | exact HS].
  - intros Hpos. assert (k = 3)%nat as <- by lia. exact HS.
Qed.

Lemma Rendering_Ordered st : Rendering st -> Ordered st.
Proof.
  intros (imgs & HT & HS). exists 3%nat, 6%nat, imgs.
  repeat split; auto; try lia; try apply HT.
  apply (succeeded_le _ 3); [lia | exact HS].
Qed.

Lemma triple_same_events {A} (m : M A) (P : state -> Prop) E :
  preserves same_events m ->
  (forall st st', P st -> events st' = events st -> P st') ->
  (forall e st, P st -> E e st) ->
  triple P m (fun _ => P) E.
Proof.
  intros Hm HP HE st Hst. specialize (Hm st).
  destruct (m st) as [st' [e|a]]; simpl in Hm; eauto.
Qed.

Lemma Traced_same_events k m imgs st st' :
  Traced k m imgs st -> events st' = events st -> Traced k m imgs st'.
Proof. intros [[H1 H2] H3] He. repeat split; [congruence | exact H2 | exact H3]. Qed.

(** A structured call adds its event and nothing else. *)
Lemma callOpenAIJson_events {A} s (parse : string -> option A) st :
  events (callOpenAIJson w s parse st).1 = events st ++ [EvChat s].
Proof.
  unfold callOpenAIJson, bind, emit, suspend; simpl.
  destruct (chat_completions w s) as [e|c]; [reflexivity|].
  destruct (parse (default "" c)); reflexivity.
Qed.

(** It returns only when the reply parses. *)
Lemma callOpenAIJson_succeeds {A} s (parse : string -> option A) st st' v :
  (forall text, defined (parse text) = parses w s text) ->
  callOpenAIJson w s parse st = (st', inr v) -> stage_succeeds w s.
Proof.
  intros Hparse. unfold callOpenAIJson, bind, emit, suspend, stage_succeeds, reply_text.
  simpl. destruct (chat_completions w s) as [e|c]; [discriminate|].
  destruct (parse (default "" c)) as [v'|] eqn:Hp; [|discriminate].
  intros _. exists (default "" c). split; [reflexivity|].
  rewrite <- Hparse, Hp. reflexivity.
Qed.

Lemma triple_chat {A} k s (parse : string -> option A) :
  stages !! k = Some s ->
  (forall text, defined (parse text) = parses w s text) ->
  triple (Traced k 0 []) (callOpenAIJson w s parse)
    (fun _ => Traced (S k) 0 []) (fun _ => Ordered).
Proof.
  intros Hk Hparse st [[Hev _] HS].
  assert (k < 3)%nat as Hlt by (apply lookup_lt_Some in Hk; exact Hk).
  assert (Trace jobId e0 (S k) 0 [] (callOpenAIJson w s parse st).1) as HT.
  { split; [|constructor].
    rewrite callOpenAIJson_events, Hev.
    erewrite (take_S_r chats k (EvChat s)).
    - rewrite !take_0, !app_nil_r, <- !app_assoc. reflexivity.
    - unfold chats. change (map EvChat stages) with (EvChat <$> stages).
      rewrite list_lookup_fmap, Hk. reflexivity. }
  destruct (callOpenAIJson w s parse st) as [st' [e|a]] eqn:Hcall; simpl in HT.
  - exists (S k), 0%nat, []. repeat split; auto; try lia; try apply HT.
    replace (S k - 1)%nat with k by lia. exact HS.
  - split; [exact HT|].
    apply (succeeded_S k s Hk HS).
    eapply callOpenAIJson_succeeds; eassumption.
Qed.

(** A write adds its event when it succeeds and nothing when it fails. *)
Lemma triple_write m p c :
  artifact_paths jobId !! m = Some p ->
  triple (Traced 3 m []) (writeFileSafe w p c)
    (fun _ => Traced 3 (S m) []) (fun _ => Ordered).
Proof.
  intros Hm st [[Hev _] HS].
  assert (m < 6)%nat as Hlt by (apply lookup_lt_Some in Hm; exact Hm).
  assert (Ordered st) as Hfail.
  { apply (Traced_Ordered 3 m); try lia.
    repeat split; [exact Hev | constructor | exact HS]. }
  unfold writeFileSafe, ensureDir, bind, lift, writeFileSync.
  destruct (mkdirSync_error w (dirname p)) as [e|]; [exact Hfail|].
  destruct (writeFileSync_error w p) as [e|]; [exact Hfail|].
  - split; [|exact HS]. split; [|constructor]. cbn [events fst].
    erewrite (take_S_r (map EvWrite (artifact_paths jobId)) m (EvWrite p)).
    + rewrite Hev, !app_nil_r, <- !app_assoc. reflexivity.
    + change (map EvWrite (artifact_paths jobId))
        with (EvWrite <$> artifact_paths jobId).
      rewrite list_lookup_fmap, Hm. reflexivity.
Qed.

Lemma generateEditorialImage_events n name st :
  let dir := path_join (output_dir jobId) "Editorial_Posts" in
  exists ev,
    events (generateEditorialImage w n (path_join dir name) st).1 = events st ++ ev /\
    Forall (rendering_event jobId) ev.
Proof.
  intros dir. unfold generateEditorialImage, bind, emit, suspend; simpl.
  assert (rendering_event jobId (EvImage n)) as Himg by (left; eauto).
  assert (rendering_event jobId (EvWrite (path_join dir name))) as Hwr
    by (right; eauto).
  destruct (images_generate w n) as [e|[[|c b64]|]]; simpl;
    try (exists [EvImage n]; split;
         [reflexivity | constructor; [exact Himg | constructor]]).
  unfold ensureDir, lift, writeFileSync.
  destruct (mkdirSync_error w (dirname (path_join dir name))); simpl;
    [exists [EvImage n]; split; [reflexivity | constructor; [exact Himg | constructor]]|].
  destruct (writeFileSync_error w (path_join dir name)); simpl.
  - exists [EvImage n]. split; [reflexivity | constructor; [exact Himg | constructor]].
  - exists [EvImage n; EvWrite (path_join dir name)].
    split; [rewrite <- app_assoc; reflexivity|].
    constructor; [exact Himg|]. constructor; [exact Hwr | constructor].
Qed.

Lemma render_all_events n vs st :
  exists ev,
    events (render_all w (path_join (output_dir jobId) "Editorial_Posts") n vs st).1
      = events st ++ ev /\
    Forall (rendering_event jobId) ev.
Proof.
  revert n st. induction vs as [|v vs IH]; intros n st; simpl.
  - exists []. split; [symmetry; apply app_nil_r | constructor].
  - unfold bind.
    destruct (generateEditorialImage_events n (Js.str (v_id v) +:+ ".png") st)
      as (ev1 & He1 & Hr1).
    cbv zeta in He1.
    destruct (generateEditorialImage w n _ st) as [st1 [e|[]]]; simpl in He1.
    + exists ev1. split; assumption.
    + destruct (IH (S n) st1) as (ev2 & He2 & Hr2).
      exists (ev1 ++ ev2). split.
      * rewrite He2, He1, app_assoc. reflexivity.
      * apply Forall_app. split; assumption.
Qed.

Lemma triple_render n vs :
  triple (Traced 3 6 [])
    (render_all w (path_join (output_dir jobId) "Editorial_Posts") n vs)
    (fun _ => Rendering) (fun _ => Ordered).
Proof.
  intros st [[Hev _] HS].
  destruct (render_all_events n vs st) as (ev & He & Hr).
  set (dir := path_join (output_dir jobId) "Editorial_Posts") in *.
  assert (HT : Trace jobId e0 3 6 ev (render_all w dir n vs st).1).
  { split; [|exact Hr]. rewrite He, Hev, !app_nil_r, <- !app_assoc. reflexivity. }
  destruct (render_all w dir n vs st) as [st' [e|a]]; simpl in HT.
  - apply Rendering_Ordered. exists ev. split; assumption.
  - exists ev. split; assumption.
Qed.

Lemma triple_still {A} (m : M A) k n :
  (k <= 3)%nat -> (n <= 6)%nat -> ((k < 3)%nat -> n = 0%nat) ->
  preserves same_events m ->
  triple (Traced k n []) m (fun _ => Traced k n []) (fun _ => Ordered).
Proof.
  intros Hk Hn Hkn Hm. apply triple_same_events; [exact Hm | |].
  - intros st st'. apply Traced_same_events.
  - intros _ st. apply Traced_Ordered; assumption.
Qed.

Lemma triple_still_rendering {A} (m : M A) :
  preserves same_events m ->
  triple Rendering m (fun _ => Rendering) (fun _ => Ordered).
Proof.
  intros Hm. apply triple_same_events; [exact Hm | |].
  - intros st st' [imgs H] He. exists imgs. eapply Traced_same_events; eauto.
  - intros _ st. apply Rendering_Ordered.
Qed.

Lemma runJob_try_ordered job :
  triple (Traced 0 0 []) (runJob_try w jobId job)
    (fun _ => Ordered) (fun _ => Ordered).
Proof.
  unfold runJob_try.
  repeat
    lazymatch goal with
    | |- triple _ (bind (callOpenAIJson _ _ _) _) _ _ =>
        eapply triple_bind;
        [apply triple_chat; [reflexivity | intros; reflexivity] | intros ?]
    | |- triple _ (bind (writeFileSafe _ _ _) _) _ _ =>
        eapply triple_bind; [apply triple_write; reflexivity | intros ?]
    | |- triple _ (bind (render_all _ _ _ _) _) _ _ =>
        eapply triple_bind; [apply triple_render | intros ?]
    | |- triple _ (bind (assign _ _) _) _ _ =>
        eapply triple_bind;
        [first [ apply triple_still; [lia | lia | lia | apply same_events_assign]
               | apply triple_still_rendering; apply same_events_assign ]
        | intros ?]
    | |- triple _ (bind (lift _) _) _ _ =>
        eapply triple_bind;
        [apply triple_still;
         [lia | lia | lia | apply preserves_lift; typeclasses eauto]
        | intros ?]
    | |- triple _ (bind (ensureDir _ _) _) _ _ =>
        eapply triple_bind;
        [apply triple_still;
         [lia | lia | lia | apply preserves_ensureDir; typeclasses eauto]
        | intros ?]
    | |- triple _ (let _ := _ in _) _ _ => cbv zeta
    end.
  eapply triple_weaken;
    [apply triple_still_rendering; apply same_events_assign | auto | | auto].
  intros ? st. apply Rendering_Ordered.
Qed.

Lemma runJob_ordered st :
  events st = e0 -> Ordered (runJob w jobId st).1.
Proof.
  intros He.
  assert (Traced 0 0 [] st) as HT.
  { repeat split; try constructor. rewrite He. simpl. rewrite app_nil_r. reflexivity. }
  destruct (jobs st !! jobId) as [job|] eqn:Hj.
  - rewrite (runJob_present w _ _ _ Hj).
    pose proof (runJob_try_ordered job st HT) as Htry.
    destruct (runJob_try w jobId job st) as [st1 [e|[]]]; simpl; exact Htry.
  - rewrite (runJob_absent w _ _ Hj). simpl.
    apply (Traced_Ordered 0 0); try lia; try reflexivity. exact HT.
Qed.

End Order.

(** C4, amended. The structured calls are made one after the other, plan,
    captions, visual briefs, each only when every call before it has
    returned a document; nothing is written before the third has returned
    one; then the six JSON artifacts are written in a fixed order, and only
    after the sixth does the rendering loop call the image endpoint and
    write images. A run that fails stops somewhere along this sequence. *)
Theorem stages_in_order w jobId st :
  exists k m imgs,
    events (runJob w jobId st).1 =
      events st ++ take k chats ++
      take m (map EvWrite (artifact_paths jobId)) ++ imgs /\
    (k <= 3)%nat /\ (m <= 6)%nat /\
    Forall (stage_succeeds w) (take (k - 1) stages) /\
    ((0 < m)%nat -> Forall (stage_succeeds w) stages) /\
    ((k < 3)%nat -> m = 0%nat) /\
    ((m < 6)%nat -> imgs = []) /\
    Forall (rendering_event jobId) imgs.
Proof.
  destruct (runJob_ordered w jobId (events st) st eq_refl)
    as (k & m & imgs & [He Hr] & Hk3 & Hm6 & HS & HS3 & Hk & Hm).
  exists k, m, imgs. repeat split; auto.
Qed.

(** C4 as stated fails: in a run where every call succeeds the captions
    call and the visual-brief call are made before any artifact is
    written. *)
Lemma captions_before_plan_artifact :
  take 5 (events good_run) =
    [ EvChat PlanStage; EvChat CaptionsStage; EvChat VisualsStage;
      EvWrite "outputs/j1/content_plan.json"; EvWrite "outputs/j1/captions.json" ] /\
  ~ begins_after_write CaptionsStage "outputs/j1/content_plan.json" (events good_run) /\
  ~ begins_after_write VisualsStage "outputs/j1/captions.json" (events good_run).
Proof.
  split; [vm_compute; reflexivity|].
  split; intros H.
  - destruct (H 1%nat) as (k & Hk & Hw); [vm_compute; reflexivity|].
    assert (k = 0%nat) as -> by lia. vm_compute in Hw. discriminate.
  - destruct (H 2%nat) as (k & Hk & Hw); [vm_compute; reflexivity|].
    destruct k as [|[|k]]; [| |lia]; vm_compute in Hw; discriminate.
Qed.

(** ** Replies that do not parse *)

Section Malformed.

Variable w : World.

Lemma slice0_length n s : String.length (Js.slice0 n s) = Nat.min n (String.length s).
Proof.
  revert s. induction n as [|n IH]; intros [|c s]; simpl; auto.
Qed.

Lemma slice0_prefix n s : String.prefix (Js.slice0 n s) s = true.
Proof.
  revert s. induction n as [|n IH]; intros [|c s]; simpl; auto.
  destruct (Ascii.ascii_dec c c); [apply IH | congruence].
Qed.

Lemma slice0_all n s : Js.slice0 n s = s <-> (String.length s <= n)%nat.
Proof.
  revert s. induction n as [|n IH]; intros [|c s]; simpl;
    try (split; [lia | reflexivity]).
  - split; [discriminate | lia].
  - split.
    + intros [= H]. apply IH in H. lia.
    + intros H. f_equal. apply IH. lia.
Qed.

Lemma bind_returns {A B} (m : M A) (k : A -> M B) st st' a :
  m st = (st', inr a) -> bind m k st = k a st'.
Proof. intros H. unfold bind. rewrite H. reflexivity. Qed.

Lemma bind_throws {A B} (m : M A) (k : A -> M B) st st' e :
  m st = (st', inl e) -> bind m k st = (st', inl e).
Proof. intros H. unfold bind. rewrite H. reflexivity. Qed.

Lemma callOpenAIJson_returns {A} s (parse : string -> option A) st c v :
  chat_completions w s = Resolved c -> parse (default "" c) = Some v ->
  callOpenAIJson w s parse st = (called s st, inr v).
Proof.
  intros Hc Hp. unfold callOpenAIJson, bind, emit, suspend. simpl.
  rewrite Hc, Hp. reflexivity.
Qed.

Lemma callOpenAIJson_malformed {A} s (parse : string -> option A) st c :
  chat_completions w s = Resolved c -> parse (default "" c) = None ->
  callOpenAIJson w s parse st = (called s st, inl (parse_failed (default "" c))).
Proof.
  intros Hc Hp. unfold callOpenAIJson, bind, emit, suspend. simpl.
  rewrite Hc, Hp. reflexivity.
Qed.

Lemma reply_text_inv s text :
  reply_text w s = Some text ->
  exists c, chat_completions w s = Resolved c /\ default "" c = text.
Proof.
  unfold reply_text. destruct (chat_completions w s) as [e|c]; [discriminate|].
  intros [= <-]. eauto.
Qed.

Lemma defined_true {A} (o : option A) : defined o = true -> exists v, o = Some v.
Proof. destruct o; [eauto | discriminate]. Qed.

Lemma defined_false {A} (o : option A) : defined o = false -> o = None.
Proof. destruct o; [discriminate | reflexivity]. Qed.

(** A reply that is not JSON, at the first stage that fails: the [try]
    block throws the parse error, having made the calls up to that stage
    and written nothing. *)
Lemma runJob_try_malformed jobId job st s text :
  reaches w (input job) s -> malformed w s text ->
  exists st1,
    runJob_try w jobId job st = (st1, inl (parse_failed text)) /\
    disk st1 = disk st /\
    events st1 = events st ++ map EvChat (earlier s ++ [s]).
Proof.
  intros [Hprompt Hearlier] [Htext Hbad].
  apply reply_text_inv in Htext as (c & Hc & <-).
  unfold runJob_try.
  erewrite bind_returns by reflexivity.
  erewrite bind_returns by reflexivity.
  rewrite Hprompt. erewrite bind_returns by reflexivity.
  destruct s; simpl in Hbad, Hearlier; apply defined_false in Hbad.
  - erewrite bind_throws by (eapply callOpenAIJson_malformed; eassumption).
    eexists. split; [reflexivity|]. split; reflexivity.
  - apply Forall_cons in Hearlier as [(t1 & Ht1 & Hp1) _].
    apply reply_text_inv in Ht1 as (c1 & Hc1 & <-).
    apply defined_true in Hp1 as (v1 & Hp1).
    erewrite bind_returns by (eapply callOpenAIJson_returns; eassumption).
    cbv zeta. erewrite bind_returns by reflexivity.
    erewrite bind_throws by (eapply callOpenAIJson_malformed; eassumption).
    eexists. split; [reflexivity|]. split; [reflexivity|].
    simpl. rewrite <- !app_assoc. reflexivity.
  - apply Forall_cons in Hearlier as [(t1 & Ht1 & Hp1) Hearlier].
    apply Forall_cons in Hearlier as [(t2 & Ht2 & Hp2) _].
    apply reply_text_inv in Ht1 as (c1 & Hc1 & <-).
    apply reply_text_inv in Ht2 as (c2 & Hc2 & <-).
    apply defined_true in Hp1 as (v1 & Hp1).
    apply defined_true in Hp2 as (v2 & Hp2).
    erewrite bind_returns by (eapply callOpenAIJson_returns; eassumption).
    cbv zeta. erewrite bind_returns by reflexivity.
    erewrite bind_returns by (eapply callOpenAIJson_returns; eassumption).
    erewrite bind_returns by reflexivity.
    erewrite bind_throws by (eapply callOpenAIJson_malformed; eassumption).
    eexists. split; [reflexivity|]. split; [reflexivity|].
    simpl. rewrite <- !app_assoc. reflexivity.
Qed.

End Malformed.

(** C6, amended. A reply that is not JSON makes [callOpenAIJson] throw an
    error whose message is a fixed header followed by the first 200
    characters of the reply: a prefix of the reply, the whole of it exactly
    when the reply has at most 200 characters. When this is the first
    failure of a job, the job ends in [error] with that message and no file
    is written: the only events of the run are the structured calls up to
    the failing one. *)
Theorem malformed_reply w jobId job st s text :
  jobs st !! jobId = Some job ->
  reaches w (input job) s ->
  malformed w s text ->
  let st' := (runJob w jobId st).1 in
  let excerpt := Js.slice0 200 text in
  message (parse_failed text) = Some (parse_failed_message text) /\
  (String.length excerpt <= 200)%nat /\
  String.prefix excerpt text = true /\
  (excerpt = text <-> (String.length text <= 200)%nat) /\
  (exists j, jobs st' !! jobId = Some j /\ status j = Error /\
             error j = Some (parse_failed_message text)) /\
  disk st' = disk st /\
  events st' = events st ++ map EvChat (earlier s ++ [s]).
Proof.
  intros Hj Hreach Hbad st' excerpt. subst st' excerpt.
  destruct (runJob_try_malformed w jobId job st s text Hreach Hbad)
    as (st1 & Htry & Hdisk & Hev).
  destruct (runJob_after_throw w _ _ _ _ _ Hj Htry) as (job1 & Hj1 & Hrun).
  rewrite Hrun. cbn [fst jobs disk events]. rewrite lookup_insert_eq.
  split; [reflexivity|].
  split; [rewrite slice0_length; lia|].
  split; [apply slice0_prefix|].
  split; [apply slice0_all|].
  split; [|split; assumption].
  eexists. split; [reflexivity|]. split; reflexivity.
Qed.

Lemma malformed_reply_witness :
  let text := "Sure! Here are your captions." in
  let job := mkJob "j1" Queued 0 (Some good_context) 1700000000000 None None in
  let st := mkState {[ "j1" := job ]} ∅ [] [job] [] in
  let st' := (runJob prose_world "j1" st).1 in
  let excerpt := Js.slice0 200 text in
  jobs st !! "j1" = Some job /\
  reaches prose_world (input job) CaptionsStage /\
  malformed prose_world CaptionsStage text /\
  message (parse_failed text) = Some (parse_failed_message text) /\
  (String.length excerpt <= 200)%nat /\
  String.prefix excerpt text = true /\
  (excerpt = text <-> (String.length text <= 200)%nat) /\
  (exists j, jobs st' !! "j1" = Some j /\ status j = Error /\
             error j = Some (parse_failed_message text)) /\
  disk st' = disk st /\
  events st' = events st ++ map EvChat (earlier CaptionsStage ++ [CaptionsStage]).
Proof.
  intros text job st st' excerpt.
  assert (reaches prose_world (input job) CaptionsStage) as Hreach.
  { split; [reflexivity|]. repeat constructor. exists "PLAN". split; reflexivity. }
  assert (malformed prose_world CaptionsStage text) as Hbad by (split; reflexivity).
  split; [reflexivity|]. split; [exact Hreach|]. split; [exact Hbad|].
  apply (malformed_reply prose_world "j1" job st CaptionsStage text);
    [reflexivity | exact Hreach | exact Hbad].
Defined.

(** C6 as stated fails for a short reply: the message then carries the
    reply in full. *)
Lemma short_reply_quoted_in_full :
  let text := "Sure! Here are your captions." in
  let st' :=
    (submit prose_world "j1" 1700000000000 (request (Some "CONTEXT")) initial_state).1 in
  chat_completions prose_world CaptionsStage = Resolved (Some text) /\
  JSON_parse_captions prose_world text = None /\
  error <$> jobs st' !! "j1" =
    Some (Some ("JSON parse failed. First 200 chars:" +:+ newline +:+ text)) /\
  Js.slice0 200 text = text.
Proof. repeat split; vm_compute; reflexivity. Qed.

(** ** The two routes *)

(** C9, amended. A status request for an identifier that is not in the
    table is answered 404 with the body [{ error: "Not found" }]. A
    submission is answered by the framework, with 500 and with nothing
    stored, when its files do not pass the upload filter, when it has no
    body, or when its [input_json] is not JSON. Every other submission,
    whose [input_json] parses or is absent, is stored and answered with
    its job identifier, whatever the shape of the parsed context. *)
Theorem routes_answer w table id jobId now req st :
  (table !! id = None -> getStatus table id = Respond 404 (BodyError "Not found")) /\
  (upload_array "product_images" 3 req = false ->
     submit w jobId now req st = (st, Uncaught)) /\
  (req_body req = None -> submit w jobId now req st = (st, Uncaught)) /\
  (forall input_json,
     req_body req = Some input_json ->
     JSON_parse_input w (Js.or_else input_json "{}") = None ->
     submit w jobId now req st = (st, Uncaught)) /\
  status_code Uncaught = 500%nat /\
  (forall brandContext,
     admits w req brandContext ->
     (submit w jobId now req st).2 = Respond 200 (BodyJobId jobId) /\
     exists job, jobs (submit w jobId now req st).1 !! jobId = Some job /\
                 job_id job = jobId /\ input job = brandContext /\
                 createdAt job = now) /\
  ((exists brandContext, admits w req brandContext) \/
   submit w jobId now req st = (st, Uncaught)).
Proof.
  split; [|split; [|split; [|split; [|split; [reflexivity|split]]]]].
  - intros H. unfold getStatus. rewrite H. reflexivity.
  - intros H. unfold submit. rewrite H. reflexivity.
  - intros H. unfold submit. rewrite H. destruct (upload_array _ _ _); reflexivity.
  - intros input_json Hb H. unfold submit. rewrite Hb, H.
    destruct (upload_array _ _ _); reflexivity.
  - intros brandContext Hadm. rewrite (submit_admitted w _ _ _ _ _ Hadm).
    split; [reflexivity|]. cbn [fst].
    destruct (keeps_artifacts_runJob w jobId (stored jobId now brandContext st))
      as (_ & _ & _ & _ & Hid).
    edestruct Hid as (job & Hjob & ? & ? & ?);
      [simpl; apply lookup_insert_eq|].
    exists job. auto.
  - apply submit_cases.
Qed.

Lemma routes_answer_witness :
  let now := 1700000000000 in
  (jobs good_run !! "j2" = None /\
   getStatus (jobs good_run) "j2" = Respond 404 (BodyError "Not found")) /\
  (upload_array "product_images" 3
     (mkRequest ["product_images"; "logo"] (Some (Some "CONTEXT"))) = false /\
   submit good_world "j1" now
     (mkRequest ["product_images"; "logo"] (Some (Some "CONTEXT"))) initial_state =
     (initial_state, Uncaught)) /\
  (req_body (mkRequest [] None) = None /\
   submit good_world "j1" now (mkRequest [] None) initial_state =
     (initial_state, Uncaught)) /\
  (JSON_parse_input good_world (Js.or_else (Some "not json") "{}") = None /\
   submit good_world "j1" now (request (Some "not json")) initial_state =
     (initial_state, Uncaught)) /\
  status_code Uncaught = 500%nat /\
  (admits good_world (request (Some "CONTEXT")) (Some good_context) /\
   (submit good_world "j1" now (request (Some "CONTEXT")) initial_state).2 =
     Respond 200 (BodyJobId "j1") /\
   exists job,
     jobs (submit good_world "j1" now (request (Some "CONTEXT")) initial_state).1 !! "j1"
       = Some job /\
     job_id job = "j1" /\ input job = Some good_context /\
     createdAt job = now).
Proof.
  intros now.
  pose proof (routes_answer good_world (jobs good_run) "j2" "j1" now
                (mkRequest ["product_images"; "logo"] (Some (Some "CONTEXT")))
                initial_state) as (H404 & Hfiles & _).
  pose proof (routes_answer good_world (jobs good_run) "j2" "j1" now
                (mkRequest [] None) initial_state) as (_ & _ & Hbody & _).
  pose proof (routes_answer good_world (jobs good_run) "j2" "j1" now
                (request (Some "not json")) initial_state) as (_ & _ & _ & Hjson & _).
  pose proof (routes_answer good_world (jobs good_run) "j2" "j1" now
                (request (Some "CONTEXT")) initial_state)
    as (_ & _ & _ & _ & H500 & H200 & _).
  assert (admits good_world (request (Some "CONTEXT")) (Some good_context)) as Hadm
    by (split; [reflexivity | exists (Some "CONTEXT"); split; reflexivity]).
  split; [split; [reflexivity | apply H404; reflexivity]|].
  split; [split; [reflexivity | apply Hfiles; reflexivity]|].
  split; [split; [reflexivity | apply Hbody; reflexivity]|].
  split; [split; [reflexivity | apply (Hjson (Some "not json")); reflexivity]|].
  split; [exact H500|].
  split; [exact Hadm | apply H200, Hadm].
Defined.

(** C9 as stated fails: a submission whose campaign context is an object
    without any field, for which the plan prompt cannot even be built, is
    answered with a job identifier; the failure shows only later, on the
    job. *)
Lemma empty_context_accepted :
  let r := submit good_world "j1" 1700000000000 (request (Some "{}")) initial_state in
  admits good_world (request (Some "{}")) (Some empty_context) /\
  promptPlan (Some empty_context) =
    inl (mkError "Cannot read properties of undefined (reading 'posts_count')") /\
  r.2 = Respond 200 (BodyJobId "j1") /\
  status_code r.2 = 200%nat /\
  (fun j => (status j, error j)) <$> jobs r.1 !! "j1" =
    Some (Error, Some "Cannot read properties of undefined (reading 'posts_count')").
Proof.
  split; [split; [reflexivity | exists (Some "{}"); split; reflexivity]|].
  repeat split; vm_compute; reflexivity.
Qed.

(** * Further properties of the code *)

(** ** Mode allocation *)

Section MixedModeMore.

Implicit Types (ps qs : list Post) (ids : gset (option string)).

Lemma filter_by_key (f : Post -> bool) ps qs :
  (forall p q, post_key p = post_key q -> f p = f q) ->
  map post_key ps = map post_key qs ->
  map post_key (List.filter f ps) = map post_key (List.filter f qs).
Proof.
  intros Hf. revert qs. induction ps as [|p ps IH]; intros [|q qs] H;
    cbn [map] in H; try discriminate; [reflexivity|].
  assert (post_key p = post_key q) as Hpq by congruence.
  assert (map post_key ps = map post_key qs) as Hrest by congruence.
  cbn [List.filter]. rewrite (Hf p q Hpq).
  destruct (f q); cbn [map]; [f_equal; [exact Hpq|]|]; apply IH; exact Hrest.
Qed.

Lemma is_promotional_key p q : post_key p = post_key q -> is_promotional p = is_promotional q.
Proof. unfold post_key, is_promotional. intros [= _ -> _ _]. reflexivity. Qed.

Lemma is_productish_key p q : post_key p = post_key q -> is_productish p = is_productish q.
Proof. unfold post_key, is_productish. intros [= _ _ -> ->]. reflexivity. Qed.

Lemma chosenIds_by_key ps qs :
  map post_key ps = map post_key qs -> chosenIds ps = chosenIds qs.
Proof.
  intros H. unfold chosenIds. f_equal.
  assert (forall l l' : list Post, map post_key l = map post_key l' -> map id l = map id l')
    as Hid.
  { intros l l' E. apply (f_equal (map (fun k => k.1.1.1))) in E.
    rewrite !map_map in E. exact E. }
  apply Hid. rewrite !chosen_take_4, <- !firstn_map, !map_app. f_equal.
  assert (map post_key (List.filter (fun p => negb (is_promotional p)) ps) =
          map post_key (List.filter (fun p => negb (is_promotional p)) qs)) as Hrem.
  { apply filter_by_key; [|exact H].
    intros p q E. rewrite (is_promotional_key p q E). reflexivity. }
  f_equal; [|f_equal].
  - apply filter_by_key; [exact is_promotional_key | exact H].
  - apply filter_by_key; [exact is_productish_key | exact Hrem].
  - exact Hrem.
Qed.

Lemma visual_mode_tagged ids ps :
  map visual_mode (map (tag ids) ps) =
  map (fun i => Some (if bool_decide (i ∈ ids) then "product_model" else "editorial"))
    (map id ps).
Proof. rewrite !map_map. reflexivity. Qed.

(** X1. The allocation depends on a plan only through the identifier, the
    type, the topic and the angle of its posts: plans that agree on these
    get the same visual modes, whatever modes they carried before. *)
Theorem allocation_reads_only_the_key planJson planJson' :
  map post_key (posts_of planJson) = map post_key (posts_of planJson') ->
  map visual_mode (posts_of (applyMixedMode planJson)) =
  map visual_mode (posts_of (applyMixedMode planJson')).
Proof.
  intros H. rewrite !posts_of_applyMixedMode.
  rewrite (chosenIds_by_key _ _ H), !visual_mode_tagged.
  assert (map id (posts_of planJson) = map id (posts_of planJson')) as Hid.
  { apply (f_equal (map (fun k => k.1.1.1))) in H. rewrite !map_map in H. exact H. }
  rewrite Hid. reflexivity.
Qed.

Lemma allocation_reads_only_the_key_witness :
  let pretagged :=
    Some (mkPlanJson (Some (mkPlan None None
      (Some (map (set_visual_mode "product_model") six_posts))))) in
  map post_key (posts_of pretagged) = map post_key (posts_of six_plan) /\
  map visual_mode (posts_of (applyMixedMode pretagged)) =
  map visual_mode (posts_of (applyMixedMode six_plan)).
Proof.
  intros pretagged.
  split; [reflexivity | apply allocation_reads_only_the_key; reflexivity].
Defined.

(** X2. The allocation writes the visual mode and nothing else: the posts
    keep their number, their order and what the allocation reads of them,
    and the plan keeps its month and its post count. *)
Theorem applyMixedMode_only_tags planJson :
  map post_key (posts_of (applyMixedMode planJson)) = map post_key (posts_of planJson) /\
  applyMixedMode planJson ?. plan ?. month = planJson ?. plan ?. month /\
  applyMixedMode planJson ?. plan ?. posts_count = planJson ?. plan ?. posts_count /\
  (posts_of planJson <> [] ->
   Forall (fun p => visual_mode p = Some "product_model" \/
                    visual_mode p = Some "editorial")
     (posts_of (applyMixedMode planJson))).
Proof.
  split; [|split; [|split]].
  - rewrite posts_of_applyMixedMode, map_map. reflexivity.
  - unfold applyMixedMode. destruct (length (posts_of planJson) =? 0)%nat; [reflexivity|].
    destruct planJson as [[[[m c [qs|]]|]]|]; reflexivity.
  - unfold applyMixedMode. destruct (length (posts_of planJson) =? 0)%nat; [reflexivity|].
    destruct planJson as [[[[m c [qs|]]|]]|]; reflexivity.
  - intros Hne. apply Forall_forall. intros p Hp.
    eapply applyMixedMode_tags_every_post; eassumption.
Qed.

(** X3. When a plan has at most four promotional posts, every one of them
    is tagged [product_model]. *)
Theorem promotional_posts_are_product planJson p :
  (length (List.filter is_promotional (posts_of planJson)) <= 4)%nat ->
  p ∈ posts_of (applyMixedMode planJson) ->
  post_type p = Some "promotional" ->
  visual_mode p = Some "product_model".
Proof.
  intros Hlen Hp Hty. rewrite posts_of_applyMixedMode in Hp.
  apply list_elem_of_In, in_map_iff in Hp as (q & <- & Hq).
  unfold tag. simpl. rewrite bool_decide_eq_true_2; [reflexivity|].
  unfold chosenIds. apply elem_of_list_to_set.
  apply list_elem_of_In, in_map. rewrite chosen_take_4.
  rewrite take_app_ge by exact Hlen.
  apply in_or_app. left. apply filter_In. split; [exact Hq|].
  unfold is_promotional. apply bool_decide_eq_true_2. exact Hty.
Qed.

Lemma promotional_posts_are_product_witness :
  let p := mkPost (Some "P05") (Some "promotional") (Some "Spring bundle") (Some "")
             (Some "product_model") in
  (length (List.filter is_promotional (posts_of six_plan)) <= 4)%nat /\
  p ∈ posts_of (applyMixedMode six_plan) /\
  post_type p = Some "promotional" /\
  visual_mode p = Some "product_model".
Proof.
  intros p.
  assert (length (List.filter is_promotional (posts_of six_plan)) <= 4)%nat as H1
    by (vm_compute; lia).
  assert (p ∈ posts_of (applyMixedMode six_plan)) as H2
    by (apply (bool_decide_unpack _); vm_compute; exact I).
  split; [exact H1|]. split; [exact H2|]. split; [reflexivity|].
  apply (promotional_posts_are_product six_plan p H1 H2). reflexivity.
Defined.

Lemma partition_perm {A} (f : A -> bool) (l : list A) :
  List.filter f l ++ List.filter (fun x => negb (f x)) l ≡ₚ l.
Proof.
  induction l as [|x l IH]; simpl; [reflexivity|].
  destruct (f x); simpl.
  - constructor. exact IH.
  - rewrite <- Permutation_middle. constructor. exact IH.
Qed.

Lemma partition_length {A} (f : A -> bool) (l : list A) :
  (length (List.filter f l) + length (List.filter (fun x => negb (f x)) l) = length l)%nat.
Proof. rewrite <- length_app. apply Permutation_length, partition_perm. Qed.

(** The worded priority order lists every post once. *)
Lemma spec_priority_order_perm ps : spec_priority_order ps ≡ₚ ps.
Proof.
  unfold spec_priority_order.
  rewrite <- !filter_filter_andb.
  rewrite (partition_perm is_productish
             (List.filter (fun p => negb (is_promotional p)) ps)).
  apply partition_perm.
Qed.

Lemma NoDup_map_filter (f : Post -> bool) ps :
  NoDup (map id ps) -> NoDup (map id (List.filter f ps)).
Proof.
  induction ps as [|p ps IH]; simpl; [constructor|].
  intros [Hp Hnd]%NoDup_cons.
  destruct (f p); simpl; [|auto].
  apply NoDup_cons. split; [|auto].
  intros Hin. apply Hp.
  apply list_elem_of_In, in_map_iff in Hin as (q & Hq & Hin).
  apply filter_In in Hin as [Hin _].
  apply list_elem_of_In, in_map_iff. eauto.
Qed.

(** With distinct identifiers, tagging by the identifiers of [l], a list
    of posts of the plan, tags as many posts as [l] has. *)
Lemma tagged_by_ids_of ps l :
  NoDup (map id ps) -> NoDup (map id l) -> (forall p, p ∈ l -> p ∈ ps) ->
  length (List.filter
            (fun p => bool_decide (id p ∈ (list_to_set (map id l) : gset (option string))))
            ps) = length l.
Proof.
  intros Hps Hl Hsub.
  rewrite <- (length_map id), <- (length_map id l).
  apply Permutation_length, NoDup_Permutation;
    [apply NoDup_map_filter; exact Hps | exact Hl |].
  intros x. split.
  - intros (q & <- & Hq)%list_elem_of_In%in_map_iff.
    apply filter_In in Hq as [_ Hq]. apply bool_decide_eq_true in Hq.
    apply elem_of_list_to_set in Hq. exact Hq.
  - intros Hx. pose proof Hx as (q & <- & Hq)%list_elem_of_In%in_map_iff.
    apply list_elem_of_In, in_map_iff. exists q. split; [reflexivity|].
    apply filter_In. split.
    + apply list_elem_of_In, Hsub, list_elem_of_In. exact Hq.
    + apply bool_decide_eq_true_2, elem_of_list_to_set. exact Hx.
Qed.

Lemma count_mode_editorial_tagged ids ps :
  count_mode "editorial" (map (tag ids) ps) =
  length (List.filter (fun p => negb (bool_decide (id p ∈ ids))) ps).
Proof.
  unfold count_mode.
  induction ps as [|p ps IH]; simpl; [reflexivity|].
  destruct (bool_decide (id p ∈ ids)); simpl; rewrite <- IH; reflexivity.
Qed.

(** X5. When the identifiers are distinct and the plan has at least four
    posts, the allocation tags exactly four posts [product_model] and all
    the others [editorial], provided the third loop meets no post a second
    time: no post that is not promotional has a keyword, or promotional and
    keyword posts already fill the four places. *)
Theorem four_product_posts planJson :
  let ps := posts_of planJson in
  let remaining := List.filter (fun p => negb (is_promotional p)) ps in
  NoDup (map id ps) ->
  (4 <= length ps)%nat ->
  List.filter is_productish remaining = [] \/
  (4 <= length (List.filter is_promotional ps) +
        length (List.filter is_productish remaining))%nat ->
  count_mode "product_model" (posts_of (applyMixedMode planJson)) = 4%nat /\
  count_mode "editorial" (posts_of (applyMixedMode planJson)) = (length ps - 4)%nat.
Proof.
  intros ps remaining Hnd Hlen Hcond.
  rewrite posts_of_applyMixedMode. fold ps.
  assert (chosenIds ps = spec_product_ids ps) as Hids.
  { destruct Hcond as [H|H];
      [apply chosenIds_without_keywords | apply chosenIds_four_by_priority]; exact H. }
  rewrite count_mode_product_tagged, count_mode_editorial_tagged.
  pose proof (partition_length (fun p => bool_decide (id p ∈ chosenIds ps)) ps) as Hsum.
  rewrite Hids in *. unfold spec_product_ids in *.
  set (l := take 4 (spec_priority_order ps)) in *.
  pose proof (spec_priority_order_perm ps) as Hperm.
  assert (length l = 4%nat) as Hl.
  { unfold l. rewrite length_take, (Permutation_length Hperm). lia. }
  assert (length (List.filter
            (fun p => bool_decide (id p ∈ (list_to_set (map id l) : gset (option string))))
            ps) = length l) as Hcount.
  { apply tagged_by_ids_of; [exact Hnd | |].
    - assert (NoDup (map id (spec_priority_order ps))) as Hall.
      { assert (map id (spec_priority_order ps) ≡ₚ map id ps) as Hp
          by (apply Permutation_map; exact Hperm).
        rewrite Hp. exact Hnd. }
      eapply sublist_NoDup; [exact Hall|].
      unfold l. rewrite <- firstn_map. apply sublist_take.
    - intros p Hp. rewrite <- Hperm. unfold l in Hp.
      apply elem_of_take in Hp as (i & Hi & _).
      eapply list_elem_of_lookup_2. exact Hi. }
  rewrite Hcount in *. lia.
Qed.

Lemma four_product_posts_witness :
  let plan :=
    Some (mkPlanJson (Some (mkPlan None None (Some
      [ post "P01" "educational" "Morning routines";
        post "P02" "authority" "Why we source locally";
        post "P03" "promotional" "Spring bundle";
        post "P04" "relatable" "A slow Sunday";
        post "P05" "educational" "Steeping times" ])))) in
  let ps := posts_of plan in
  let remaining := List.filter (fun p => negb (is_promotional p)) ps in
  NoDup (map id ps) /\
  (4 <= length ps)%nat /\
  (List.filter is_productish remaining = [] \/
   (4 <= length (List.filter is_promotional ps) +
         length (List.filter is_productish remaining))%nat) /\
  count_mode "product_model" (posts_of (applyMixedMode plan)) = 4%nat /\
  count_mode "editorial" (posts_of (applyMixedMode plan)) = (length ps - 4)%nat.
Proof.
  intros plan ps remaining.
  assert (NoDup (map id ps)) as H1
    by (apply (bool_decide_unpack _); vm_compute; exact I).
  assert (4 <= length ps)%nat as H2 by (vm_compute; lia).
  assert (List.filter is_productish remaining = [] \/
          (4 <= length (List.filter is_promotional ps) +
                length (List.filter is_productish remaining))%nat) as H3
    by (left; vm_compute; reflexivity).
  split; [exact H1|]. split; [exact H2|]. split; [exact H3|].
  apply (four_product_posts plan H1 H2 H3).
Defined.

End MixedModeMore.

(** ** Slugs *)

Section Slugs.

Lemma dash_is_no_slug_char : is_slug_char "-" = false.
Proof. reflexivity. Qed.

Lemma slug_char_is_no_dash c : is_slug_char c = true -> Ascii.eqb c "-" = false.
Proof.
  intros H. destruct (Ascii.eqb_spec c "-") as [->|]; [|reflexivity].
  rewrite dash_is_no_slug_char in H. discriminate.
Qed.

Lemma drop_last_dash_cons c s :
  Ascii.eqb c "-" = false -> drop_last_dash (String c s) = String c (drop_last_dash s).
Proof.
  destruct c as [[] [] [] [] [] [] [] []]; intros H; try reflexivity;
    destruct s; try reflexivity; discriminate.
Qed.

Lemma drop_last_dash_dash s :
  drop_last_dash (String "-" s) =
  match s with EmptyString => EmptyString | _ => String "-" (drop_last_dash s) end.
Proof. destruct s; reflexivity. Qed.

Lemma trim_dashes_cons c s :
  Ascii.eqb c "-" = false -> trim_dashes (String c s) = drop_last_dash (String c s).
Proof.
  destruct c as [[] [] [] [] [] [] [] []]; intros H; try reflexivity; discriminate.
Qed.

Lemma dash_runs_ok b s : runs_ok b (dash_runs b s) = true.
Proof.
  revert b. induction s as [|c s IH]; intros b; simpl; [reflexivity|].
  destruct (is_slug_char c) eqn:Hc; simpl.
  - rewrite Hc. apply IH.
  - destruct b; [apply IH|]. simpl. apply IH.
Qed.

Lemma drop_last_dash_slug b s :
  runs_ok b s = true -> (s = EmptyString -> b = false) ->
  slug_from b (drop_last_dash s) = true.
Proof.
  revert b. induction s as [|c s IH]; intros b Hok Hb.
  - simpl. rewrite Hb; reflexivity.
  - simpl in Hok. destruct (is_slug_char c) eqn:Hc.
    + rewrite drop_last_dash_cons by (apply slug_char_is_no_dash; exact Hc).
      simpl. rewrite Hc. apply IH; [exact Hok | reflexivity].
    + destruct (Ascii.eqb_spec c "-") as [->|]; [|discriminate].
      apply andb_prop in Hok as [Hb' Hok]. destruct b; [discriminate|].
      rewrite drop_last_dash_dash. destruct s as [|c' s]; [reflexivity|].
      cbn [slug_from]. rewrite dash_is_no_slug_char. simpl Ascii.eqb. cbn [negb andb].
      apply IH; [exact Hok | discriminate].
Qed.

Lemma trim_dashes_slug s : runs_ok false s = true -> is_slug (trim_dashes s) = true.
Proof.
  destruct s as [|c s]; [reflexivity|]. intros Hok.
  pose proof Hok as Hok'. simpl in Hok.
  destruct (is_slug_char c) eqn:Hc.
  - rewrite trim_dashes_cons by (apply slug_char_is_no_dash; exact Hc).
    pose proof (drop_last_dash_slug false _ Hok' (fun _ => eq_refl)) as H.
    rewrite drop_last_dash_cons in * by (apply slug_char_is_no_dash; exact Hc).
    simpl in *. rewrite Hc in *. exact H.
  - destruct (Ascii.eqb_spec c "-") as [->|]; [|discriminate].
    change (trim_dashes (String "-" s)) with (drop_last_dash s).
    destruct s as [|c' s]; [reflexivity|].
    pose proof (drop_last_dash_slug true (String c' s) Hok) as H.
    destruct (drop_last_dash (String c' s)); [reflexivity|].
    apply H. discriminate.
Qed.

Lemma slugify_slug (name : option string) : is_slug (slugify name) = true.
Proof. unfold slugify. apply trim_dashes_slug, dash_runs_ok. Qed.

(** X6. Whatever the brand name, [slugify] returns a slug: lowercase
    letters and digits in groups separated by single dashes, with no dash
    at either end (possibly the empty string). So the [brand_id] of the
    default brand style is a slug for every input. *)
Theorem slugify_is_slug (name : option string) (input : option Context) :
  is_slug (slugify name) = true /\
  is_slug (brand_id (makeDefaultBrandStyle input)) = true.
Proof. split; [apply slugify_slug | apply slugify_slug]. Qed.

Lemma lower_slug_char c :
  is_slug_char c = true \/ c = "-"%char -> Js.lower_ascii c = c.
Proof.
  intros [H| ->]; [|reflexivity].
  unfold Js.lower_ascii, is_slug_char in *.
  destruct (Nat.leb_spec 65 (nat_of_ascii c)), (Nat.leb_spec (nat_of_ascii c) 90);
    simpl; try reflexivity.
  destruct (Nat.leb_spec 97 (nat_of_ascii c)), (Nat.leb_spec (nat_of_ascii c) 122),
    (Nat.leb_spec 48 (nat_of_ascii c)), (Nat.leb_spec (nat_of_ascii c) 57);
    simpl in H; try discriminate; lia.
Qed.

Lemma runs_ok_fixed b s :
  runs_ok b s = true ->
  Js.toLowerCase s = s /\ dash_runs b s = s.
Proof.
  revert b. induction s as [|c s IH]; intros b H; [split; reflexivity|].
  simpl in *. destruct (is_slug_char c) eqn:Hc.
  - destruct (IH false H) as [H1 H2].
    rewrite lower_slug_char, H1, H2 by auto. split; reflexivity.
  - destruct (Ascii.eqb_spec c "-") as [->|]; [|discriminate].
    apply andb_prop in H as [Hb H]. destruct b; [discriminate|].
    destruct (IH true H) as [H1 H2].
    rewrite H1, H2. split; reflexivity.
Qed.

Lemma slug_from_runs_ok b s : slug_from b s = true -> runs_ok b s = true.
Proof.
  revert b. induction s as [|c s IH]; intros b H; [reflexivity|].
  simpl in *. destruct (is_slug_char c); [auto|].
  destruct (Ascii.eqb c "-"); [|discriminate].
  apply andb_prop in H as [-> H]. simpl. auto.
Qed.

Lemma slug_from_drop_last_dash b s :
  slug_from b s = true -> drop_last_dash s = s.
Proof.
  revert b. induction s as [|c s IH]; intros b H; [reflexivity|].
  simpl in H. destruct (is_slug_char c) eqn:Hc.
  - rewrite drop_last_dash_cons by (apply slug_char_is_no_dash; exact Hc).
    f_equal. eapply IH. exact H.
  - destruct (Ascii.eqb_spec c "-") as [->|]; [|discriminate].
    apply andb_prop in H as [_ H].
    rewrite drop_last_dash_dash. destruct s as [|c' s]; [discriminate|].
    f_equal. eapply IH. exact H.
Qed.

(** X7. [slugify] leaves a non-empty slug as it is; in particular it fixes
    its own results, except that the empty result turns into "brand". *)
Theorem slugify_fixes_slugs (s : string) :
  is_slug s = true -> s <> EmptyString -> slugify (Some s) = s.
Proof.
  intros Hs Hne. destruct s as [|c s]; [congruence|].
  unfold is_slug in Hs. unfold slugify.
  change (Js.or_else (Some (String c s)) "brand") with (String c s).
  destruct (runs_ok_fixed true _ (slug_from_runs_ok _ _ Hs)) as [H1 _].
  rewrite H1.
  pose proof Hs as Hs'. simpl in Hs.
  destruct (is_slug_char c) eqn:Hc.
  - assert (slug_from false (String c s) = true) as Hf by (simpl; rewrite Hc; exact Hs).
    destruct (runs_ok_fixed false _ (slug_from_runs_ok _ _ Hf)) as [_ H2].
    rewrite H2, trim_dashes_cons by (apply slug_char_is_no_dash; exact Hc).
    eapply slug_from_drop_last_dash. exact Hf.
  - destruct (Ascii.eqb c "-"); simpl in Hs; discriminate.
Qed.

Lemma slugify_fixes_slugs_witness :
  is_slug "stay-contented" = true /\ "stay-contented" <> EmptyString /\
  slugify (Some "stay-contented") = "stay-contented".
Proof.
  split; [reflexivity|]. split; [discriminate|].
  apply slugify_fixes_slugs; [reflexivity | discriminate].
Defined.

End Slugs.

(** ** Compiled prompts *)

Section Prompts.

Lemma prefix_append t r : String.prefix t (t +:+ r) = true.
Proof.
  induction t as [|c t IH]; simpl; [destruct r; reflexivity|].
  destruct (Ascii.ascii_dec c c); [exact IH | congruence].
Qed.

Lemma prefix_append_l t a b :
  String.prefix t a = true -> String.prefix t (a +:+ b) = true.
Proof.
  revert a. induction t as [|c t IH]; intros a H.
  - destruct (a +:+ b); reflexivity.
  - destruct a as [|c' a]; [discriminate|]. simpl in *.
    destruct (Ascii.ascii_dec c c'); [auto | discriminate].
Qed.

Lemma includes_prefix s t : String.prefix t s = true -> Js.includes s t = true.
Proof. intros H. destruct s; cbn [Js.includes]; rewrite H; reflexivity. Qed.

Lemma includes_append_r a b t : Js.includes b t = true -> Js.includes (a +:+ b) t = true.
Proof.
  intros H. induction a as [|c a IH]; [exact H|].
  change (String c a +:+ b) with (String c (a +:+ b)). cbn [Js.includes].
  rewrite IH. apply orb_true_r.
Qed.

Lemma includes_append_l a b t : Js.includes a t = true -> Js.includes (a +:+ b) t = true.
Proof.
  induction a as [|c a IH]; cbn [Js.includes].
  - rewrite orb_false_r. intros H. apply includes_prefix.
    apply (prefix_append_l t EmptyString b H).
  - intros [H|H]%orb_prop;
      change (String c a +:+ b) with (String c (a +:+ b)); cbn [Js.includes].
    + change (String c (a +:+ b)) with (String c a +:+ b).
      rewrite (prefix_append_l t (String c a) b H). reflexivity.
    + rewrite IH by exact H. apply orb_true_r.
Qed.

Lemma includes_head t b : Js.includes (t +:+ b) t = true.
Proof. apply includes_prefix, prefix_append. Qed.

(** A text occurs in what is built around it. *)
Lemma includes_middle a t b : Js.includes (a +:+ t +:+ b) t = true.
Proof. apply includes_append_r, includes_prefix, prefix_append. Qed.

Lemma or_else_nonempty o d : d <> EmptyString -> Js.or_else o d <> EmptyString.
Proof. intros Hd. destruct o as [[|c s]|]; simpl; congruence. Qed.

(** X8. A product brief always has a product to show: its focus is the
    first product name when there is a non-empty one, else the offer
    summary when that is non-empty, else "the product", and never the
    empty string. The brief carries the identifier of its post and two
    variants, A and B, whose prompts both name the focus. *)
Theorem product_brief_names_a_product brandStyle post brandContext :
  let b := compileProductModelBrief brandStyle post brandContext in
  let first_name := brandContext ?. product_mode ?. product_names ?. head in
  let offer := brandContext ?. brand ?. offer_summary in
  product_focus b <> EmptyString /\
  product_focus b = Js.or_else first_name (Js.or_else offer "the product") /\
  brief_id b = id post /\
  map variant (variants b) = ["A"; "B"] /\
  Forall (fun v => Js.includes (prompt v) (product_focus b) = true) (variants b).
Proof.
  intros b first_name offer. subst b. unfold compileProductModelBrief. cbn zeta.
  cbn [product_focus brief_id variants map variant].
  fold first_name. fold offer.
  split; [apply or_else_nonempty, or_else_nonempty; discriminate|].
  split; [reflexivity|]. split; [reflexivity|]. split; [reflexivity|].
  repeat constructor; cbn [prompt]; apply includes_append_r, includes_middle.
Qed.

(** X9. The compiled editorial prompt quotes the headline of the brief,
    names its layout and its icon hint ("simple icon" when the brief has
    none), and the background and the mood of the brand style; a non-empty
    subtext is quoted too. The negative prompt is the same for every
    brief and every style. *)
Theorem editorial_prompt_quotes_the_brief brandStyle v brandStyle' v' :
  let p := compileEditorialPrompt brandStyle v in
  Js.includes p.1 (Js.str (headline v)) = true /\
  Js.includes p.1 (Js.str (layout v)) = true /\
  Js.includes p.1 (Js.or_else (icon_hint v) "simple icon") = true /\
  Js.includes p.1 (background brandStyle) = true /\
  Js.includes p.1 (mood brandStyle) = true /\
  Js.includes p.1 (Js.or_else (subtext v) "") = true /\
  p.2 = (compileEditorialPrompt brandStyle' v').2.
Proof.
  intros p. subst p. unfold compileEditorialPrompt. cbn zeta. cbn [fst snd].
  repeat split.
  - do 9 apply includes_append_r. apply includes_head.
  - do 17 apply includes_append_r. apply includes_head.
  - do 14 apply includes_append_r. apply includes_head.
  - do 2 apply includes_append_r. apply includes_head.
  - do 4 apply includes_append_r. apply includes_head.
  - do 12 apply includes_append_r.
    destruct (subtext v) as [[|c s]|]; cbn [Js.or_else].
    + apply includes_prefix. destruct (_ +:+ _); reflexivity.
    + apply includes_append_l. do 2 apply includes_append_r. apply includes_head.
    + apply includes_prefix. destruct (_ +:+ _); reflexivity.
Qed.

End Prompts.

(** ** The steps of a run, one at a time *)

Section Steps.

Variable w : World.

Lemma ensureDir_returns dir st :
  mkdirSync_error w dir = None -> ensureDir w dir st = (st, inr tt).
Proof. intros H. unfold ensureDir, lift. rewrite H. reflexivity. Qed.

Lemma ensureDir_throws dir st e :
  mkdirSync_error w dir = Some e -> ensureDir w dir st = (st, inl e).
Proof. intros H. unfold ensureDir, lift. rewrite H. reflexivity. Qed.

Lemma writeFileSafe_returns p c st :
  write_error w p = None ->
  writeFileSafe w p c st =
    (mkState (jobs st) (<[p := c]> (disk st)) (events st ++ [EvWrite p])
       (history st) (seen st),
     inr tt).
Proof.
  unfold write_error, writeFileSafe, ensureDir, lift, bind, writeFileSync.
  destruct (mkdirSync_error w (dirname p)); [discriminate|].
  intros ->. reflexivity.
Qed.

Lemma writeFileSafe_throws p c st e :
  write_error w p = Some e -> writeFileSafe w p c st = (st, inl e).
Proof.
  unfold write_error, writeFileSafe, ensureDir, lift, bind, writeFileSync.
  destruct (mkdirSync_error w (dirname p)); [intros [= ->]; reflexivity|].
  intros ->. reflexivity.
Qed.

Lemma callOpenAIJson_rejected {A} s (parse : string -> option A) st e :
  chat_completions w s = Rejected e ->
  callOpenAIJson w s parse st = (called s st, inl e).
Proof.
  intros Hc. unfold callOpenAIJson, bind, emit, suspend. simpl.
  rewrite Hc. reflexivity.
Qed.

Lemma call_fails_inv s e :
  call_fails w s e ->
  chat_completions w s = Rejected e \/
  exists c, chat_completions w s = Resolved c /\ parses w s (default "" c) = false /\
            e = parse_failed (default "" c).
Proof.
  intros [H|(text & [Ht Hp] & ->)]; [left; exact H | right].
  apply reply_text_inv in Ht as (c & Hc & <-). eauto.
Qed.

Lemma callOpenAIJson_fails {A} s (parse : string -> option A) st e :
  (forall text, parses w s text = false -> parse text = None) ->
  call_fails w s e ->
  callOpenAIJson w s parse st = (called s st, inl e).
Proof.
  intros Hparse [H|(c & Hc & Hp & ->)]%call_fails_inv.
  - apply callOpenAIJson_rejected, H.
  - apply callOpenAIJson_malformed; auto.
Qed.

Lemma callOpenAIJson_returned {A} s (parse : string -> option A) st v :
  returns w s parse v -> callOpenAIJson w s parse st = (called s st, inr v).
Proof.
  intros (text & Ht & Hp). apply reply_text_inv in Ht as (c & Hc & <-).
  eapply callOpenAIJson_returns; eassumption.
Qed.

(** A structured call returns a document or fails, and the world tells
    which. *)
Lemma callOpenAIJson_outcome {A} s (parse : string -> option A) st :
  (forall text, parse text = None -> parses w s text = false) ->
  (exists v, returns w s parse v /\
             callOpenAIJson w s parse st = (called s st, inr v)) \/
  (exists e, call_fails w s e /\
             callOpenAIJson w s parse st = (called s st, inl e)).
Proof.
  intros Hparse. unfold returns, call_fails, malformed, reply_text.
  destruct (chat_completions w s) as [e|c] eqn:Hc.
  - right. exists e. split; [left; reflexivity|]. apply callOpenAIJson_rejected, Hc.
  - destruct (parse (default "" c)) as [v|] eqn:Hp.
    + left. exists v. split; [eauto|]. eapply callOpenAIJson_returns; eassumption.
    + right. exists (parse_failed (default "" c)). split.
      * right. exists (default "" c). split; [split; [reflexivity | auto] | reflexivity].
      * apply callOpenAIJson_malformed; assumption.
Qed.

Lemma stage_returns s :
  stage_succeeds w s ->
  exists c, chat_completions w s = Resolved c /\ parses w s (default "" c) = true.
Proof. intros (text & Ht & Hp). apply reply_text_inv in Ht as (c & Hc & <-). eauto. Qed.

Lemma generateEditorialImage_returns n outPath st :
  image_failure w n outPath = None ->
  generateEditorialImage w n outPath st =
    (mkState (jobs st) (<[outPath := FileImage (returned_image w n)]> (disk st))
       (events st ++ [EvImage n; EvWrite outPath]) (history st) (seen st ++ [jobs st]),
     inr tt).
Proof.
  unfold image_failure, write_error, generateEditorialImage, returned_image, bind,
    emit, suspend, ensureDir, lift, writeFileSync.
  cbn [jobs disk events history seen fst snd].
  destruct (images_generate w n) as [e|[[|c b64]|]]; try discriminate.
  destruct (mkdirSync_error w (dirname outPath)); [discriminate|].
  intros ->. cbn [jobs disk events history seen]. rewrite <- app_assoc. reflexivity.
Qed.

Lemma generateEditorialImage_throws n outPath st e :
  image_failure w n outPath = Some e ->
  generateEditorialImage w n outPath st =
    (mkState (jobs st) (disk st) (events st ++ [EvImage n]) (history st)
       (seen st ++ [jobs st]),
     inl e).
Proof.
  unfold image_failure, write_error, generateEditorialImage, bind, emit, suspend,
    ensureDir, lift, writeFileSync, throw.
  cbn [jobs disk events history seen fst snd].
  destruct (images_generate w n) as [e'|[[|c b64]|]]; try (intros [= <-]; reflexivity).
  destruct (mkdirSync_error w (dirname outPath)); [intros [= <-]; reflexivity|].
  intros ->. reflexivity.
Qed.

(** The rendering loop up to the first brief whose step fails. *)
Lemma render_all_throws jobId n vs i v e st :
  vs !! i = Some v ->
  image_failure w (n + i) (image_path jobId v) = Some e ->
  (forall k u, (k < i)%nat -> vs !! k = Some u ->
     image_failure w (n + k) (image_path jobId u) = None) ->
  exists st',
    render_all w (path_join (output_dir jobId) "Editorial_Posts") n vs st = (st', inl e) /\
    jobs st' = jobs st /\
    disk st' = write_all (image_files w jobId n (take i vs)) (disk st) /\
    events st' = events st ++ render_events jobId n (take i vs) ++ [EvImage (n + i)].
Proof.
  revert n i st. induction vs as [|u vs IH]; intros n i st Hv He Hbefore; [discriminate|].
  cbn [render_all]. cbv zeta. fold (image_path jobId u). unfold bind.
  destruct i as [|i].
  - injection Hv as ->. rewrite Nat.add_0_r in He.
    rewrite (generateEditorialImage_throws _ _ _ _ He).
    eexists. split; [reflexivity|]. simpl.
    rewrite Nat.add_0_r. repeat split; reflexivity.
  - rewrite (generateEditorialImage_returns n (image_path jobId u) st).
    2:{ rewrite <- (Nat.add_0_r n). apply (Hbefore 0%nat u); [lia | reflexivity]. }
    edestruct (IH (S n) i) as (st' & Hr & Hjobs & Hdisk & Hev).
    + exact Hv.
    + rewrite Nat.add_succ_comm. exact He.
    + intros k x Hk Hx. rewrite Nat.add_succ_comm. apply (Hbefore (S k) x); [lia | exact Hx].
    + exists st'. split; [exact Hr|]. rewrite Hjobs, Hdisk, Hev. cbn [jobs disk events].
      rewrite Nat.add_succ_comm, <- !app_assoc. repeat split; reflexivity.
Qed.

End Steps.

(** ** How far a run gets *)

Section Checkpoints.

Variable w : World.
Variable jobId : string.
Variable st0 : state.

Local Abbreviation Checkpoint := (Checkpoint jobId st0).
Local Abbreviation Stopped := (Stopped w jobId st0).
Local Abbreviation Delivered := (Delivered w jobId st0).

Lemma triple_pure {A} (P : state -> Prop) (F : Prop) (m : M A) Q E :
  (F -> triple P m Q E) -> triple (fun st => P st /\ F) m Q E.
Proof. intros H st [HP HF]. apply (H HF st HP). Qed.

Lemma checkpoint_assign j files ev f E :
  triple (Checkpoint j files ev) (assign jobId f) (fun _ => Checkpoint (f j) files ev) E.
Proof.
  intros st (Hj & Hd & He). rewrite (assign_present _ _ _ _ Hj).
  split; [apply lookup_insert_eq | split; assumption].
Qed.

Lemma checkpoint_lift {A} j files ev (r : thrown + A) (E : thrown -> state -> Prop) :
  (forall e st, r = inl e -> Checkpoint j files ev st -> E e st) ->
  triple (Checkpoint j files ev) (lift r)
    (fun a st => Checkpoint j files ev st /\ r = inr a) E.
Proof. intros HE. apply triple_lift; [intros; split; assumption | eauto]. Qed.

Lemma checkpoint_ensureDir j files ev dir (E : thrown -> state -> Prop) :
  (forall e st, mkdirSync_error w dir = Some e -> Checkpoint j files ev st -> E e st) ->
  triple (Checkpoint j files ev) (ensureDir w dir)
    (fun _ st => Checkpoint j files ev st /\ mkdirSync_error w dir = None) E.
Proof.
  intros HE st H. destruct (mkdirSync_error w dir) as [e|] eqn:Hdir.
  - rewrite (ensureDir_throws w _ _ _ Hdir). apply (HE e st eq_refl H).
  - rewrite (ensureDir_returns w _ _ Hdir). split; [exact H | reflexivity].
Qed.

Lemma checkpoint_call {A} j files ev s (parse : string -> option A)
    (E : thrown -> state -> Prop) :
  (forall text, parse text = None -> parses w s text = false) ->
  (forall e st, call_fails w s e -> Checkpoint j files (ev ++ [EvChat s]) st -> E e st) ->
  triple (Checkpoint j files ev) (callOpenAIJson w s parse)
    (fun v st => Checkpoint j files (ev ++ [EvChat s]) st /\ returns w s parse v) E.
Proof.
  intros Hparse HE st (Hj & Hd & He).
  assert (Checkpoint j files (ev ++ [EvChat s]) (called s st)) as Hc.
  { split; [exact Hj|]. split; [exact Hd|]. simpl. rewrite He, <- app_assoc. reflexivity. }
  destruct (callOpenAIJson_outcome w s parse st Hparse)
    as [(v & Hv & ->)|(e & Hfail & ->)]; [split; assumption | apply HE; assumption].
Qed.

Lemma checkpoint_write j files ev p c (E : thrown -> state -> Prop) :
  (forall e st, write_error w p = Some e -> Checkpoint j files ev st -> E e st) ->
  triple (Checkpoint j files ev) (writeFileSafe w p c)
    (fun _ st => Checkpoint j (files ++ [(p, c)]) (ev ++ [EvWrite p]) st /\
                 write_error w p = None) E.
Proof.
  intros HE st (Hj & Hd & He). destruct (write_error w p) as [e|] eqn:Hp.
  - rewrite (writeFileSafe_throws w _ _ _ _ Hp). apply (HE e st eq_refl).
    repeat split; assumption.
  - rewrite (writeFileSafe_returns w _ _ _ Hp). split; [|reflexivity].
    split; [exact Hj|]. simpl. split.
    + unfold write_all. rewrite foldl_app. simpl. fold (write_all files (disk st0)).
      rewrite Hd. reflexivity.
    + rewrite He, <- app_assoc. reflexivity.
Qed.

Lemma checkpoint_image j files ev n outPath (E : thrown -> state -> Prop) :
  (forall e st, image_failure w n outPath = Some e ->
                Checkpoint j files (ev ++ [EvImage n]) st -> E e st) ->
  triple (Checkpoint j files ev) (generateEditorialImage w n outPath)
    (fun _ st =>
       Checkpoint j (files ++ [(outPath, FileImage (returned_image w n))])
         (ev ++ [EvImage n; EvWrite outPath]) st /\
       image_failure w n outPath = None) E.
Proof.
  intros HE st (Hj & Hd & He). destruct (image_failure w n outPath) as [e|] eqn:Hn.
  - rewrite (generateEditorialImage_throws w _ _ _ _ Hn). apply (HE e _ eq_refl).
    split; [exact Hj|]. split; [exact Hd|]. simpl. rewrite He, <- app_assoc. reflexivity.
  - rewrite (generateEditorialImage_returns w _ _ _ Hn). split; [|reflexivity].
    split; [exact Hj|]. simpl. split.
    + unfold write_all. rewrite foldl_app. simpl. fold (write_all files (disk st0)).
      rewrite Hd. reflexivity.
    + rewrite He, <- app_assoc. reflexivity.
Qed.

Lemma rendering_events n vs : Forall (rendering_event jobId) (render_events jobId n vs).
Proof.
  revert n. induction vs as [|v vs IH]; intros n; simpl; [constructor|].
  constructor; [left; eauto|]. constructor; [right; eexists; reflexivity | apply IH].
Qed.

(** The rendering loop: when it runs to its end every step has gone
    through and every image is written; when it stops, it has done so for
    the briefs before the one whose step failed. *)
Lemma checkpoint_render j files ev n vs (E : thrown -> state -> Prop) :
  (forall e st i v,
     vs !! i = Some v ->
     (forall k u, (k < i)%nat -> vs !! k = Some u ->
        image_failure w (n + k) (image_path jobId u) = None) ->
     image_failure w (n + i) (image_path jobId v) = Some e ->
     Checkpoint j (files ++ image_files w jobId n (take i vs))
       (ev ++ render_events jobId n (take i vs) ++ [EvImage (n + i)]) st -> E e st) ->
  triple (Checkpoint j files ev)
    (render_all w (path_join (output_dir jobId) "Editorial_Posts") n vs)
    (fun _ st =>
       Checkpoint j (files ++ image_files w jobId n vs)
         (ev ++ render_events jobId n vs) st /\
       forall i v, vs !! i = Some v ->
         image_failure w (n + i) (image_path jobId v) = None) E.
Proof.
  revert n files ev. induction vs as [|v vs IH]; intros n files ev HE.
  - apply triple_ret. intros st H. simpl. rewrite !app_nil_r. split; [exact H|].
    intros i u Hi. rewrite lookup_nil in Hi. discriminate.
  - cbn [render_all]. cbv zeta. fold (image_path jobId v).
    eapply triple_bind.
    + apply checkpoint_image. intros e st He H.
      apply (HE e st 0%nat v); [reflexivity | intros; lia | rewrite Nat.add_0_r; exact He|].
      simpl. rewrite app_nil_r, Nat.add_0_r. exact H.
    + intro. cbv beta. apply triple_pure. intros Hn.
      eapply triple_weaken;
        [apply (IH (S n) (files ++ [(image_path jobId v, FileImage (returned_image w n))])
                 (ev ++ [EvImage n; EvWrite (image_path jobId v)]))
        | intros ? H; exact H | | intros ? ? H; exact H].
      * intros e st i u Hu Hbefore He H. apply (HE e st (S i) u).
        -- exact Hu.
        -- intros [|k] x Hk Hx.
           ++ injection Hx as <-. rewrite Nat.add_0_r. exact Hn.
           ++ rewrite Nat.add_succ_r. apply (Hbefore k x); [lia | exact Hx].
        -- rewrite Nat.add_succ_r. exact He.
        -- cbn [take image_files render_events].
           rewrite <- !app_assoc in H. simpl in H. simpl.
           rewrite Nat.add_succ_r. exact H.
      * intros ? st [H Hall]. split.
        -- cbn [image_files render_events].
           rewrite <- !app_assoc in H. exact H.
        -- intros [|i] u Hi.
           ++ injection Hi as <-. rewrite Nat.add_0_r. exact Hn.
           ++ rewrite Nat.add_succ_r. apply (Hall i u Hi).
Qed.

Lemma returns_succeeds s :
  match s with
  | PlanStage => forall v, returns w s (JSON_parse_plan w) v -> stage_succeeds w s
  | CaptionsStage => forall v, returns w s (JSON_parse_captions w) v -> stage_succeeds w s
  | VisualsStage => forall v, returns w s (JSON_parse_visuals w) v -> stage_succeeds w s
  end.
Proof.
  destruct s; intros v (text & Ht & Hp); exists text; (split; [exact Ht|]);
    simpl; rewrite Hp; reflexivity.
Qed.

Local Ltac parse_side :=
  let H := fresh in intros ? H; simpl; rewrite H; reflexivity.

Local Ltac stopped_by tac :=
  let He := fresh "He" in
  let H := fresh "H" in
  intros ? ? He H; eexists _, _, _; split; [tac He | exact H].

(** The [try] block as a whole: it ends with everything delivered, or it
    stops in one of the ways [stops] lists. *)
Lemma runJob_try_checkpoints job :
  triple (Checkpoint job [] []) (runJob_try w jobId job)
    (fun _ => Delivered job) (fun e => Stopped job e).
Proof.
  unfold runJob_try.
  eapply triple_bind; [apply checkpoint_assign | intro].
  eapply triple_bind; [apply checkpoint_assign | intro].
  cbv zeta.
  eapply triple_bind;
    [apply checkpoint_lift; stopped_by ltac:(fun He => apply stops_at_prompt, He)
    | intros []].
  cbv beta. apply triple_pure. intros Hprompt.
  eapply triple_bind.
  { apply checkpoint_call; [parse_side|].
    stopped_by ltac:(fun He =>
      apply (stops_at_call w jobId job PlanStage);
      [split; [exact Hprompt | constructor] | exact He]). }
  intros planJson. cbv beta. apply triple_pure. intros Hplan.
  pose proof (returns_succeeds PlanStage _ Hplan) as Hs1.
  eapply triple_bind; [apply checkpoint_assign | intro].
  eapply triple_bind.
  { apply checkpoint_call; [parse_side|].
    stopped_by ltac:(fun He =>
      apply (stops_at_call w jobId job CaptionsStage);
      [split; [exact Hprompt | repeat constructor; assumption] | exact He]). }
  intros captionsJson. cbv beta. apply triple_pure. intros Hcaptions.
  pose proof (returns_succeeds CaptionsStage _ Hcaptions) as Hs2.
  eapply triple_bind; [apply checkpoint_assign | intro].
  eapply triple_bind.
  { apply checkpoint_call; [parse_side|].
    stopped_by ltac:(fun He =>
      apply (stops_at_call w jobId job VisualsStage);
      [split; [exact Hprompt | repeat constructor; assumption] | exact He]). }
  intros visualsJson. cbv beta. apply triple_pure. intros Hvisuals.
  eapply triple_bind; [apply checkpoint_assign | intro].
  eapply triple_bind.
  { apply checkpoint_lift.
    stopped_by ltac:(fun He =>
      apply (stops_at_briefs w jobId job visualsJson);
      [split; [exact Hprompt | repeat constructor; assumption]
      | exact Hvisuals | exact He]). }
  intros visuals. cbv beta. apply triple_pure. intros Hbriefs.
  set (files := artifact_files jobId (input job) (applyMixedMode planJson) captionsJson
                  visualsJson visuals).
  set (rendered := editorialOnly (input job) (applyMixedMode planJson) visuals).
  assert (compiles w jobId job files rendered) as Hcomp.
  { exists planJson, captionsJson, visualsJson, visuals.
    repeat split; assumption || reflexivity. }
  eapply triple_bind.
  { apply checkpoint_ensureDir.
    stopped_by ltac:(fun He =>
      apply (stops_at_output_dir w jobId job files rendered); [exact Hcomp | exact He]). }
  intro. cbv beta. apply triple_pure. intros Hdir.
  eapply triple_bind.
  { apply checkpoint_write.
    stopped_by ltac:(fun He =>
      eapply (stops_at_write w jobId job files rendered 0 _ _ Hcomp);
      [split; [exact Hdir | constructor] | reflexivity | exact He]). }
  intro. cbv beta. apply triple_pure. intros Hw0.
  eapply triple_bind.
  { apply checkpoint_write.
    stopped_by ltac:(fun He =>
      eapply (stops_at_write w jobId job files rendered 1 _ _ Hcomp);
      [split; [exact Hdir | repeat (constructor; [assumption|]); constructor]
      | reflexivity | exact He]). }
  intro. cbv beta. apply triple_pure. intros Hw1.
  eapply triple_bind.
  { apply checkpoint_write.
    stopped_by ltac:(fun He =>
      eapply (stops_at_write w jobId job files rendered 2 _ _ Hcomp);
      [split; [exact Hdir | repeat (constructor; [assumption|]); constructor]
      | reflexivity | exact He]). }
  intro. cbv beta. apply triple_pure. intros Hw2.
  eapply triple_bind.
  { apply checkpoint_write.
    stopped_by ltac:(fun He =>
      eapply (stops_at_write w jobId job files rendered 3 _ _ Hcomp);
      [split; [exact Hdir | repeat (constructor; [assumption|]); constructor]
      | reflexivity | exact He]). }
  intro. cbv beta. apply triple_pure. intros Hw3.
  eapply triple_bind.
  { apply checkpoint_write.
    stopped_by ltac:(fun He =>
      eapply (stops_at_write w jobId job files rendered 4 _ _ Hcomp);
      [split; [exact Hdir | repeat (constructor; [assumption|]); constructor]
      | reflexivity | exact He]). }
  intro. cbv beta. apply triple_pure. intros Hw4.
  eapply triple_bind.
  { apply checkpoint_write.
    stopped_by ltac:(fun He =>
      eapply (stops_at_write w jobId job files rendered 5 _ _ Hcomp);
      [split; [exact Hdir | repeat (constructor; [assumption|]); constructor]
      | reflexivity | exact He]). }
  intro. cbv beta. apply triple_pure. intros Hw5.
  assert (saves w jobId files) as Hsaves.
  { split; [exact Hdir | repeat (constructor; [assumption|]); constructor]. }
  eapply triple_bind.
  { apply checkpoint_ensureDir.
    stopped_by ltac:(fun He =>
      apply (stops_at_editorial_dir w jobId job files rendered);
      [exact Hcomp | exact Hsaves | exact He]). }
  intro. cbv beta. apply triple_pure. intros Hdir'.
  eapply triple_bind; [apply checkpoint_assign | intro].
  eapply triple_bind.
  { apply checkpoint_render. intros e st i v Hv Hbefore He H.
    eexists _, _, _. split; [|exact H].
    apply (stops_at_image w jobId job files rendered i v);
      [exact Hcomp | exact Hsaves | exact Hdir' | exact Hv | exact Hbefore | exact He]. }
  intro. cbv beta. apply triple_pure. intros Himages.
  eapply triple_bind; [apply checkpoint_assign | intro].
  eapply triple_bind; [apply checkpoint_assign | intro].
  eapply triple_weaken;
    [apply checkpoint_assign | intros ? H; exact H | | intros ? ? H; exact H].
  intros ? st H. exists files, rendered.
  split; [exact Hcomp|]. split; [exact Hsaves|]. split; [exact Hdir'|].
  split; [exact Himages | exact H].
Qed.

End Checkpoints.

(** ** Files and paths *)

Section Files.

Lemma write_all_cons f files d :
  write_all (f :: files) d = write_all files (<[f.1 := f.2]> d).
Proof. reflexivity. Qed.

Lemma lookup_write_all_notin files d p :
  p ∉ map fst files -> write_all files d !! p = d !! p.
Proof.
  revert d. induction files as [|f files IH]; intros d Hp; [reflexivity|].
  rewrite write_all_cons, IH.
  - apply lookup_insert_ne. intros Heq. apply Hp. simpl. rewrite Heq. left.
  - intros Hin. apply Hp. simpl. right. exact Hin.
Qed.

(** A path that was written holds what was written to it last, which is
    one of the things written to it. *)
Lemma lookup_write_all_in files d p :
  p ∈ map fst files -> exists c, (p, c) ∈ files /\ write_all files d !! p = Some c.
Proof.
  revert d. induction files as [|f files IH]; intros d Hp; simpl in Hp.
  - apply elem_of_nil in Hp. contradiction.
  - rewrite write_all_cons.
    destruct (decide (p ∈ map fst files)) as [Hin|Hout].
    + destruct (IH (<[f.1 := f.2]> d) Hin) as (c & Hc & Hl).
      exists c. split; [right; exact Hc | exact Hl].
    + apply elem_of_cons in Hp as [->|Hp]; [|contradiction].
      exists f.2. split; [destruct f; left|].
      rewrite lookup_write_all_notin by exact Hout. apply lookup_insert_eq.
Qed.

Lemma append_inj_l a b c : a +:+ b = a +:+ c -> b = c.
Proof.
  induction a as [|x a IH]; [auto|].
  change (String x (a +:+ b) = String x (a +:+ c) -> b = c).
  intros [= H]. auto.
Qed.

Lemma append_assoc a b c : (a +:+ b) +:+ c = a +:+ (b +:+ c).
Proof.
  induction a as [|x a IH]; [reflexivity|].
  change (String x ((a +:+ b) +:+ c) = String x (a +:+ (b +:+ c))).
  f_equal. exact IH.
Qed.

Lemma path_join_inj d a b : path_join d a = path_join d b -> a = b.
Proof.
  unfold path_join. intros H. apply append_inj_l in H.
  apply (append_inj_l "/") in H. exact H.
Qed.

Lemma path_join_assoc d a b : path_join (path_join d a) b = path_join d (path_join a b).
Proof. unfold path_join. rewrite !append_assoc. reflexivity. Qed.

Lemma NoDup_artifact_paths jobId : NoDup (artifact_paths jobId).
Proof.
  unfold artifact_paths.
  match goal with |- NoDup (map ?f ?l) => change (NoDup (f <$> l)) end.
  apply NoDup_fmap_2; [intros a b; apply path_join_inj|].
  apply (bool_decide_unpack _). vm_compute. exact I.
Qed.

(** No image is written over an artifact. *)
Lemma image_path_no_artifact jobId v : image_path jobId v ∉ artifact_paths jobId.
Proof.
  unfold image_path, artifact_paths. rewrite path_join_assoc.
  intros Hin. apply list_elem_of_In, in_map_iff in Hin as (name & Heq & Hin).
  apply path_join_inj in Heq. subst name.
  repeat (destruct Hin as [Hin|Hin]; [discriminate Hin|]). destruct Hin.
Qed.

Lemma image_files_paths w jobId n vs :
  map fst (image_files w jobId n vs) = map (image_path jobId) vs.
Proof.
  revert n. induction vs as [|v vs IH]; intros n; simpl; [reflexivity|].
  rewrite IH. reflexivity.
Qed.

Lemma image_files_inv w jobId n vs p c :
  (p, c) ∈ image_files w jobId n vs ->
  exists i, (i < length vs)%nat /\ c = FileImage (returned_image w (n + i)).
Proof.
  revert n. induction vs as [|v vs IH]; intros n Hin; simpl in Hin.
  - apply elem_of_nil in Hin. contradiction.
  - apply elem_of_cons in Hin as [[= -> ->]|Hin].
    + exists 0%nat. rewrite Nat.add_0_r. simpl. split; [lia | reflexivity].
    + destruct (IH (S n) Hin) as (i & Hi & ->).
      exists (S i). rewrite Nat.add_succ_r. simpl. split; [lia | reflexivity].
Qed.

Lemma NoDup_fst_functional {A B} (l : list (A * B)) x y1 y2 :
  NoDup (map fst l) -> (x, y1) ∈ l -> (x, y2) ∈ l -> y1 = y2.
Proof.
  induction l as [|[a b] l IH]; simpl; intros Hnd H1 H2.
  - apply elem_of_nil in H1. contradiction.
  - apply NoDup_cons in Hnd as [Ha Hnd].
    assert (forall y, (a, y) ∈ l -> False) as Hno.
    { intros y Hy. apply Ha. apply list_elem_of_In, in_map_iff.
      exists (a, y). split; [reflexivity | apply list_elem_of_In; exact Hy]. }
    apply elem_of_cons in H1 as [[= -> ->]|H1], H2 as [[= <-]|H2]; auto.
    + exfalso. eauto.
    + exfalso. simplify_eq. eauto.
Qed.

Lemma artifact_files_paths jobId brandContext planJson captionsJson visualsJson visuals :
  map fst (artifact_files jobId brandContext planJson captionsJson visualsJson visuals)
  = artifact_paths jobId.
Proof. reflexivity. Qed.

Lemma served_content_plan jobId :
  served_file ("/downloads/" +:+ jobId +:+ "/content_plan.json")
  = Some (path_join (output_dir jobId) "content_plan.json").
Proof.
  unfold served_file, output_dir. rewrite path_join_assoc. reflexivity.
Qed.

End Files.

(** ** The ways a run fails *)

Section Scenarios.

Variable w : World.

(** The [try] block up to a call that fails while the earlier ones have
    returned a document. *)
Lemma runJob_try_call_fails jobId job st s e :
  jobs st !! jobId = Some job ->
  reaches w (input job) s -> call_fails w s e ->
  exists st1,
    runJob_try w jobId job st = (st1, inl e) /\
    jobs st1 !! jobId = Some (running_with (stage_progress s) job) /\
    disk st1 = disk st /\
    events st1 = events st ++ map EvChat (earlier s ++ [s]).
Proof.
  intros Hj [Hprompt Hearlier] Hfail.
  unfold runJob_try.
  erewrite bind_returns by reflexivity.
  erewrite bind_returns by reflexivity.
  rewrite Hprompt. erewrite bind_returns by reflexivity.
  destruct s; simpl in Hearlier.
  - erewrite bind_throws
      by (apply callOpenAIJson_fails; [intros t; apply defined_false | exact Hfail]).
    eexists. split; [reflexivity|]. cbn [jobs disk events called].
    rewrite !lookup_alter_eq, Hj. repeat split; reflexivity.
  - apply Forall_cons in Hearlier as [(c1 & Hc1 & (v1 & Hp1)%defined_true)%stage_returns _].
    erewrite bind_returns by (eapply callOpenAIJson_returns; eassumption).
    cbv zeta. erewrite bind_returns by reflexivity.
    erewrite bind_throws
      by (apply callOpenAIJson_fails; [intros t; apply defined_false | exact Hfail]).
    eexists. split; [reflexivity|]. cbn [jobs disk events called].
    rewrite !lookup_alter_eq, Hj. repeat split; try reflexivity.
    simpl. rewrite <- !app_assoc. reflexivity.
  - apply Forall_cons in Hearlier as [(c1 & Hc1 & (v1 & Hp1)%defined_true)%stage_returns Hearlier].
    apply Forall_cons in Hearlier as [(c2 & Hc2 & (v2 & Hp2)%defined_true)%stage_returns _].
    erewrite bind_returns by (eapply callOpenAIJson_returns; eassumption).
    cbv zeta. erewrite bind_returns by reflexivity.
    erewrite bind_returns by (eapply callOpenAIJson_returns; eassumption).
    erewrite bind_returns by reflexivity.
    erewrite bind_throws
      by (apply callOpenAIJson_fails; [intros t; apply defined_false | exact Hfail]).
    eexists. split; [reflexivity|]. cbn [jobs disk events called].
    rewrite !lookup_alter_eq, Hj. repeat split; try reflexivity.
    simpl. rewrite <- !app_assoc. reflexivity.
Qed.

(** What [runJob] leaves behind when its [try] block throws [e] with the
    job at progress [c]. *)
Lemma runJob_records_failure jobId job st st1 e c :
  jobs st !! jobId = Some job ->
  runJob_try w jobId job st = (st1, inl e) ->
  jobs st1 !! jobId = Some (running_with c job) ->
  jobs (runJob w jobId st).1 !! jobId = Some (failed_job c (captured_message e) job) /\
  disk (runJob w jobId st).1 = disk st1 /\
  events (runJob w jobId st).1 = events st1.
Proof.
  intros Hj Htry Hj1.
  destruct (runJob_after_throw w _ _ _ _ _ Hj Htry) as (job1 & Hj1' & ->).
  rewrite Hj1 in Hj1'. injection Hj1' as <-.
  cbn [fst jobs disk events]. rewrite lookup_insert_eq. repeat split; reflexivity.
Qed.

Lemma write_all_app files files' d :
  write_all (files ++ files') d = write_all files' (write_all files d).
Proof. unfold write_all. apply foldl_app. Qed.

Local Ltac forward :=
  repeat
    (first
       [ erewrite bind_returns by reflexivity
       | erewrite bind_returns by (apply ensureDir_returns; assumption)
       | erewrite bind_returns by (apply writeFileSafe_returns; assumption)
       | erewrite bind_returns by (apply callOpenAIJson_returned; eassumption)
       | match goal with
         | H : promptPlan _ = _ |- context [lift (promptPlan _)] => rewrite H
         | H : editorial_visuals_or_empty _ = _
           |- context [lift (editorial_visuals_or_empty _)] => rewrite H
         end ];
     cbn beta zeta iota delta [jobs disk events history seen called]).

Local Ltac thrown_at Hj :=
  eexists; split; [reflexivity|]; cbn [jobs disk events called];
  rewrite !lookup_alter_eq, Hj;
  repeat split; try reflexivity; rewrite <- ?app_assoc; reflexivity.

Local Ltac read_saves H :=
  destruct H as [?Hdir ?Hall]; unfold artifact_files in *; cbn [take] in *;
  repeat match goal with
         | H' : Forall _ (_ :: _) |- _ =>
             let Hw := fresh "Hw" in apply Forall_cons in H' as [Hw H']
         end;
  cbn [fst] in *.

(** Each of the ways of [stops] makes the [try] block throw, with the job,
    the disk and the events as that way tells. *)
Lemma stops_throws jobId job st e c ev files :
  jobs st !! jobId = Some job ->
  stops w jobId job e c ev files ->
  exists st1,
    runJob_try w jobId job st = (st1, inl e) /\
    jobs st1 !! jobId = Some (running_with c job) /\
    disk st1 = write_all files (disk st) /\
    events st1 = events st ++ ev.
Proof.
  intros Hj Hstops.
  destruct Hstops as
    [ e Hprompt
    | s e Hreach Hfail
    | visualsJson e [Hprompt Hearlier] Hvis Hbriefs
    | files rendered e Hcomp Hdir
    | files rendered i f e Hcomp Hsaves Hf He
    | files rendered e Hcomp Hsaves Hdir'
    | files rendered i v e Hcomp Hsaves Hdir' Hv Hbefore He ].
  - unfold runJob_try. forward. erewrite bind_throws by reflexivity.
    rewrite app_nil_r. thrown_at Hj.
  - destruct (runJob_try_call_fails jobId job st s e Hj Hreach Hfail)
      as (st1 & Htry & Hj1 & Hdisk & Hev).
    exists st1. auto.
  - simpl in Hearlier.
    apply Forall_cons in Hearlier as [(c1 & Hc1 & (v1 & Hp1)%defined_true)%stage_returns Hearlier].
    apply Forall_cons in Hearlier as [(c2 & Hc2 & (v2 & Hp2)%defined_true)%stage_returns _].
    unfold runJob_try. forward.
    erewrite bind_returns by (eapply callOpenAIJson_returns; eassumption).
    forward.
    erewrite bind_returns by (eapply callOpenAIJson_returns; eassumption).
    forward.
    erewrite bind_throws by reflexivity.
    thrown_at Hj.
  - destruct Hcomp as (planJson & captionsJson & visualsJson & visuals & Hprompt & Hplan
                       & Hcap & Hvis & Hbriefs & -> & ->).
    unfold runJob_try. forward.
    erewrite bind_throws by (apply ensureDir_throws; eassumption).
    thrown_at Hj.
  - destruct Hcomp as (planJson & captionsJson & visualsJson & visuals & Hprompt & Hplan
                       & Hcap & Hvis & Hbriefs & -> & ->).
    assert (i < 6)%nat as Hi by (apply lookup_lt_Some in Hf; exact Hf).
    destruct i as [|[|[|[|[|[|i]]]]]]; [| | | | | | lia];
      injection Hf as <-; read_saves Hsaves;
      unfold runJob_try; forward;
      (erewrite bind_throws by (apply writeFileSafe_throws; eassumption));
      thrown_at Hj.
  - destruct Hcomp as (planJson & captionsJson & visualsJson & visuals & Hprompt & Hplan
                       & Hcap & Hvis & Hbriefs & -> & ->).
    read_saves Hsaves.
    unfold runJob_try. forward.
    erewrite bind_throws by (apply ensureDir_throws; eassumption).
    thrown_at Hj.
  - destruct Hcomp as (planJson & captionsJson & visualsJson & visuals & Hprompt & Hplan
                       & Hcap & Hvis & Hbriefs & -> & ->).
    read_saves Hsaves.
    unfold runJob_try. forward.
    match goal with
    | |- context [bind (render_all _ _ _ ?vs) _ ?s] =>
        destruct (render_all_throws w jobId 0 vs i v e s Hv He Hbefore)
          as (st' & Hr & Hjobs & Hdisk & Hev)
    end.
    rewrite (bind_throws _ _ _ _ _ Hr).
    exists st'. split; [reflexivity|]. rewrite Hjobs, Hdisk, Hev.
    cbn [jobs disk events called].
    rewrite !lookup_alter_eq, Hj.
    split; [reflexivity|]. split.
    + rewrite write_all_app. reflexivity.
    + rewrite <- !app_assoc. reflexivity.
Qed.

End Scenarios.

(** ** What a finished job has delivered *)

Section Delivery.

Variable w : World.

Lemma runJob_after_return jobId job st st1 :
  jobs st !! jobId = Some job ->
  runJob_try w jobId job st = (st1, inr tt) ->
  runJob w jobId st = (settle st1, inr tt).
Proof. intros Hj Htry. rewrite (runJob_present w _ _ _ Hj), Htry. reflexivity. Qed.

(** How the [try] block of a job of the table ends. *)
Lemma runJob_try_ends jobId job st :
  jobs st !! jobId = Some job ->
  match runJob_try w jobId job st with
  | (st1, inr _) => Delivered w jobId st job st1
  | (st1, inl e) => Stopped w jobId st job e st1
  end.
Proof.
  intros Hj. apply (runJob_try_checkpoints w jobId st job st).
  split; [exact Hj|]. split; [reflexivity | symmetry; apply app_nil_r].
Qed.

(** A job that ends [done] ran its [try] block to the end, and one that
    ends [error] did not. *)
Lemma runJob_status jobId job st t :
  jobs st !! jobId = Some job ->
  status <$> jobs (runJob w jobId st).1 !! jobId = Some t ->
  match runJob_try w jobId job st with
  | (st1, inr _) => t = Done /\ runJob w jobId st = (settle st1, inr tt)
  | (st1, inl e) =>
      t = Error /\ exists job1,
        jobs st1 !! jobId = Some job1 /\
        jobs (runJob w jobId st).1 !! jobId =
          Some (set_error (captured_message e) (set_status Error job1)) /\
        disk (runJob w jobId st).1 = disk st1 /\
        events (runJob w jobId st).1 = events st1
  end.
Proof.
  intros Hj Ht. pose proof (runJob_try_ends jobId job st Hj) as Hend.
  destruct (runJob_try w jobId job st) as [st1 [e|[]]] eqn:Htry.
  - destruct (runJob_after_throw w _ _ _ _ _ Hj Htry) as (job1 & Hj1 & Hrun).
    rewrite Hrun in Ht |- *. cbn [fst jobs disk events] in *.
    rewrite lookup_insert_eq in Ht |- *. simpl in Ht.
    split; [congruence|]. exists job1. auto.
  - rewrite (runJob_after_return _ _ _ _ Hj Htry) in Ht |- *.
    destruct Hend as (? & ? & _ & _ & _ & _ & (Hjob & _)).
    cbn [fst settle jobs] in Ht. rewrite Hjob in Ht. simpl in Ht.
    split; [congruence | reflexivity].
Qed.

Lemma image_failure_returned n outPath :
  image_failure w n outPath = None -> returned_image w n <> "".
Proof.
  unfold image_failure, returned_image.
  destruct (images_generate w n) as [e|[[|c b64]|]]; discriminate.
Qed.

(** How the ways of [stops] read as a checkpoint. *)
Lemma stops_checkpoint jobId job e c ev files :
  stops w jobId job e c ev files ->
  exists k m imgs,
    ev = take k chats ++ take m (map EvWrite (artifact_paths jobId)) ++ imgs /\
    checkpoint_of c k m /\
    (m = 0%nat -> files = []) /\
    (c < 75 -> imgs = []) /\
    Forall (rendering_event jobId) imgs.
Proof.
  unfold checkpoint_of.
  intros [ e' Hprompt
         | s e' Hreach Hfail
         | visualsJson e' Hreach Hvis Hbriefs
         | files' rendered e' Hcomp Hdir
         | files' rendered i f e' Hcomp Hsaves Hf He
         | files' rendered e' Hcomp Hsaves Hdir'
         | files' rendered i v e' Hcomp Hsaves Hdir' Hv Hbefore He ].
  - exists 0%nat, 0%nat, []. repeat split; auto; lia.
  - destruct s.
    + exists 1%nat, 0%nat, []. repeat split; auto; simpl; lia.
    + exists 2%nat, 0%nat, []. repeat split; auto; simpl; lia.
    + exists 3%nat, 0%nat, []. repeat split; auto; simpl; lia.
  - exists 3%nat, 0%nat, []. repeat split; auto; lia.
  - exists 3%nat, 0%nat, []. repeat split; auto; lia.
  - exists 3%nat, i, [].
    assert (i < 6)%nat as Hi.
    { apply lookup_lt_Some in Hf.
      destruct Hcomp as (? & ? & ? & ? & _ & _ & _ & _ & _ & -> & _). exact Hf. }
    split; [rewrite app_nil_r; reflexivity|].
    split; [lia|]. split; [intros ->; reflexivity|]. split; auto.
  - exists 3%nat, 6%nat, [].
    split; [reflexivity|]. split; [lia|]. split; [lia|]. split; auto.
  - exists 3%nat, 6%nat, (render_events jobId 0 (take i rendered) ++ [EvImage i]).
    split; [reflexivity|]. split; [lia|]. split; [lia|]. split; [lia|].
    apply Forall_app. split; [apply rendering_events|].
    constructor; [left; eauto | constructor].
Qed.

(** C5. A run fails in one of the ways of [stops], each of which is told
    by the world the job runs in: the plan prompt cannot be built, one of
    the three calls is rejected or answered with a text that is not JSON,
    the briefs cannot be read, a directory cannot be made, an artifact or
    an image cannot be written, an image call is rejected or returns no
    image. In each of them the step that throws is the last one: the
    events of the run are those up to that step and none of a later stage.
    The promise of [runJob] fulfils all the same, the record of the job
    gets status [error] and the message of what was thrown (or "Unknown
    error" when it has none), and the disk holds what it held before and
    everything the run wrote up to there. A run that fails in none of
    these ways ends [done]. *)
Theorem runJob_failure jobId job st :
  jobs st !! jobId = Some job ->
  let r := runJob w jobId st in
  (forall e c ev files,
     stops w jobId job e c ev files ->
     r.2 = inr tt /\
     jobs r.1 !! jobId = Some (failed_job c (captured_message e) job) /\
     status <$> jobs r.1 !! jobId = Some Error /\
     error <$> jobs r.1 !! jobId = Some (Some (captured_message e)) /\
     (forall m, message e = Some m -> m <> "" -> captured_message e = m) /\
     events r.1 = events st ++ ev /\
     disk r.1 = write_all files (disk st) /\
     dom (disk st) ⊆ dom (disk r.1) /\
     (forall p, EvWrite p ∈ ev -> p ∈ dom (disk r.1))) /\
  ((exists e c ev files, stops w jobId job e c ev files) \/
   status <$> jobs r.1 !! jobId = Some Done).
Proof.
  intros Hj r. subst r. split.
  - intros e c ev files Hstops.
    destruct (stops_throws w jobId job st e c ev files Hj Hstops)
      as (st1 & Htry & Hj1 & Hdisk & Hev).
    destruct (runJob_records_failure w jobId job st st1 e c Hj Htry Hj1)
      as (Hjob & Hdisk' & Hev').
    pose proof (keeps_artifacts_runJob w jobId st) as (Hdom & (ev' & Hev'' & Hwritten) & _).
    split; [apply runJob_fulfils|]. split; [exact Hjob|].
    split; [rewrite Hjob; reflexivity|]. split; [rewrite Hjob; reflexivity|].
    split.
    { intros m Hm Hne. unfold captured_message. rewrite Hm.
      destruct m; [congruence | reflexivity]. }
    split; [rewrite Hev'; exact Hev|]. split; [rewrite Hdisk'; exact Hdisk|].
    split; [exact Hdom|].
    rewrite Hev', Hev in Hev''. apply app_inv_head in Hev''. subst ev'. exact Hwritten.
  - pose proof (runJob_try_ends jobId job st Hj) as Hend.
    destruct (runJob_try w jobId job st) as [st1 [e|[]]] eqn:Htry.
    + left. destruct Hend as (c & ev & files & Hstops & _). eauto.
    + right. rewrite (runJob_after_return _ _ _ _ Hj Htry). cbn [fst settle jobs].
      destruct Hend as (? & ? & _ & _ & _ & _ & (Hjob & _)).
      rewrite Hjob. reflexivity.
Qed.

(** X10. A job that is reported [done] has delivered everything: the
    three calls have returned documents, the six artifacts are on disk
    and hold the plan after mode allocation, the captions, the briefs, the
    brand style, the compiled briefs and the product briefs computed from
    those documents, every brief of an editorial post has a non-empty image
    under [Editorial_Posts], no other file was touched, the record has
    progress 100 and a download link, and that link is served from the
    plan that was written. *)
Theorem done_job_is_delivered jobId job st :
  jobs st !! jobId = Some job ->
  status <$> jobs (runJob w jobId st).1 !! jobId = Some Done ->
  let st' := (runJob w jobId st).1 in
  let brandContext := input job in
  exists planJson captionsJson visualsJson visuals,
    returns w PlanStage (JSON_parse_plan w) planJson /\
    returns w CaptionsStage (JSON_parse_captions w) captionsJson /\
    returns w VisualsStage (JSON_parse_visuals w) visualsJson /\
    editorial_visuals_or_empty visualsJson = inr visuals /\
    let plan := applyMixedMode planJson in
    let rendered := editorialOnly brandContext plan visuals in
    jobs st' !! jobId = Some (done_job jobId job) /\
    (forall p c,
       (p, c) ∈ artifact_files jobId brandContext plan captionsJson visualsJson visuals ->
       disk st' !! p = Some c) /\
    (forall v, v ∈ rendered ->
       exists b64, b64 <> "" /\ disk st' !! image_path jobId v = Some (FileImage b64)) /\
    (forall p, p ∉ artifact_paths jobId -> p ∉ map (image_path jobId) rendered ->
       disk st' !! p = disk st !! p) /\
    events st' =
      events st ++ chats ++ map EvWrite (artifact_paths jobId) ++
      render_events jobId 0 rendered /\
    exists url,
      downloadUrl (done_job jobId job) = Some url /\
      served_file url = Some (path_join (output_dir jobId) "content_plan.json").
Proof.
  intros Hj Hdone st' brandContext. subst st'.
  pose proof (runJob_try_ends jobId job st Hj) as Hend.
  pose proof (runJob_status jobId job st Done Hj Hdone) as Hst.
  destruct (runJob_try w jobId job st) as [st1 [e|[]]]; [destruct Hst; discriminate|].
  destruct Hst as [_ ->]. cbn [fst settle jobs disk events].
  destruct Hend as (files & rendered0 & Hcomp & _ & _ & Himages & (Hjob & Hdisk & Hev)).
  destruct Hcomp as (planJson & captionsJson & visualsJson & visuals & _ & Hplan & Hcap
                     & Hvis & Hbriefs & -> & ->).
  exists planJson, captionsJson, visualsJson, visuals.
  do 4 (split; [assumption|]). cbv zeta.
  set (plan := applyMixedMode planJson) in *.
  set (rendered := editorialOnly (input job) plan visuals) in *.
  set (artifacts :=
         artifact_files jobId (input job) plan captionsJson visualsJson visuals) in *.
  split; [exact Hjob|]. rewrite Hdisk.
  split; [|split; [|split; [|split; [exact Hev|]]]].
  - intros p c Hin.
    destruct (lookup_write_all_in (artifacts ++ image_files w jobId 0 rendered)
                (disk st) p) as (c' & Hin' & ->).
    { rewrite map_app. apply elem_of_app. left.
      apply list_elem_of_In, in_map_iff. exists (p, c).
      split; [reflexivity | apply list_elem_of_In; exact Hin]. }
    f_equal. apply elem_of_app in Hin' as [Hin'|Hin'].
    + apply (NoDup_fst_functional artifacts p); [apply NoDup_artifact_paths | |]; assumption.
    + exfalso.
      assert (p ∈ map fst (image_files w jobId 0 rendered)) as Hp.
      { apply list_elem_of_In, in_map_iff. exists (p, c').
        split; [reflexivity | apply list_elem_of_In; exact Hin']. }
      rewrite image_files_paths in Hp.
      apply list_elem_of_In, in_map_iff in Hp as (v & <- & _).
      apply (image_path_no_artifact jobId v).
      rewrite <- (artifact_files_paths jobId (input job) plan captionsJson visualsJson visuals).
      apply list_elem_of_In, in_map_iff. exists (image_path jobId v, c).
      split; [reflexivity | apply list_elem_of_In; exact Hin].
  - intros v Hv.
    destruct (lookup_write_all_in (artifacts ++ image_files w jobId 0 rendered)
                (disk st) (image_path jobId v)) as (c & Hin & ->).
    { rewrite map_app, image_files_paths. apply elem_of_app. right.
      apply list_elem_of_In, in_map. apply list_elem_of_In. exact Hv. }
    apply elem_of_app in Hin as [Hin|Hin].
    + exfalso. apply (image_path_no_artifact jobId v).
      rewrite <- (artifact_files_paths jobId (input job) plan captionsJson visualsJson visuals).
      apply list_elem_of_In, in_map_iff. exists (image_path jobId v, c).
      split; [reflexivity | apply list_elem_of_In; exact Hin].
    + apply image_files_inv in Hin as (i & Hi & ->).
      exists (returned_image w (0 + i)). split; [|reflexivity].
      destruct (lookup_lt_is_Some_2 rendered i Hi) as [u Hu].
      apply (image_failure_returned i (image_path jobId u)), (Himages i u Hu).
  - intros p Hp1 Hp2. apply lookup_write_all_notin.
    rewrite map_app, image_files_paths. intros [Hin|Hin]%elem_of_app; contradiction.
  - exists ("/downloads/" +:+ jobId +:+ "/content_plan.json").
    split; [reflexivity | apply served_content_plan].
Qed.

(** X11. The progress of a failed job tells where it stopped: at 10
    before the plan was returned (at most the plan call was made), at 35
    in the captions call, at 55 in the call for the briefs, at 65 between
    the return of the briefs and the start of the rendering loop, while
    the outputs were compiled, the artifacts written and the directory of
    the images made (any number of the six artifacts may be written), at
    75 in the rendering loop (all six are written). Image calls and image
    writes occur only at 75. When no artifact is written the disk is as
    it was before the run; the artifacts written are on disk. *)
Theorem failed_job_progress jobId job st :
  jobs st !! jobId = Some job ->
  status <$> jobs (runJob w jobId st).1 !! jobId = Some Error ->
  let st' := (runJob w jobId st).1 in
  exists c k m imgs,
    progress <$> jobs st' !! jobId = Some c /\
    checkpoint_of c k m /\
    events st' =
      events st ++ take k chats ++ take m (map EvWrite (artifact_paths jobId)) ++ imgs /\
    Forall (rendering_event jobId) imgs /\
    (c < 75 -> imgs = []) /\
    (m = 0%nat -> disk st' = disk st) /\
    (forall p, p ∈ take m (artifact_paths jobId) -> p ∈ dom (disk st')).
Proof.
  intros Hj Herr st'. subst st'.
  pose proof (runJob_try_ends jobId job st Hj) as Hend.
  pose proof (runJob_status jobId job st Error Hj Herr) as Hst.
  pose proof (keeps_artifacts_runJob_try w jobId job st) as (_ & Hkept & _).
  destruct (runJob_try w jobId job st) as [st1 [e|[]]]; [|destruct Hst; discriminate].
  destruct Hst as (_ & job1 & Hj1 & -> & -> & ->).
  destruct Hend as (c & ev & files & Hstops & (Hjob & Hdisk & Hev)).
  destruct (stops_checkpoint jobId job e c ev files Hstops)
    as (k & m & imgs & -> & Hc & Hfiles & Himgs & Hrender).
  exists c, k, m, imgs. simpl in Hkept.
  split; [rewrite Hj1 in Hjob; injection Hjob as ->; reflexivity|].
  split; [exact Hc|]. split; [exact Hev|]. split; [exact Hrender|].
  split; [exact Himgs|]. split.
  - intros Hm. rewrite Hdisk, (Hfiles Hm). reflexivity.
  - intros p Hp. destruct Hkept as (ev & Hev' & Hdom).
    rewrite Hev in Hev'. apply app_inv_head in Hev'. subst ev.
    apply Hdom. apply elem_of_app. right. apply elem_of_app. left.
    change (map EvWrite (artifact_paths jobId)) with (EvWrite <$> artifact_paths jobId).
    rewrite <- fmap_take. apply list_elem_of_fmap_2. exact Hp.
Qed.

End Delivery.

Lemma done_job_is_delivered_witness :
  let job := mkJob "j1" Queued 0 (Some good_context) 1700000000000 None None in
  let st := mkState {[ "j1" := job ]} ∅ [] [job] [] in
  let st' := (runJob good_world "j1" st).1 in
  let brandContext := input job in
  jobs st !! "j1" = Some job /\
  status <$> jobs st' !! "j1" = Some Done /\
  exists planJson captionsJson visualsJson visuals,
    returns good_world PlanStage (JSON_parse_plan good_world) planJson /\
    returns good_world CaptionsStage (JSON_parse_captions good_world) captionsJson /\
    returns good_world VisualsStage (JSON_parse_visuals good_world) visualsJson /\
    editorial_visuals_or_empty visualsJson = inr visuals /\
    let plan := applyMixedMode planJson in
    let rendered := editorialOnly brandContext plan visuals in
    jobs st' !! "j1" = Some (done_job "j1" job) /\
    (forall p c,
       (p, c) ∈ artifact_files "j1" brandContext plan captionsJson visualsJson visuals ->
       disk st' !! p = Some c) /\
    (forall v, v ∈ rendered ->
       exists b64, b64 <> "" /\ disk st' !! image_path "j1" v = Some (FileImage b64)) /\
    (forall p, p ∉ artifact_paths "j1" -> p ∉ map (image_path "j1") rendered ->
       disk st' !! p = disk st !! p) /\
    events st' =
      events st ++ chats ++ map EvWrite (artifact_paths "j1") ++
      render_events "j1" 0 rendered /\
    exists url,
      downloadUrl (done_job "j1" job) = Some url /\
      served_file url = Some (path_join (output_dir "j1") "content_plan.json").
Proof.
  intros job st st' brandContext.
  split; [reflexivity|]. split; [vm_compute; reflexivity|].
  apply (done_job_is_delivered good_world "j1" job st);
    [reflexivity | vm_compute; reflexivity].
Defined.

Lemma failed_job_progress_witness :
  let job := mkJob "j1" Queued 0 (Some good_context) 1700000000000 None None in
  let st := mkState {[ "j1" := job ]} ∅ [] [job] [] in
  let st' := (runJob closed_dir_world "j1" st).1 in
  jobs st !! "j1" = Some job /\
  status <$> jobs st' !! "j1" = Some Error /\
  progress <$> jobs st' !! "j1" = Some 65 /\
  events st' = events st ++ chats ++ map EvWrite (artifact_paths "j1") /\
  exists c k m imgs,
    progress <$> jobs st' !! "j1" = Some c /\
    checkpoint_of c k m /\
    events st' =
      events st ++ take k chats ++ take m (map EvWrite (artifact_paths "j1")) ++ imgs /\
    Forall (rendering_event "j1") imgs /\
    (c < 75 -> imgs = []) /\
    (m = 0%nat -> disk st' = disk st) /\
    (forall p, p ∈ take m (artifact_paths "j1") -> p ∈ dom (disk st')).
Proof.
  intros job st st'.
  split; [reflexivity|]. split; [vm_compute; reflexivity|].
  split; [vm_compute; reflexivity|]. split; [vm_compute; reflexivity|].
  apply (failed_job_progress closed_dir_world "j1" job st);
    [reflexivity | vm_compute; reflexivity].
Defined.

Lemma runJob_failure_witness :
  let job := mkJob "j1" Queued 0 (Some good_context) 1700000000000 None None in
  let st := mkState {[ "j1" := job ]} ∅ [] [job] [] in
  let e := mkError "Connection error." in
  let visuals := map brief ["P01"; "P02"; "P03"; "P04"; "P05"; "P06"] in
  let plan := applyMixedMode six_plan in
  let files :=
    artifact_files "j1" (input job) plan (Some (mkCaptionsJson (Some []))) six_briefs
      visuals in
  let rendered := editorialOnly (input job) plan visuals in
  let ev :=
    chats ++ map EvWrite (artifact_paths "j1") ++
    render_events "j1" 0 (take 1 rendered) ++ [EvImage 1] in
  let written := files ++ image_files flaky_world "j1" 0 (take 1 rendered) in
  let r := runJob flaky_world "j1" st in
  jobs st !! "j1" = Some job /\
  stops flaky_world "j1" job e 75 ev written /\
  r.2 = inr tt /\
  jobs r.1 !! "j1" = Some (failed_job 75 "Connection error." job) /\
  events r.1 = events st ++ ev /\
  disk r.1 = write_all written (disk st) /\
  length written = 7%nat.
Proof.
  intros job st e visuals plan files rendered ev written r.
  assert (stops flaky_world "j1" job e 75 ev written) as Hstops.
  { eapply (stops_at_image flaky_world "j1" job files rendered 1 _ e).
    - exists six_plan, (Some (mkCaptionsJson (Some []))), six_briefs, visuals.
      split; [reflexivity|].
      split; [exists "PLAN"; split; reflexivity|].
      split; [exists "CAPTIONS"; split; reflexivity|].
      split; [exists "BRIEFS"; split; reflexivity|].
      split; [reflexivity|]. split; reflexivity.
    - split; [reflexivity|]. repeat constructor.
    - reflexivity.
    - vm_compute. reflexivity.
    - intros [|k] u Hk _; [reflexivity | lia].
    - reflexivity. }
  destruct (runJob_failure flaky_world "j1" job st eq_refl) as [Hall _].
  destruct (Hall e 75 ev written Hstops) as (Hr & Hj & _ & _ & _ & Hev & Hdisk & _).
  split; [reflexivity|]. split; [exact Hstops|]. split; [exact Hr|].
  split; [exact Hj|]. split; [exact Hev|]. split; [exact Hdisk|].
  vm_compute. reflexivity.
Defined.

(** A run that cannot write its second artifact: the first one stays on
    disk, no other file is written and no image is asked for. *)
Lemma full_disk_run :
  let job := mkJob "j1" Queued 0 (Some good_context) 1700000000000 None None in
  let st := mkState {[ "j1" := job ]} ∅ [] [job] [] in
  let r := runJob full_disk_world "j1" st in
  r.2 = inr tt /\
  jobs r.1 !! "j1" =
    Some (failed_job 65 "ENOSPC: no space left on device, write" job) /\
  events r.1 = chats ++ [EvWrite "outputs/j1/content_plan.json"] /\
  disk r.1 !! "outputs/j1/content_plan.json" = Some (FilePlan (applyMixedMode six_plan)) /\
  disk r.1 !! "outputs/j1/captions.json" = None /\
  disk r.1 !! "outputs/j1/editorial_visuals.json" = None.
Proof. repeat split; vm_compute; reflexivity. Qed.

(** ** Runs that fail before anything is written *)

Section EarlyFailure.

Variable w : World.

(** X12. The first structured call that fails, by rejection or by a reply
    that is not JSON, ends the job: its record gets status [error], the
    message of the error, and the progress of the stage that failed (10
    for the plan, 35 for the captions, 55 for the briefs); the calls up to
    the failing one are the only events, and nothing is written. *)
Theorem first_failing_call jobId job st s e :
  jobs st !! jobId = Some job ->
  reaches w (input job) s ->
  call_fails w s e ->
  let st' := (runJob w jobId st).1 in
  jobs st' !! jobId = Some (failed_job (stage_progress s) (captured_message e) job) /\
  disk st' = disk st /\
  events st' = events st ++ map EvChat (earlier s ++ [s]).
Proof.
  intros Hj Hreach Hfail st'. subst st'.
  destruct (runJob_try_call_fails w jobId job st s e Hj Hreach Hfail)
    as (st1 & Htry & Hj1 & Hdisk & Hev).
  destruct (runJob_records_failure w jobId job st st1 e _ Hj Htry Hj1) as (-> & -> & ->).
  auto.
Qed.

(** X13. A job whose input has no campaign (the input is [null], or it
    has no [campaign]) fails while the plan prompt is built: the prompt
    throws a [TypeError], no remote call is made, nothing is written, and
    the record gets status [error] at progress 10 with the message of
    the [TypeError]. *)
Theorem job_without_campaign jobId job st :
  let st' := (runJob w jobId st).1 in
  jobs st !! jobId = Some job ->
  input job ?. campaign = None ->
  exists e,
    promptPlan (input job) = inl e /\
    (message e = Some "Cannot read properties of null (reading 'campaign')" \/
     message e = Some "Cannot read properties of undefined (reading 'posts_count')") /\
    jobs st' !! jobId = Some (failed_job 10 (captured_message e) job) /\
    status (failed_job 10 (captured_message e) job) = Error /\
    disk st' = disk st /\
    events st' = events st.
Proof.
  intros st' Hj Hcampaign. subst st'.
  assert (exists e, promptPlan (input job) = inl e /\
            (message e = Some "Cannot read properties of null (reading 'campaign')" \/
             message e =
               Some "Cannot read properties of undefined (reading 'posts_count')"))
    as (e & Hprompt & Hmessage).
  { unfold promptPlan. destruct (input job) as [c|]; simpl in Hcampaign.
    - rewrite Hcampaign. eexists. split; [reflexivity | right; reflexivity].
    - eexists. split; [reflexivity | left; reflexivity]. }
  exists e. split; [exact Hprompt|]. split; [exact Hmessage|].
  destruct (stops_throws w jobId job st e 10 [] [] Hj (stops_at_prompt w jobId job e Hprompt))
    as (st1 & Htry & Hj1 & Hdisk & Hev).
  destruct (runJob_records_failure w jobId job st st1 e _ Hj Htry Hj1) as (-> & -> & ->).
  rewrite Hev, app_nil_r. split; [reflexivity|]. split; [reflexivity|].
  split; [exact Hdisk | reflexivity].
Qed.

(** X14. A briefs document that is [null] parses, and fails the job one
    step later, where its [editorial_visuals] are read: the record gets
    status [error] at progress 65, after all three calls and before any
    artifact is written. *)
Theorem null_briefs_document jobId job st :
  jobs st !! jobId = Some job ->
  reaches w (input job) VisualsStage ->
  returns w VisualsStage (JSON_parse_visuals w) None ->
  let st' := (runJob w jobId st).1 in
  jobs st' !! jobId =
    Some (failed_job 65 "Cannot read properties of null (reading 'editorial_visuals')" job) /\
  disk st' = disk st /\
  events st' = events st ++ chats.
Proof.
  intros Hj Hreach Hnull st'. subst st'.
  set (e := mkError "Cannot read properties of null (reading 'editorial_visuals')").
  destruct (stops_throws w jobId job st e 65 chats [] Hj
              (stops_at_briefs w jobId job None e Hreach Hnull eq_refl))
    as (st1 & Htry & Hj1 & Hdisk & Hev).
  destruct (runJob_records_failure w jobId job st st1 e _ Hj Htry Hj1) as (-> & -> & ->).
  auto.
Qed.

End EarlyFailure.

Lemma first_failing_call_witness :
  let text := "Sure! Here are your captions." in
  let job := mkJob "j1" Queued 0 (Some good_context) 1700000000000 None None in
  let st := mkState {[ "j1" := job ]} ∅ [] [job] [] in
  let st' := (runJob prose_world "j1" st).1 in
  jobs st !! "j1" = Some job /\
  reaches prose_world (input job) CaptionsStage /\
  call_fails prose_world CaptionsStage (parse_failed text) /\
  jobs st' !! "j1" =
    Some (failed_job (stage_progress CaptionsStage)
            (captured_message (parse_failed text)) job) /\
  disk st' = disk st /\
  events st' = events st ++ map EvChat (earlier CaptionsStage ++ [CaptionsStage]).
Proof.
  intros text job st st'.
  assert (reaches prose_world (input job) CaptionsStage) as Hreach.
  { split; [reflexivity|]. repeat constructor. exists "PLAN". split; reflexivity. }
  assert (call_fails prose_world CaptionsStage (parse_failed text)) as Hfail.
  { right. exists text. split; [split; reflexivity | reflexivity]. }
  split; [reflexivity|]. split; [exact Hreach|]. split; [exact Hfail|].
  apply (first_failing_call prose_world "j1" job st CaptionsStage (parse_failed text));
    [reflexivity | exact Hreach | exact Hfail].
Defined.

Lemma job_without_campaign_witness :
  let job := mkJob "j1" Queued 0 (Some empty_context) 1700000000000 None None in
  let st := mkState {[ "j1" := job ]} ∅ [] [job] [] in
  let st' := (runJob good_world "j1" st).1 in
  jobs st !! "j1" = Some job /\
  input job ?. campaign = None /\
  exists e,
    promptPlan (input job) = inl e /\
    (message e = Some "Cannot read properties of null (reading 'campaign')" \/
     message e = Some "Cannot read properties of undefined (reading 'posts_count')") /\
    jobs st' !! "j1" = Some (failed_job 10 (captured_message e) job) /\
    status (failed_job 10 (captured_message e) job) = Error /\
    disk st' = disk st /\
    events st' = events st.
Proof.
  intros job st st'.
  split; [reflexivity|]. split; [reflexivity|].
  apply (job_without_campaign good_world "j1" job st); reflexivity.
Defined.

Lemma null_briefs_document_witness :
  let job := mkJob "j1" Queued 0 (Some good_context) 1700000000000 None None in
  let st := mkState {[ "j1" := job ]} ∅ [] [job] [] in
  let st' := (runJob null_briefs_world "j1" st).1 in
  jobs st !! "j1" = Some job /\
  reaches null_briefs_world (input job) VisualsStage /\
  returns null_briefs_world VisualsStage (JSON_parse_visuals null_briefs_world) None /\
  jobs st' !! "j1" =
    Some (failed_job 65 "Cannot read properties of null (reading 'editorial_visuals')" job) /\
  disk st' = disk st /\
  events st' = events st ++ chats.
Proof.
  intros job st st'.
  assert (reaches null_briefs_world (input job) VisualsStage) as Hreach.
  { split; [reflexivity|].
    constructor; [exists "PLAN"; split; reflexivity|].
    constructor; [exists "CAPTIONS"; split; reflexivity | constructor]. }
  assert (returns null_briefs_world VisualsStage
            (JSON_parse_visuals null_briefs_world) None) as Hnull.
  { exists "null". split; reflexivity. }
  split; [reflexivity|]. split; [exact Hreach|]. split; [exact Hnull|].
  apply (null_briefs_document null_briefs_world "j1" job st);
    [reflexivity | exact Hreach | exact Hnull].
Defined.

(** ** The rendering loop *)

Section RenderLoop.

Variable w : World.
Variable jobId : string.

Local Abbreviation editorialDir := (path_join (output_dir jobId) "Editorial_Posts").

(** X15. The rendering loop stops at the first brief whose step fails,
    with the error of that step: the images of the briefs before it are
    written, in order, the failed image call is the last event, no call is
    made for a later brief, and the job table is not touched. *)
Theorem render_all_stops_at_first_failure n vs i v e st :
  vs !! i = Some v ->
  image_failure w (n + i) (image_path jobId v) = Some e ->
  (forall k u, (k < i)%nat -> vs !! k = Some u ->
     image_failure w (n + k) (image_path jobId u) = None) ->
  let r := render_all w editorialDir n vs st in
  r.2 = inl e /\
  jobs r.1 = jobs st /\
  disk r.1 = write_all (image_files w jobId n (take i vs)) (disk st) /\
  events r.1 = events st ++ render_events jobId n (take i vs) ++ [EvImage (n + i)].
Proof.
  intros Hv He Hbefore r. subst r.
  destruct (render_all_throws w jobId n vs i v e st Hv He Hbefore)
    as (st' & -> & Hjobs & Hdisk & Hev).
  auto.
Qed.

End RenderLoop.

Lemma render_all_stops_at_first_failure_witness :
  let vs := map brief ["P02"; "P03"; "P04"] in
  let e := mkError "Connection error." in
  let r := render_all flaky_world (path_join (output_dir "j1") "Editorial_Posts") 0 vs
             initial_state in
  vs !! 1%nat = Some (brief "P03") /\
  image_failure flaky_world (0 + 1) (image_path "j1" (brief "P03")) = Some e /\
  (forall k u, (k < 1)%nat -> vs !! k = Some u ->
     image_failure flaky_world (0 + k) (image_path "j1" u) = None) /\
  r.2 = inl e /\
  jobs r.1 = jobs initial_state /\
  disk r.1 = write_all (image_files flaky_world "j1" 0 (take 1 vs)) (disk initial_state) /\
  events r.1 =
    events initial_state ++ render_events "j1" 0 (take 1 vs) ++ [EvImage (0 + 1)].
Proof.
  intros vs e r.
  assert (forall k u, (k < 1)%nat -> vs !! k = Some u ->
            image_failure flaky_world (0 + k) (image_path "j1" u) = None) as Hbefore.
  { intros k u Hk _. assert (k = 0%nat) as -> by lia. reflexivity. }
  split; [reflexivity|]. split; [reflexivity|]. split; [exact Hbefore|].
  apply (render_all_stops_at_first_failure flaky_world "j1" 0 vs 1 (brief "P03") e
           initial_state); [reflexivity | reflexivity | exact Hbefore].
Defined.

(** ** The page and the server *)

Section Page.

Variable jobId : string.

Lemma show_job_running links job :
  status job = Queued \/ status job = Running ->
  show_job links (BodyJob job) = (shown_running job, false).
Proof.
  intros [H|H]; unfold show_job, shown_running, read_status, read_progress; simpl;
    rewrite H; simpl; repeat case_bool_decide; try discriminate; reflexivity.
Qed.

Lemma show_job_ended links job :
  status job = Done \/ status job = Error ->
  show_job links (BodyJob job) = (shown_ended links job, true).
Proof.
  intros [H|H]; unfold show_job, shown_ended, read_status; simpl;
    rewrite H; simpl; repeat case_bool_decide; try congruence; reflexivity.
Qed.

Lemma status_answers_polled tables js :
  polled jobId tables js ->
  status_answers jobId tables = map (fun j => Answer (Respond 200 (BodyJob j))) js.
Proof.
  induction 1 as [|t j tables js Ht _ IH]; [reflexivity|].
  simpl. unfold getStatus at 1. rewrite Ht. f_equal. exact IH.
Qed.

Lemma pollJob_on_records js j rest :
  Forall (fun x => status x = Queued \/ status x = Running) js ->
  status j = Done \/ status j = Error ->
  let answers :=
    map (fun x => Answer (Respond 200 (BodyJob x))) js ++
    Answer (Respond 200 (BodyJob j)) :: rest in
  Public.pollJob answers =
    (map shown_running js ++ [shown_ended [Js.str (downloadUrl j)] j], Returned) /\
  Unnamed.pollJob jobId answers =
    (map shown_running js ++ [shown_ended (Unnamed.done_links jobId) j], Returned).
Proof.
  intros Hjs Hj. cbv zeta.
  induction Hjs as [|x js Hx _ [IH1 IH2]]; simpl.
  - rewrite !show_job_ended by exact Hj. split; reflexivity.
  - rewrite !show_job_running by exact Hx. rewrite IH1, IH2. split; reflexivity.
Qed.

Lemma pollJob_while_running js :
  Forall (fun x => status x = Queued \/ status x = Running) js ->
  let answers := map (fun x => Answer (Respond 200 (BodyJob x))) js in
  Public.pollJob answers = (map shown_running js, Polling) /\
  Unnamed.pollJob jobId answers = (map shown_running js, Polling).
Proof.
  intros Hjs. cbv zeta.
  induction Hjs as [|x js Hx _ [IH1 IH2]]; simpl.
  - split; reflexivity.
  - rewrite !show_job_running by exact Hx. rewrite IH1, IH2. split; reflexivity.
Qed.

(** X16. Both pages follow a job to its end and no further: they show the
    status and the progress of every record that is still queued or
    running, stop at the first record that is done or failed, showing the
    download link of the record (the first page) or their own seven links
    (the later page), or else the error of the record, and never read an
    answer after that one. *)
Theorem pollJob_follows_the_job tables js j later :
  polled jobId tables (js ++ j :: later) ->
  Forall (fun x => status x = Queued \/ status x = Running) js ->
  status j = Done \/ status j = Error ->
  Public.pollJob (status_answers jobId tables) =
    (map shown_running js ++ [shown_ended [Js.str (downloadUrl j)] j], Returned) /\
  Unnamed.pollJob jobId (status_answers jobId tables) =
    (map shown_running js ++ [shown_ended (Unnamed.done_links jobId) j], Returned).
Proof.
  intros Hp Hjs Hj. rewrite (status_answers_polled _ _ Hp), map_app.
  apply pollJob_on_records; assumption.
Qed.

(** X17. For a job the server does not know, the first page never stops
    asking: every answer is the 404 body, whose status is neither "error"
    nor "done", and it is shown as a status. The later page stops at the
    first such answer. *)
Theorem pollJob_unknown_job tables :
  Forall (fun table => table !! jobId = None) tables ->
  Public.pollJob (status_answers jobId tables) =
    (map (fun _ => ShownStatus "undefined" None) tables, Polling) /\
  (tables <> [] ->
   Unnamed.pollJob jobId (status_answers jobId tables) =
     ([ShownLookupFailed 404], Returned)).
Proof.
  intros Hall. split.
  - induction Hall as [|t tables Ht _ IH]; [reflexivity|].
    simpl. unfold getStatus at 1. rewrite Ht. simpl. rewrite IH. reflexivity.
  - destruct Hall as [|t tables Ht _]; [congruence|]. intros _.
    simpl. unfold getStatus. rewrite Ht. reflexivity.
Qed.

End Page.

Section Followed.

Variable w : World.
Variable jobId : string.

(** A job that was just created runs to an end: before the promise of
    [runJob] settles the record is [done] or [error], and the tables that
    could be read until then show it running. *)
Lemma runJob_created_ends hprev sprev st :
  Created jobId hprev sprev st ->
  exists t stE, (t = Done \/ t = Error) /\
                Ended jobId hprev sprev t stE /\
                (runJob w jobId st).1 = settle stE.
Proof.
  intros HC. pose proof HC as (j & Hj & _).
  rewrite (runJob_present w _ _ _ Hj).
  pose proof (runJob_try_lifecycle w jobId hprev sprev j st HC) as Htry.
  destruct (runJob_try w jobId j st) as [st1 [e|[]]].
  - destruct Htry as (c & Hc & HR).
    exists Error, (runJob_catch jobId e st1).1. split; [auto|]. split; [|reflexivity].
    assert (triple (Running_at jobId hprev sprev c) (runJob_catch jobId e)
              (fun _ => Ended jobId hprev sprev Error) (fun _ _ => False)) as Hcatch.
    { apply triple_settle; try discriminate; [intros; split; reflexivity| |lia].
      split; [lia | discriminate]. }
    specialize (Hcatch st1 HR).
    destruct (runJob_catch jobId e st1) as [st2 [e'|[]]]; [destruct Hcatch|].
    exact Hcatch.
  - exists Done, st1. split; [auto|]. split; [exact Htry | reflexivity].
Qed.

Lemma polled_running s js c t :
  polled jobId s js -> seen_running c js -> t ∈ s ->
  exists x, t !! jobId = Some x /\ (status x = Queued \/ status x = Running).
Proof.
  intros Hp [Hall _] Ht. revert Hall.
  induction Hp as [|t' x s js Hx _ IH]; intros Hall.
  - apply elem_of_nil in Ht. contradiction.
  - apply Forall_cons in Hall as [(Hs & _) Hall].
    apply elem_of_cons in Ht as [->|Ht]; [eauto | auto].
Qed.

Lemma polled_each tables :
  Forall (fun t => exists x, t !! jobId = Some x /\
                             (status x = Queued \/ status x = Running)) tables ->
  exists js, polled jobId tables js /\
             Forall (fun x => status x = Queued \/ status x = Running) js.
Proof.
  induction 1 as [|t tables (x & Hx & Hs) _ (js & Hp & Hjs)].
  - exists []. split; constructor.
  - exists (x :: js). split; constructor; assumption.
Qed.

(** X18. A page that follows a submitted job shows it running for as
    long as the run lasts, and returns only on the table of the finished
    run. [during] are the tables of the run at the points where it waits
    for a remote call. Whatever tables among these the page reads, and
    however often it reads the same one (as it does while a call is not
    answered), both pages show one running status for each and go on
    asking: nothing but the end of the run makes them return, and the
    server sets no limit on the time a call may take. That a run ends is
    not shown here but taken from the model, in which every remote call
    settles; when the page then reads the table the run has left, it
    returns with the outcome of the job as that table holds it: done with
    its links, or the error. *)
Theorem submitted_job_is_followed now req input st :
  admits w req input ->
  let st' := (submit w jobId now req st).1 in
  exists during j,
    seen st' = seen st ++ during ++ [jobs st'] /\
    jobs st' !! jobId = Some j /\
    (status j = Done \/ status j = Error) /\
    forall read,
      Forall (fun t => t ∈ during) read ->
      exists js,
        polled jobId read js /\
        Public.pollJob (status_answers jobId read) = (map shown_running js, Polling) /\
        Unnamed.pollJob jobId (status_answers jobId read) =
          (map shown_running js, Polling) /\
        forall later,
          Public.pollJob (status_answers jobId (read ++ jobs st' :: later)) =
            (map shown_running js ++ [shown_ended [Js.str (downloadUrl j)] j], Returned) /\
          Unnamed.pollJob jobId (status_answers jobId (read ++ jobs st' :: later)) =
            (map shown_running js ++ [shown_ended (Unnamed.done_links jobId) j], Returned).
Proof.
  intros Hadmits st'. subst st'.
  rewrite (submit_admitted w jobId now req input st Hadmits). cbn [fst].
  match goal with
  | |- context [runJob w jobId ?s] =>
      destruct (runJob_created_ends (history st) (seen st) s)
        as (t & stE & Ht & HE & Hrun);
      [apply submit_creates|]
  end.
  rewrite Hrun.
  destruct HE as (j & hJ & s & js0 & n & Hj & Hs & _ & _ & _ & _ & _ & _
                  & Hseen & Hpoll & Hrunning).
  exists s, j. cbn [settle seen jobs].
  split; [rewrite Hseen, <- app_assoc; reflexivity|].
  split; [exact Hj|]. split; [rewrite Hs; exact Ht|].
  intros read Hread.
  destruct (polled_each read) as (js & Hp & Hjs).
  { eapply Forall_impl; [exact Hread|]. simpl. intros t0 Ht0.
    eapply polled_running; eassumption. }
  exists js. split; [exact Hp|].
  rewrite (status_answers_polled _ _ _ Hp).
  destruct (pollJob_while_running jobId js Hjs) as [Hpublic Hunnamed].
  split; [exact Hpublic|]. split; [exact Hunnamed|].
  intros later.
  unfold status_answers. rewrite map_app. cbn [map].
  fold (status_answers jobId read). fold (status_answers jobId later).
  rewrite (status_answers_polled _ _ _ Hp).
  unfold getStatus. rewrite Hj.
  apply pollJob_on_records; [exact Hjs | rewrite Hs; exact Ht].
Qed.

End Followed.

Lemma pollJob_follows_the_job_witness :
  let running := mkJob "j1" Running 35 (Some good_context) 1700000000000 None None in
  let tables := [ {[ "j1" := running ]}; {[ "j1" := running ]}; jobs good_run; jobs good_run ] in
  let j := done_job "j1" running in
  polled "j1" tables ([running; running] ++ j :: [j]) /\
  Forall (fun x => status x = Queued \/ status x = Running) [running; running] /\
  (status j = Done \/ status j = Error) /\
  Public.pollJob (status_answers "j1" tables) =
    (map shown_running [running; running] ++ [shown_ended [Js.str (downloadUrl j)] j],
     Returned) /\
  Unnamed.pollJob "j1" (status_answers "j1" tables) =
    (map shown_running [running; running] ++ [shown_ended (Unnamed.done_links "j1") j],
     Returned).
Proof.
  intros running tables j.
  assert (polled "j1" tables ([running; running] ++ j :: [j])) as Hp.
  { unfold polled. repeat (constructor; [vm_compute; reflexivity|]). constructor. }
  assert (Forall (fun x => status x = Queued \/ status x = Running) [running; running])
    as Hjs by (repeat (apply Forall_cons; split; [right; reflexivity|]); apply Forall_nil_2).
  assert (status j = Done \/ status j = Error) as Hj by (left; reflexivity).
  split; [exact Hp|]. split; [exact Hjs|]. split; [exact Hj|].
  apply (pollJob_follows_the_job "j1" tables [running; running] j [j] Hp Hjs Hj).
Defined.

Lemma pollJob_unknown_job_witness :
  let tables := [jobs initial_state; jobs good_run; jobs good_run] in
  Forall (fun table => table !! "j2" = None) tables /\
  Public.pollJob (status_answers "j2" tables) =
    (map (fun _ => ShownStatus "undefined" None) tables, Polling) /\
  (tables <> [] ->
   Unnamed.pollJob "j2" (status_answers "j2" tables) =
     ([ShownLookupFailed 404], Returned)).
Proof.
  intros tables.
  assert (Forall (fun table => table !! "j2" = None) tables) as Hall.
  { repeat (apply Forall_cons; split; [vm_compute; reflexivity|]). apply Forall_nil_2. }
  split; [exact Hall|].
  apply (pollJob_unknown_job "j2" tables Hall).
Defined.

Lemma submitted_job_is_followed_witness :
  let req := request (Some "CONTEXT") in
  let st' := (submit good_world "j1" 1700000000000 req initial_state).1 in
  admits good_world req (Some good_context) /\
  exists during j,
    seen st' = seen initial_state ++ during ++ [jobs st'] /\
    jobs st' !! "j1" = Some j /\
    (status j = Done \/ status j = Error) /\
    forall read,
      Forall (fun t => t ∈ during) read ->
      exists js,
        polled "j1" read js /\
        Public.pollJob (status_answers "j1" read) = (map shown_running js, Polling) /\
        Unnamed.pollJob "j1" (status_answers "j1" read) =
          (map shown_running js, Polling) /\
        forall later,
          Public.pollJob (status_answers "j1" (read ++ jobs st' :: later)) =
            (map shown_running js ++ [shown_ended [Js.str (downloadUrl j)] j], Returned) /\
          Unnamed.pollJob "j1" (status_answers "j1" (read ++ jobs st' :: later)) =
            (map shown_running js ++ [shown_ended (Unnamed.done_links "j1") j], Returned).
Proof.
  intros req st'.
  assert (admits good_world req (Some good_context)) as Hadmits.
  { split; [reflexivity|]. exists (Some "CONTEXT"). split; reflexivity. }
  split; [exact Hadmits|].
  apply (submitted_job_is_followed good_world "j1" 1700000000000 req
           (Some good_context) initial_state Hadmits).
Defined.

(** ** The links of the later page *)

Section Links.

Variable w : World.

(** The disk when a job is done: the six artifacts and the images, written
    onto the disk the run started from. *)
Lemma runJob_done_disk jobId job st :
  jobs st !! jobId = Some job ->
  status <$> jobs (runJob w jobId st).1 !! jobId = Some Done ->
  exists files rendered,
    disk (runJob w jobId st).1 =
      write_all (files ++ image_files w jobId 0 rendered) (disk st) /\
    map fst files = artifact_paths jobId.
Proof.
  intros Hj Hdone.
  pose proof (runJob_try_ends w jobId job st Hj) as Hend.
  pose proof (runJob_status w jobId job st Done Hj Hdone) as Hst.
  destruct (runJob_try w jobId job st) as [st1 [e|[]]]; [destruct Hst; discriminate|].
  destruct Hst as [_ ->].
  destruct Hend as (files & rendered & Hcomp & _ & _ & _ & (_ & Hdisk & _)).
  exists files, rendered. split; [exact Hdisk|].
  destruct Hcomp as (? & ? & ? & ? & _ & _ & _ & _ & _ & -> & _). reflexivity.
Qed.

Lemma served_download jobId name :
  served_file ("/downloads/" +:+ jobId +:+ "/" +:+ name) =
    Some (path_join (output_dir jobId) name).
Proof.
  unfold served_file, output_dir. rewrite path_join_assoc. reflexivity.
Qed.

Lemma served_archive jobId :
  served_file ("/downloads/" +:+ jobId +:+ ".zip") = Some (output_dir jobId +:+ ".zip").
Proof.
  unfold served_file, output_dir, path_join. rewrite !append_assoc. reflexivity.
Qed.

Lemma archive_outside jobId x : output_dir jobId +:+ ".zip" <> path_join (output_dir jobId) x.
Proof. unfold path_join. intros H. apply append_inj_l in H. discriminate H. Qed.

(** X19. Of the links the later page shows for a job that is done, the
    five to JSON artifacts are served from files the run has written; the
    link to the archive is served from [outputs/<jobId>.zip], a file the
    run does not write: it is on disk after the run only as it was before. *)
Theorem links_of_a_done_job jobId job st :
  jobs st !! jobId = Some job ->
  status <$> jobs (runJob w jobId st).1 !! jobId = Some Done ->
  let st' := (runJob w jobId st).1 in
  (forall name,
     name ∈ ["content_plan.json"; "captions.json"; "editorial_visuals.json";
             "editorial_visuals_compiled.json"; "product_model_briefs.json"] ->
     "/downloads/" +:+ jobId +:+ "/" +:+ name ∈ Unnamed.done_links jobId /\
     exists p,
       served_file ("/downloads/" +:+ jobId +:+ "/" +:+ name) = Some p /\
       p ∈ dom (disk st')) /\
  "/downloads/" +:+ jobId +:+ ".zip" ∈ Unnamed.done_links jobId /\
  exists p,
    served_file ("/downloads/" +:+ jobId +:+ ".zip") = Some p /\
    disk st' !! p = disk st !! p.
Proof.
  intros Hj Hdone st'. subst st'.
  destruct (runJob_done_disk jobId job st Hj Hdone) as (files & rendered & -> & Hpaths).
  split; [|split].
  - intros name Hname.
    assert (path_join (output_dir jobId) name ∈ artifact_paths jobId /\
            "/downloads/" +:+ jobId +:+ "/" +:+ name ∈ Unnamed.done_links jobId)
      as [Hpath Hlink].
    { unfold artifact_paths, Unnamed.done_links.
      repeat (apply elem_of_cons in Hname as [->|Hname]);
        [| | | | |apply elem_of_nil in Hname; contradiction].
      all: split; [apply list_elem_of_In, in_map, list_elem_of_In|].
      all: repeat first [apply list_elem_of_here | apply list_elem_of_further]. }
    split; [exact Hlink|].
    exists (path_join (output_dir jobId) name). split; [apply served_download|].
    apply elem_of_dom.
    destruct (lookup_write_all_in (files ++ image_files w jobId 0 rendered) (disk st)
                (path_join (output_dir jobId) name)) as (c & _ & ->); [|eauto].
    rewrite map_app, Hpaths. apply elem_of_app. left. exact Hpath.
  - apply list_elem_of_here.
  - exists (output_dir jobId +:+ ".zip"). split; [apply served_archive|].
    apply lookup_write_all_notin.
    rewrite map_app, Hpaths, image_files_paths.
    intros [Hin|Hin]%elem_of_app;
      apply list_elem_of_In, in_map_iff in Hin as (x & Heq & _).
    + symmetry in Heq. apply archive_outside in Heq. exact Heq.
    + unfold image_path in Heq. rewrite path_join_assoc in Heq.
      symmetry in Heq. apply archive_outside in Heq. exact Heq.
Qed.

End Links.

Lemma links_of_a_done_job_witness :
  let job := mkJob "j1" Queued 0 (Some good_context) 1700000000000 None None in
  let st := mkState {[ "j1" := job ]} ∅ [] [job] [] in
  let st' := (runJob good_world "j1" st).1 in
  jobs st !! "j1" = Some job /\
  status <$> jobs st' !! "j1" = Some Done /\
  (forall name,
     name ∈ ["content_plan.json"; "captions.json"; "editorial_visuals.json";
             "editorial_visuals_compiled.json"; "product_model_briefs.json"] ->
     "/downloads/" +:+ "j1" +:+ "/" +:+ name ∈ Unnamed.done_links "j1" /\
     exists p,
       served_file ("/downloads/" +:+ "j1" +:+ "/" +:+ name) = Some p /\
       p ∈ dom (disk st')) /\
  "/downloads/" +:+ "j1" +:+ ".zip" ∈ Unnamed.done_links "j1" /\
  exists p,
    served_file ("/downloads/" +:+ "j1" +:+ ".zip") = Some p /\
    disk st' !! p = disk st !! p.
Proof.
  intros job st st'.
  split; [reflexivity|]. split; [vm_compute; reflexivity|].
  apply (links_of_a_done_job good_world "j1" job st);
    [reflexivity | vm_compute; reflexivity].
Defined.

(** ** Product briefs and editorial images *)

Section BriefsAndImages.

Lemma tagged_product ids p :
  visual_mode (tag ids p) = Some "product_model" <-> id p ∈ ids.
Proof.
  unfold tag. simpl.
  case_bool_decide; split; intros; try discriminate; try contradiction; auto.
Qed.

Lemma tagged_editorial ids p :
  visual_mode (tag ids p) = Some "editorial" <-> id p ∉ ids.
Proof.
  unfold tag. simpl.
  case_bool_decide; split; intros; try discriminate; try contradiction; auto.
Qed.

Lemma brief_id_productBriefs brandContext planJson i :
  i ∈ map brief_id (productBriefs brandContext (applyMixedMode planJson)) <->
  i ∈ map id (posts_of planJson) /\ i ∈ chosenIds (posts_of planJson).
Proof.
  unfold productBriefs, productPosts. rewrite map_map. cbn [brief_id compileProductModelBrief].
  rewrite posts_of_applyMixedMode. set (ps := posts_of planJson). set (ids := chosenIds ps).
  split.
  - intros Hin. apply list_elem_of_In, in_map_iff in Hin as (q & <- & Hq).
    apply filter_In in Hq as [Hq Hmode]. apply bool_decide_eq_true in Hmode.
    apply in_map_iff in Hq as (p & <- & Hp). rewrite tag_id.
    split; [apply list_elem_of_In, in_map, Hp | apply tagged_product, Hmode].
  - intros [Hin Hids]. apply list_elem_of_In, in_map_iff in Hin as (p & <- & Hp).
    apply list_elem_of_In, in_map_iff. exists (tag ids p).
    split; [apply tag_id|]. apply filter_In.
    split; [apply in_map, Hp | apply bool_decide_eq_true, tagged_product, Hids].
Qed.

Lemma elem_of_editorialIds planJson i :
  i ∈ editorialIds (applyMixedMode planJson) <->
  i ∈ map id (posts_of planJson) /\ i ∉ chosenIds (posts_of planJson).
Proof.
  unfold editorialIds. rewrite posts_of_applyMixedMode.
  set (ps := posts_of planJson). set (ids := chosenIds ps).
  rewrite elem_of_list_to_set. split.
  - intros Hin. apply list_elem_of_In, in_map_iff in Hin as (q & <- & Hq).
    apply filter_In in Hq as [Hq Hmode]. apply bool_decide_eq_true in Hmode.
    apply in_map_iff in Hq as (p & <- & Hp). rewrite tag_id.
    split; [apply list_elem_of_In, in_map, Hp | apply tagged_editorial, Hmode].
  - intros [Hin Hids]. apply list_elem_of_In, in_map_iff in Hin as (p & <- & Hp).
    apply list_elem_of_In, in_map_iff. exists (tag ids p).
    split; [apply tag_id|]. apply filter_In.
    split; [apply in_map, Hp | apply bool_decide_eq_true, tagged_editorial, Hids].
Qed.

(** X4. What a run makes of an allocated plan: one product brief, with
    two variants, for each post tagged [product_model], at most four of
    them when the identifiers of the plan are distinct; and an image for
    each visual brief whose identifier is that of a post tagged
    [editorial]. No identifier gets both a product brief and an image,
    and every visual brief that belongs to a post of the plan gets one of
    the two. *)
Theorem product_briefs_and_images brandContext planJson visuals :
  let plan := applyMixedMode planJson in
  let briefs := productBriefs brandContext plan in
  let rendered := editorialOnly brandContext plan visuals in
  length briefs = count_mode "product_model" (posts_of plan) /\
  Forall (fun b => map variant (variants b) = ["A"; "B"]) briefs /\
  (NoDup (map id (posts_of planJson)) -> (length briefs <= 4)%nat) /\
  (forall v, v ∈ rendered -> v_id v ∉ map brief_id briefs) /\
  (forall v, v ∈ visuals -> v_id v ∈ map id (posts_of planJson) ->
     compiled_visual (makeDefaultBrandStyle brandContext) v ∈ rendered \/
     v_id v ∈ map brief_id briefs).
Proof.
  intros plan briefs rendered.
  assert (length briefs = count_mode "product_model" (posts_of plan)) as Hlen.
  { unfold briefs, productBriefs, productPosts, count_mode. apply length_map. }
  split; [exact Hlen|]. split; [|split; [|split]].
  - unfold briefs, productBriefs. apply Forall_forall. intros b Hb.
    apply list_elem_of_In, in_map_iff in Hb as (p & <- & _). reflexivity.
  - intros Hnd. rewrite Hlen. apply at_most_four_product_posts, Hnd.
  - intros v Hv Hb. unfold rendered, editorialOnly in Hv.
    apply list_elem_of_In, filter_In in Hv as [_ Hv]. apply bool_decide_eq_true in Hv.
    apply elem_of_editorialIds in Hv as [_ Hv].
    apply brief_id_productBriefs in Hb as [_ Hb]. contradiction.
  - intros v Hv Hid.
    destruct (decide (v_id v ∈ chosenIds (posts_of planJson))) as [Hin|Hout].
    + right. apply brief_id_productBriefs. split; assumption.
    + left. unfold rendered, editorialOnly, editorialVisualsCompiled.
      apply list_elem_of_In, filter_In. split.
      * apply in_map, list_elem_of_In, Hv.
      * apply bool_decide_eq_true. cbn [compiled_visual v_id].
        apply elem_of_editorialIds. split; assumption.
Qed.

End BriefsAndImages.

(** ** What the form sends *)

(** X20. The input the page builds from its form always has a campaign,
    so that the plan prompt can be built, and it never names a product:
    the product briefs of such a job show the offer summary of the form,
    or "the product" when that is empty. The brand style is that of the
    brand name and the tone of the form. *)
Theorem form_input_on_the_server Number data brandStyle post :
  let input := Some (form_input Number data) in
  promptPlan input = inr tt /\
  product_focus (compileProductModelBrief brandStyle post input) =
    Js.or_else (get_offerSummary data) "the product" /\
  brand_id (makeDefaultBrandStyle input) = slugify (get_brandName data) /\
  (mood (makeDefaultBrandStyle input) = "clean, friendly, confident" <->
   get_tone data = Some "friendly").
Proof.
  intros input. subst input.
  split; [reflexivity|]. split; [reflexivity|]. split.
  - unfold makeDefaultBrandStyle, form_input. cbn [brand_id Js.chain brand name].
    destruct (get_brandName data) as [[|c s]|]; reflexivity.
  - unfold makeDefaultBrandStyle, form_input.
    cbn [mood Js.chain brand brand_voice tone].
    destruct (get_tone data) as [[|c s]|]; cbn [Js.or_else].
    + split; discriminate.
    + case_bool_decide as H; [rewrite H; split; reflexivity|].
      split; [discriminate | congruence].
    + split; discriminate.
Qed.
